(** * PhyloRank [decorate.py]: placing taxon labels on a rooted tree

    A shallow embedding of [phylorank/decorate.py] (class [Decorate]) and
    the properties of its specification.

    Conventions of the embedding.
    - A tree node is identified by its path from the seed node (the list of
      child positions); the mutable [label] slot of the nodes is a side
      table indexed by these paths.
    - A Python float is the rational it stands for, and an operation on
      floats is the exact operation followed by the rounding [PyFloat.fl]
      to the nearest float (53 significant bits, ties to even). The range
      of the exponent is not modelled: nothing overflows or underflows. A
      count of leaves is below [2 ** 53], so that [float(n)] and
      [0.5 * n] are exact.
    - A string is a sequence of code points below 256.
    - Python dictionaries keyed by taxon are [gmap string _]; the taxonomy
      dictionary, whose iteration order is observable, is an association
      list in insertion order.
    - Python exceptions and [sys.exit] are results in the [result] type.
      [_fmeasure] is a total function here: on a taxonomy whose records
      have one entry per rank it raises nothing (every leaf is a key of the
      dictionary that [run] builds, a named taxon of a finer rank has a
      parent, see [parent_taxon_defined], and a scored node has a non-zero
      recall denominator, see [scored_node_total_positive]). *)

From Stdlib Require Import Ascii QArith Qabs Qround Qpower Qreduction Lqa.
From stdpp Require Import gmap strings list fin_maps sorting.

Open Scope nat_scope.

(** ** Python string operations used by the source *)

Module PyStr.

(** [s.split(sep)] for a one-character separator. *)
Fixpoint split (sep : ascii) (s : string) : list string :=
  match s with
  | EmptyString => [EmptyString]
  | String c s' =>
      if Ascii.eqb c sep then EmptyString :: split sep s'
      else match split sep s' with
           | [] => [String c EmptyString]
           | w :: ws => String c w :: ws
           end
  end.

(** The whitespace that [str.strip()] removes, among the code points
    below 256: the controls 9 to 13 and 28 to 31, the space, the next-line
    control 133 and the no-break space 160. *)
Definition is_ws (c : ascii) : bool :=
  let n := nat_of_ascii c in
  ((9 <=? n) && (n <=? 13)) || ((28 <=? n) && (n <=? 32)) ||
  (n =? 133) || (n =? 160).

Fixpoint lstrip (s : string) : string :=
  match s with
  | String c s' => if is_ws c then lstrip s' else s
  | EmptyString => EmptyString
  end.

Fixpoint rstrip (s : string) : string :=
  match s with
  | String c s' =>
      match rstrip s' with
      | EmptyString => if is_ws c then EmptyString else String c EmptyString
      | r => String c r
      end
  | EmptyString => EmptyString
  end.

Definition strip (s : string) : string := rstrip (lstrip s).

(** [s[0:n]] *)
Definition slice_to (n : nat) (s : string) : string := String.substring 0 n s.

(** [sep.join(l)] *)
Definition join (sep : string) (l : list string) : string := String.concat sep l.

(** [s.startswith(p)] *)
Definition startswith (s p : string) : bool := String.prefix p s.

(** [sorted(l)] on strings: insertion into an ordered list, code-point
    order. *)
Fixpoint insert_sorted (x : string) (l : list string) : list string :=
  match l with
  | [] => [x]
  | y :: l' => if String.leb x y then x :: l else y :: insert_sorted x l'
  end.

Definition sorted (l : list string) : list string :=
  foldr insert_sorted [] l.

(** Truthiness of an optional string: [None] and [''] are false. *)
Definition truthy (o : option string) : bool :=
  match o with
  | Some s => negb (String.eqb s EmptyString)
  | None => false
  end.

End PyStr.

(** ** Python floats *)

Module PyFloat.

(** [2 ** z] for an integer exponent. *)
Definition pow2 (z : Z) : Q := (2 ^ z)%Q.

(** The binary exponent of a positive rational: the [e] with
    [2 ** e <= q < 2 ** (e + 1)]. *)
Definition ilog2 (q : Q) : Z :=
  let k := (Z.log2 (Qnum q) - Z.log2 (Zpos (Qden q)))%Z in
  if Qle_bool (pow2 k) q then k else (k - 1)%Z.

(** Rounding to the nearest integer, ties to the even one. *)
Definition round_half_even (x : Q) : Z :=
  let f := Qfloor x in
  match Qcompare (x - inject_Z f) (1 # 2) with
  | Lt => f
  | Gt => (f + 1)%Z
  | Eq => if Z.even f then f else (f + 1)%Z
  end.

(** A positive rational rounded to 53 significant bits. *)
Definition round_pos (q : Q) : Q :=
  let s := (ilog2 q - 52)%Z in
  Qred (inject_Z (round_half_even (q / pow2 s)) * pow2 s).

(** The float nearest to a rational. *)
Definition fl (q : Q) : Q :=
  match Qnum q with
  | Z0 => 0%Q
  | Zpos _ => round_pos q
  | Zneg _ => (- round_pos (- q))%Q
  end.

(** The distance from 1 to the float below it, and the floats just below
    1. *)
Definition eps : Q := pow2 (-53).

Definition near_one (i : Z) : Q := (1 - inject_Z i * eps)%Q.

(** The positive floats: [m * 2 ** e] with [m] of at most 53 bits. *)
Definition representable (x : Q) : Prop :=
  ∃ m e, (0 < m < 2 ^ 53)%Z ∧ (x == inject_Z m * pow2 e)%Q.

End PyFloat.

(** ** Results of fallible code *)

Inductive error : Type :=
| IndexError
| ValueError
| KeyError
| SystemExit.

Inductive result (A : Type) : Type :=
| Ok (a : A)
| Raise (e : error).
Arguments Ok {A} a.
Arguments Raise {A} e.

#[global] Instance result_ret : MRet result := λ A a, Ok a.

#[global] Instance result_bind : MBind result := λ A B k r,
  match r with
  | Ok a => k a
  | Raise e => Raise e
  end.

(** [l.index(x)] *)
Fixpoint index_of (x : string) (l : list string) : result nat :=
  match l with
  | [] => Raise ValueError
  | y :: l' => if String.eqb x y then Ok 0 else i ← index_of x l'; Ok (S i)
  end.

(** [l[-1]] *)
Definition last_elem {A : Type} (l : list A) : result A :=
  match last l with
  | Some a => Ok a
  | None => Raise IndexError
  end.

(** ** The rooted tree *)

(** A node carries the label of its taxon (read at leaves only) and its
    children; a leaf is a node without children. *)
Inductive tree : Type :=
| Node (taxon_label : string) (child_nodes : list tree).

Abbreviation path := (list nat).

Definition child_nodes (t : tree) : list tree :=
  match t with Node _ cs => cs end.

Definition taxon_label (t : tree) : string :=
  match t with Node l _ => l end.

Definition seed_node : path := [].

(** The node at a path, as the subtree it roots. *)
Fixpoint subtree (t : tree) (p : path) : option tree :=
  match p with
  | [] => Some t
  | i :: p' =>
      match child_nodes t !! i with
      | Some c => subtree c p'
      | None => None
      end
  end.

(** [node.leaf_iter()]: the taxon labels of the leaves below a node. *)
Fixpoint leaf_iter (t : tree) : list string :=
  match t with
  | Node l [] => [l]
  | Node _ cs => flat_map leaf_iter cs
  end.

(** [node.preorder_iter()]: paths of the nodes of a subtree, relative to
    its root, parent before children, children left to right. *)
Fixpoint preorder_iter (t : tree) : list path :=
  match t with
  | Node _ cs =>
      [] :: (fix forest (i : nat) (cs : list tree) : list path :=
               match cs with
               | [] => []
               | c :: cs' => map (cons i) (preorder_iter c) ++ forest (S i) cs'
               end) 0 cs
  end.

(** The traversal of the children of a node, from child position [i] on. *)
Fixpoint preorder_forest (i : nat) (cs : list tree) : list path :=
  match cs with
  | [] => []
  | c :: cs' => map (cons i) (preorder_iter c) ++ preorder_forest (S i) cs'
  end.

Definition is_leaf (t : tree) : bool :=
  match child_nodes t with [] => true | _ => false end.

Definition is_leaf_at (t : tree) (p : path) : bool :=
  match subtree t p with Some c => is_leaf c | None => false end.

Definition is_internal_at (t : tree) (p : path) : bool :=
  match subtree t p with Some c => negb (is_leaf c) | None => false end.

(** Paths of the leaves of a subtree, relative to its root. *)
Definition leaf_paths (t : tree) : list path :=
  filter (λ p, is_leaf_at t p = true) (preorder_iter t).

(** [node.preorder_iter()] for the node at path [p] of the whole tree:
    absolute paths. *)
Definition preorder_from (t : tree) (p : path) : list path :=
  match subtree t p with
  | Some c => map (app p) (preorder_iter c)
  | None => []
  end.

(** [tree.internal_nodes()]: the nodes that have children. *)
Definition internal_nodes (t : tree) : list path :=
  filter (λ p, is_internal_at t p = true) (preorder_iter t).

(** [tree.leaf_node_iter()] *)
Definition leaf_node_iter (t : tree) : list path := leaf_paths t.

(** ** The taxonomy dictionary and its derived views *)

(** A Python dictionary whose order is observable: an association list in
    insertion order with one entry per key. *)
Section Dict.
Context {V : Type}.

Fixpoint dict_get (k : string) (d : list (string * V)) : option V :=
  match d with
  | [] => None
  | (k', v) :: d' => if String.eqb k k' then Some v else dict_get k d'
  end.

(** [d[k] = v]: an existing key keeps its position. *)
Fixpoint dict_set (k : string) (v : V) (d : list (string * V)) : list (string * V) :=
  match d with
  | [] => [(k, v)]
  | (k', v') :: d' =>
      if String.eqb k k' then (k, v) :: d' else (k', v') :: dict_set k v d'
  end.
End Dict.

(** [taxonomy : d[extant_taxon_id] -> taxa list] *)
Abbreviation taxonomy_dict := (list (string * list string)).

Module Taxonomy.

(** Modelled from the spec: the class [Taxonomy] of the [biolib] package
    is not part of the sources.  It gives the ranks in order from the most
    general to the most specific, the placeholder of each rank that marks
    a missing classification, the named taxa grouped by rank, the leaves
    of a taxon, the parent taxa of a taxon and the canonical
    rank-then-name order of taxa. *)
Definition rank_prefixes : list string :=
  ["d__"; "p__"; "c__"; "o__"; "f__"; "g__"; "s__"]%string.

Definition rank_labels : list string :=
  ["domain"; "phylum"; "class"; "order"; "family"; "genus"; "species"]%string.

(** A taxon is named at a rank when it is not that rank's placeholder. *)
Definition named (rank_index : nat) (taxon : string) : bool :=
  match rank_prefixes !! rank_index with
  | Some prefix => negb (String.eqb taxon prefix)
  | None => true
  end.

(** Modelled from the spec: [named_lineages_at_rank], the set of named
    taxa found at a rank, enumerated without repetition. *)
Definition named_lineages_at_rank (taxonomy : taxonomy_dict) (rank_index : nat)
  : list string :=
  remove_dups
    (flat_map (λ entry : string * list string,
                 match entry.2 !! rank_index with
                 | Some taxon => if named rank_index taxon then [taxon] else []
                 | None => []
                 end) taxonomy).

(** Modelled from the spec: [extant_taxa_for_rank], the set of the
    identifiers of the extant taxa (leaves) carrying a named taxon at a
    rank. *)
Definition extant_taxa_for_rank (rank_index : nat) (taxonomy : taxonomy_dict)
           (taxon : string) : list string :=
  remove_dups
    (map fst
       (filter (λ entry : string * list string,
                  entry.2 !! rank_index = Some taxon ∧ named rank_index taxon = true)
               taxonomy)).

(** Modelled from the spec: [parents], for each taxon the list of its
    parent taxa in rank order, as given by the last record naming it. *)
Definition parents_of_record (taxa : list string)
           (p : gmap string (list string)) : gmap string (list string) :=
  foldl (λ p i, match taxa !! i with
                | Some taxon => if i =? 0 then p else <[taxon := take i taxa]> p
                | None => p
                end) p (seq 0 (length taxa)).

Definition parents (taxonomy : taxonomy_dict) : gmap string (list string) :=
  foldl (λ p entry, parents_of_record entry.2 p) ∅ taxonomy.

(** Modelled from the spec: [sort_taxa], taxa sorted by rank and then by
    name; [reverse] gives the opposite order. *)
Definition sort_taxa (taxa : list string) (reverse : bool) : list string :=
  let ordered_taxa :=
    flat_map (λ rank_prefix,
                PyStr.sorted (filter (λ taxon, PyStr.startswith taxon rank_prefix = true) taxa))
             rank_prefixes in
  if reverse then rev ordered_taxa else ordered_taxa.

End Taxonomy.

(** ** Subtree profile: [node.taxa_count] and [taxa_in_tree] *)

(** [taxonomy[leaf.taxon.label]]; every leaf of the tree is a key of the
    dictionary that [run] builds. *)
Definition record_of (taxonomy : taxonomy_dict) (leaf : string) : list string :=
  default [] (dict_get leaf taxonomy).

(** [node.taxa_count[rank_index][taxon]]: the leaves below the node whose
    record names [taxon] at [rank_index]. *)
Definition taxa_count (taxonomy : taxonomy_dict) (node : tree)
           (rank_index : nat) (taxon : string) : nat :=
  length (filter (λ leaf, record_of taxonomy leaf !! rank_index = Some taxon
                          ∧ Taxonomy.named rank_index taxon = true)
                 (leaf_iter node)).

(** The record of the leaf names a taxon at [rank_index]. *)
Definition has_named_taxon (taxonomy : taxonomy_dict) (rank_index : nat)
           (leaf : string) : bool :=
  match record_of taxonomy leaf !! rank_index with
  | Some taxon => Taxonomy.named rank_index taxon
  | None => false
  end.

(** [sum(node.taxa_count[rank_index].values())]: the leaves below the node
    that carry any named taxon at [rank_index]. *)
Definition num_leaves_with_taxa (taxonomy : taxonomy_dict) (node : tree)
           (rank_index : nat) : nat :=
  length (filter (λ leaf, has_named_taxon taxonomy rank_index leaf = true)
                 (leaf_iter node)).

(** [node.num_leaves] *)
Definition num_leaves (node : tree) : nat := length (leaf_iter node).

(** [taxa_in_tree[taxon]]: occurrences of [taxon] in the records of the
    leaves of the tree. *)
Definition taxa_in_tree (taxonomy : taxonomy_dict) (t : tree) (taxon : string) : nat :=
  length (filter (λ x, x = taxon)
                 (flat_map (record_of taxonomy) (leaf_iter t))).

(** The annotation read at a path of the tree. *)
Definition taxa_count_at (taxonomy : taxonomy_dict) (t : tree) (node : path)
           (rank_index : nat) (taxon : string) : nat :=
  match subtree t node with
  | Some c => taxa_count taxonomy c rank_index taxon
  | None => 0
  end.

Definition num_leaves_with_taxa_at (taxonomy : taxonomy_dict) (t : tree) (node : path)
           (rank_index : nat) : nat :=
  match subtree t node with
  | Some c => num_leaves_with_taxa taxonomy c rank_index
  | None => 0
  end.

(** ** Placement search: [_fmeasure] *)

(** A candidate placement [(node, fmeasure, precision, recall)]. *)
Record cand : Type := Cand {
  cand_node : path;
  cand_fmeasure : Q;
  cand_precision : Q;
  cand_recall : Q
}.

(** [d[taxon] -> [(Node, F-measure, precision, recall), ...]] *)
Abbreviation fmeasure_map := (gmap string (list cand)).

Import PyFloat.

(** [float(n)] of a count. *)
Definition Qnat (n : nat) : Q := inject_Z (Z.of_nat n).

(** Modelled from the spec: [tree.mrca(taxa=...)] of the tree library is
    not part of the sources; it answers the lowest common ancestor of a
    set of leaves, the deepest node that is an ancestor of all of them.
    With nodes named by their paths this is the longest common prefix of
    the paths of the leaves. *)
Fixpoint common_prefix (p q : path) : path :=
  match p, q with
  | i :: p', j :: q' => if i =? j then i :: common_prefix p' q' else []
  | _, _ => []
  end.

Definition mrca (leaves : list path) : path :=
  match leaves with
  | [] => seed_node
  | l :: ls => foldl common_prefix l ls
  end.

(** [[leaf.taxon for leaf in p.leaf_iter()]], each leaf named by its path
    in the whole tree. *)
Definition leaves_below (t : tree) (p : path) : list path :=
  match subtree t p with
  | Some c => map (app p) (leaf_paths c)
  | None => []
  end.

Section Fmeasure.
Variable t : tree.
Variable taxonomy : taxonomy_dict.

(** Lines 98-126: the node below which a taxon is searched; [None] when
    the taxon is skipped ([continue]). *)
Definition search_root (fmeasure_for_taxa : fmeasure_map)
           (rank_index : nat) (taxon : string) : option path :=
  if rank_index =? 0 then Some seed_node
  else
    match last (Taxonomy.parents taxonomy !!! taxon) with
    | None => None
    | Some parent_taxon =>
        match fmeasure_for_taxa !! parent_taxon with
        | Some data =>
            let parent_nodes := map cand_node data in
            let taxon_parent_node :=
              match parent_nodes with
              | [p] => p
              | _ => mrca (flat_map (leaves_below t) parent_nodes)
              end in
            if Qlt_le_dec (Qnat (taxa_count_at taxonomy t taxon_parent_node rank_index taxon))
                          ((1 # 2) * Qnat (taxa_in_tree taxonomy t taxon))
            then Some seed_node
            else Some taxon_parent_node
        | None => None
        end
    end.

(** Lines 132-138: the score of one node; [None] when the node is
    skipped. *)
Definition score (taxa_in_lineage num_leaves_with_taxa total_taxa : nat)
  : option (Q * Q * Q) :=
  if negb (taxa_in_lineage =? 0) && negb (num_leaves_with_taxa =? 0) then
    let precision := fl (Qnat taxa_in_lineage / Qnat num_leaves_with_taxa) in
    let recall := fl (Qnat taxa_in_lineage / Qnat total_taxa) in
    let fmeasure :=
      fl (fl (fl (2 * precision) * recall) / fl (precision + recall)) in
    Some (fmeasure, precision, recall)
  else None.

Definition node_score (rank_index : nat) (taxon : string) (total_taxa : nat)
           (node : path) : option (Q * Q * Q) :=
  score (taxa_count_at taxonomy t node rank_index taxon)
        (num_leaves_with_taxa_at taxonomy t node rank_index)
        total_taxa.

(** Lines 131-144: one iteration of the loop over the search region; the
    state is [cur_taxon_fmeasure] and the candidate map. *)
Definition visit (rank_index : nat) (taxon : string) (total_taxa : nat)
           (st : Q * fmeasure_map) (node : path) : Q * fmeasure_map :=
  let '(cur_taxon_fmeasure, fmeasure_for_taxa) := st in
  match node_score rank_index taxon total_taxa node with
  | Some (fmeasure, precision, recall) =>
      if Qlt_le_dec cur_taxon_fmeasure fmeasure then
        (fmeasure, <[taxon := [Cand node fmeasure precision recall]]> fmeasure_for_taxa)
      else if Qeq_dec fmeasure cur_taxon_fmeasure then
        (cur_taxon_fmeasure,
         alter (λ l, l ++ [Cand node fmeasure precision recall]) taxon fmeasure_for_taxa)
      else st
  | None => st
  end.

Definition total_taxa (rank_index : nat) (taxon : string) : nat :=
  length (Taxonomy.extant_taxa_for_rank rank_index taxonomy taxon).

(** Lines 128-144: the search below a given node. *)
Definition search_from (fmeasure_for_taxa : fmeasure_map) (rank_index : nat)
           (taxon : string) (taxon_parent_node : path) : fmeasure_map :=
  (foldl (visit rank_index taxon (total_taxa rank_index taxon))
         ((-1)%Q, fmeasure_for_taxa)
         (preorder_from t taxon_parent_node)).2.

(** Lines 97-144: the body of the loop over the taxa of a rank. *)
Definition process_taxon (rank_index : nat) (fmeasure_for_taxa : fmeasure_map)
           (taxon : string) : fmeasure_map :=
  match search_root fmeasure_for_taxa rank_index taxon with
  | Some taxon_parent_node =>
      search_from fmeasure_for_taxa rank_index taxon taxon_parent_node
  | None => fmeasure_for_taxa
  end.

Definition process_rank (fmeasure_for_taxa : fmeasure_map) (rank_index : nat)
  : fmeasure_map :=
  foldl (process_taxon rank_index) fmeasure_for_taxa
        (Taxonomy.named_lineages_at_rank taxonomy rank_index).

Definition _fmeasure : fmeasure_map :=
  foldl process_rank ∅ (seq 0 (length Taxonomy.rank_labels)).

End Fmeasure.

(** ** Node labels *)

(** Modelled from the spec: [parse_label] and [create_label] of
    [biolib.newick] are not part of the sources; they read and write the
    textual label of a node, made of a support value, the semicolon-joined
    taxon names and an auxiliary text.  The label of a node is kept as the
    record of these three fields. *)
Record label : Type := Label {
  label_support : option Q;
  label_taxon : option string;
  label_aux_info : option string
}.

Definition parse_label (l : label) : option Q * option string * option string :=
  (label_support l, label_taxon l, label_aux_info l).

Definition create_label (support : option Q) (taxon aux_info : option string) : label :=
  Label support taxon aux_info.

(** The [label] slots of the nodes; a node without entry has no label. *)
Abbreviation labels := (gmap path label).

Definition node_label (st : labels) (node : path) : label :=
  default (Label None None None) (st !! node).

(** Truthiness of an optional float: [None] and [0.0] are false. *)
Definition truthy_float (o : option Q) : bool :=
  match o with
  | Some q => negb (Qeq_bool q 0)
  | None => false
  end.

(** [list(fmeasure_for_taxa.keys())] *)
Definition keys (fmeasure_for_taxa : fmeasure_map) : list string :=
  (map_to_list fmeasure_for_taxa).*1.

(** A loop whose body may raise. *)
Fixpoint foldM {A B : Type} (f : A → B → result A) (a : A) (l : list B) : result A :=
  match l with
  | [] => Ok a
  | b :: l' => a' ← f a b; foldM f a' l'
  end.

(** ** [_strip_taxon_labels] *)

Definition strip_node (st : labels) (node : path) : labels :=
  let '(support, _taxon, _aux_info) := parse_label (node_label st node) in
  if truthy_float support then <[node := create_label support None None]> st
  else st.

Definition _strip_taxon_labels (t : tree) (st : labels) : labels :=
  foldl strip_node st (internal_nodes t).

(** ** [_assign_taxon_labels] *)

Definition assign_taxon (fmeasure_for_taxa : fmeasure_map)
           (st : gset string * labels) (taxon : string) : gset string * labels :=
  let '(placed_taxon, lab) := st in
  match fmeasure_for_taxa !! taxon with
  | Some [Cand node fmeasure precision recall] =>
      let '(support, taxon_label, aux_info) := parse_label (node_label lab node) in
      let taxon_label :=
        if PyStr.truthy taxon_label
        then String.append (default EmptyString taxon_label)
                           (String.append "; " taxon)
        else taxon in
      ({[taxon]} ∪ placed_taxon,
       <[node := create_label support (Some taxon_label) aux_info]> lab)
  | _ => st
  end.

Definition _assign_taxon_labels (fmeasure_for_taxa : fmeasure_map) (lab : labels)
  : gset string * labels :=
  foldl (assign_taxon fmeasure_for_taxa) (∅, lab)
        (Taxonomy.sort_taxa (keys fmeasure_for_taxa) false).

(** ** [_write_statistics_table] *)

(** The rows written to the table; [sys.exit()] after the error message is
    the result [Raise SystemExit]. *)
Definition statistics_row (fmeasure_for_taxa : fmeasure_map) (taxon : string)
  : result (string * Q * Q * Q) :=
  match fmeasure_for_taxa !! taxon with
  | Some [Cand node fmeasure precision recall] => Ok (taxon, fmeasure, precision, recall)
  | Some _ => Raise SystemExit
  | None => Raise KeyError
  end.

Definition _write_statistics_table (fmeasure_for_taxa : fmeasure_map)
  : result (list (string * Q * Q * Q)) :=
  mapM (statistics_row fmeasure_for_taxa)
       (Taxonomy.sort_taxa (keys fmeasure_for_taxa) false).

(** ** [_leaf_taxa] and [_write_taxonomy] *)

(** The nodes visited by [while parent: ... parent = parent.parent_node]:
    the node itself and then its ancestors up to the seed node. *)
Fixpoint parent_chain (fuel : nat) (node : path) : list path :=
  match fuel with
  | 0 => [node]
  | S n => match node with
           | [] => [node]
           | _ => node :: parent_chain n (removelast node)
           end
  end.

Definition ancestors_or_self (node : path) : list path :=
  parent_chain (length node) node.

(** Lines 232-236: the taxa found on one node, last one first. *)
Definition node_taxa_reversed (lab : labels) (parent : path) : list string :=
  let '(_support, taxon, _aux_info) := parse_label (node_label lab parent) in
  if PyStr.truthy taxon
  then map PyStr.strip (rev (PyStr.split ";" (default EmptyString taxon)))
  else [].

Definition _leaf_taxa (lab : labels) (leaf : path) : result (list string) :=
  let leaf_taxa := flat_map (node_taxa_reversed lab) (ancestors_or_self leaf) in
  let ordered_taxa := rev leaf_taxa in
  last_taxon ← last_elem ordered_taxa;
  let last_rank := PyStr.slice_to 3 last_taxon in
  i ← index_of last_rank Taxonomy.rank_prefixes;
  Ok (ordered_taxa ++ drop (i + 1) Taxonomy.rank_prefixes).

(** The lines written to the taxonomy file: leaf label and joined taxa. *)
Definition taxonomy_line (t : tree) (lab : labels) (leaf : path)
  : result (string * string) :=
  taxa ← _leaf_taxa lab leaf;
  Ok (from_option taxon_label EmptyString (subtree t leaf), PyStr.join "; " taxa).

Definition _write_taxonomy (t : tree) (lab : labels) : result (list (string * string)) :=
  mapM (taxonomy_line t lab) (leaf_node_iter t).

(** ** [_resolve_missing_taxa] *)

(** Lines 249-270.  The outer loop runs over a copy of the entries above
    the species ([taxa_list[0:6]]) while the list itself is updated in
    place, and the function returns the list it was given; the lists
    printed at line 268 are kept beside it.  The call of the function at
    line 286 is commented out in the source. *)

(** [s[n:]] *)
Definition slice_from (n : nat) (s : string) : string :=
  String.substring n (String.length s - n) s.

(** [l[k]] for an integer [k]; a negative index counts from the end. *)
Definition py_index {A : Type} (l : list A) (k : Z) : result A :=
  let i := if (k <? 0)%Z then (Z.of_nat (length l) + k)%Z else k in
  if (i <? 0)%Z then Raise IndexError
  else from_option Ok (Raise IndexError) (l !! Z.to_nat i).

(** [range(a, b)] *)
Definition range (a b : nat) : list nat := seq a (b - a).

(** [enumerate(l)] *)
Definition enumerate {A : Type} (l : list A) : list (nat * A) := imap pair l.

(** Lines 256-259: the first [r] of the range whose entry is not the bare
    prefix of its rank; [None] when the loop ends without [break]. *)
Fixpoint first_specified (taxa_list : list string) (rs : list nat) : result (option nat) :=
  match rs with
  | [] => Ok None
  | r :: rs' =>
      taxon ← py_index taxa_list (Z.of_nat r);
      rank_prefix ← py_index Taxonomy.rank_prefixes (Z.of_nat r);
      if negb (String.eqb taxon rank_prefix) then Ok (Some r)
      else first_specified taxa_list rs'
  end.

(** ['%s{unclassified %s}' % (prefix, name)] *)
Definition unclassified_label (rank_prefix name : string) : string :=
  String.append rank_prefix
                (String.append "{unclassified " (String.append name "}")).

(** Lines 264-268: one round of the filling loop; the state is the list
    and the lists printed so far. *)
Definition fill_rank (rank_index : nat) (st : list string * list (list string)) (i : nat)
  : result (list string * list (list string)) :=
  let '(taxa_list, printed) := st in
  rank_prefix ← py_index Taxonomy.rank_prefixes (Z.of_nat i);
  parent ← py_index taxa_list (Z.of_nat rank_index - 1);
  let taxon_label := unclassified_label rank_prefix (slice_from 3 parent) in
  if i <? length taxa_list then
    let taxa_list := <[i := taxon_label]> taxa_list in
    Ok (taxa_list, printed ++ [taxa_list])
  else Raise IndexError.

(** Lines 253-268: the body of the loop over the entries above the
    species. *)
Definition resolve_rank (st : list string * list (list string)) (entry : nat * string)
  : result (list string * list (list string)) :=
  let '(rank_index, taxon) := entry in
  rank_prefix ← py_index Taxonomy.rank_prefixes (Z.of_nat rank_index);
  if String.eqb taxon rank_prefix then
    species ← index_of "species" Taxonomy.rank_labels;
    found ← first_specified st.1 (range (rank_index + 1) (species + 1));
    match found with
    | Some r => foldM (fill_rank rank_index) st (range rank_index r)
    | None => Ok st
    end
  else Ok st.

(** Lines 252-270: the list returned and the lists printed. *)
Definition _resolve_missing_taxa (taxa_list : list string)
  : result (list string * list (list string)) :=
  species ← index_of "species" Taxonomy.rank_labels;
  foldM resolve_rank (taxa_list, []) (enumerate (take species taxa_list)).

(** ** [_resolve_ambiguous_placements] *)

Section Resolve.
(** [median_rank_rd : d[rank_index] -> float], the [rel_dist] attribute
    of the nodes and the tolerance [max_rd_diff]. *)
Variable median_rank_rd : gmap nat Q.
Variable rel_dist : path → Q.
Variable max_rd_diff : Q.

(** Lines 386-390: the rank of the last taxon of the label of a node,
    [-1] for a node without taxon. *)
Definition cur_rank_index (l : label) : result Z :=
  let '(_support, cur_taxon, _aux_info) := parse_label l in
  if PyStr.truthy cur_taxon then
    let cur_prefix :=
      PyStr.slice_to 3
        (PyStr.strip (List.last (PyStr.split ";" (default EmptyString cur_taxon))
                                EmptyString)) in
    i ← index_of cur_prefix Taxonomy.rank_prefixes;
    Ok (Z.of_nat i)
  else Ok (-1)%Z.

(** Lines 383-408: the loop over the candidates from position [i] on;
    [closest] holds [closest_index] and [closest_node], which the source
    sets together. *)
Fixpoint scan (lab : labels) (rank_index : nat) (rd : Q) (i : nat)
         (candidates : list cand) (closest : option (nat * path))
         (closest_dist : Q) : result (option (nat * path)) :=
  match candidates with
  | [] => Ok closest
  | d :: rest =>
      let cur_node := cand_node d in
      r ← cur_rank_index (node_label lab cur_node);
      if (Z.of_nat rank_index <? r)%Z then
        match closest with
        | None => Ok (Some (i, cur_node))
        | Some _ => Ok closest
        end
      else
        let rd_diff := Qabs (fl (rd - rel_dist cur_node)) in
        if Qlt_le_dec max_rd_diff rd_diff then
          scan lab rank_index rd (S i) rest closest closest_dist
        else if Qlt_le_dec rd_diff closest_dist then
          scan lab rank_index rd (S i) rest (Some (i, cur_node)) rd_diff
        else
          scan lab rank_index rd (S i) rest closest closest_dist
  end.

(** [closest_dist = 1e9] *)
Definition initial_closest_dist : Q := 1000000000.

(** Lines 380-415: the position and the node selected for a taxon. *)
Definition select (lab : labels) (rank_index : nat) (rd : Q)
           (candidates : list cand) : result (nat * path) :=
  closest ← scan lab rank_index rd 0 candidates None initial_closest_dist;
  match closest with
  | Some c => Ok c
  | None =>
      d ← last_elem candidates;
      Ok (length candidates - 1, cand_node d)
  end.

(** Lines 418-425: the label of the selected node after the commit. *)
Definition commit_label (l : label) (taxon : string) : label :=
  let '(support, cur_taxon, aux_info) := parse_label l in
  let taxa_str :=
    if negb (PyStr.truthy cur_taxon) then taxon
    else
      let taxa := map PyStr.strip (PyStr.split ";" (default EmptyString cur_taxon))
                  ++ [taxon] in
      PyStr.join "; " (Taxonomy.sort_taxa taxa false) in
  create_label support (Some taxa_str) aux_info.

(** Lines 370-428: the body of the loop over the taxa. *)
Definition resolve_taxon (st : fmeasure_map * labels) (taxon : string)
  : result (fmeasure_map * labels) :=
  let '(fmeasure_for_taxa, lab) := st in
  match fmeasure_for_taxa !! taxon with
  | None => Raise KeyError
  | Some candidates =>
      if length candidates =? 1 then Ok st
      else
        let rank_prefix := PyStr.slice_to 3 taxon in
        rank_index ← index_of rank_prefix Taxonomy.rank_prefixes;
        rd ← from_option Ok (Raise KeyError) (median_rank_rd !! rank_index);
        '(closest_index, closest_node) ← select lab rank_index rd candidates;
        let lab' :=
          <[closest_node := commit_label (node_label lab closest_node) taxon]> lab in
        d ← from_option Ok (Raise IndexError) (candidates !! closest_index);
        Ok (<[taxon := [d]]> fmeasure_for_taxa, lab')
  end.

Definition _resolve_ambiguous_placements (fmeasure_for_taxa : fmeasure_map)
           (lab : labels) : result (fmeasure_map * labels) :=
  foldM resolve_taxon (fmeasure_for_taxa, lab)
        (Taxonomy.sort_taxa (keys fmeasure_for_taxa) true).

End Resolve.

(** [max_rd_diff=0.1] *)
Definition default_max_rd_diff : Q := fl (1 # 10).

(** ** [run] *)

(** What [_median_rank_rd] hands to the resolver: the median relative
    divergence of each rank and the [rel_dist] attribute of each node.  They
    are computed outside the sources (module [outliers]) from the tree and
    the taxa placed so far. *)
Record rd_estimate : Type := RdEstimate {
  est_median_rank_rd : gmap nat Q;
  est_rel_dist : path → Q
}.

Abbreviation estimator :=
  (tree → labels → gset string → taxonomy_dict → rd_estimate).

(** Lines 321-347: the estimate of the module [outliers] for the taxa
    placed so far; the relative divergence of the seed node is set to 0. *)
Definition _median_rank_rd (outliers : estimator) (t : tree) (lab : labels)
           (placed_taxon : gset string) (taxonomy : taxonomy_dict) : rd_estimate :=
  let est := outliers t lab placed_taxon taxonomy in
  RdEstimate (est_median_rank_rd est)
             (λ n, match n with
                   | [] => 0%Q
                   | _ => est_rel_dist est n
                   end).

(** Lines 473-475: the taxonomy trimmed to the leaves of the tree. *)
Definition trim_taxonomy (t : tree) (full_taxonomy : gmap string (list string))
  : taxonomy_dict :=
  foldl (λ taxonomy leaf,
           dict_set leaf (default Taxonomy.rank_prefixes (full_taxonomy !! leaf)) taxonomy)
        [] (leaf_iter t).

(** Lines 503-507: without refinement every ambiguous taxon keeps its last
    candidate. *)
Definition keep_last (fmeasure_for_taxa : fmeasure_map) (taxon : string)
  : result fmeasure_map :=
  match fmeasure_for_taxa !! taxon with
  | None => Raise KeyError
  | Some fmeasures =>
      if length fmeasures =? 1 then Ok fmeasure_for_taxa
      else d ← last_elem fmeasures; Ok (<[taxon := [d]]> fmeasure_for_taxa)
  end.

Record output : Type := Output {
  out_labels : labels;
  out_fmeasure_for_taxa : fmeasure_map;
  out_table : list (string * Q * Q * Q);
  out_taxonomy : list (string * string)
}.

Definition run (t : tree) (input_labels : labels)
           (full_taxonomy : gmap string (list string))
           (outliers : estimator) (skip_rd_refine : bool) : result output :=
  let lab := _strip_taxon_labels t input_labels in
  let taxonomy := trim_taxonomy t full_taxonomy in
  let fmeasure_for_taxa := _fmeasure t taxonomy in
  let '(placed_taxon, lab) := _assign_taxon_labels fmeasure_for_taxa lab in
  '(fmeasure_for_taxa, lab) ←
    (if negb skip_rd_refine then
       let est := _median_rank_rd outliers t lab placed_taxon taxonomy in
       _resolve_ambiguous_placements (est_median_rank_rd est) (est_rel_dist est)
                                     default_max_rd_diff fmeasure_for_taxa lab
     else
       fmeasure_for_taxa ← foldM keep_last fmeasure_for_taxa (keys fmeasure_for_taxa);
       let lab := _strip_taxon_labels t lab in
       let '(_placed_taxon, lab) := _assign_taxon_labels fmeasure_for_taxa lab in
       Ok (fmeasure_for_taxa, lab));
  table ← _write_statistics_table fmeasure_for_taxa;
  lines ← _write_taxonomy t lab;
  Ok (Output lab fmeasure_for_taxa table lines).

(** ** Notions used to state the properties *)

(** The candidate that a node of the search region contributes, if it is
    scored. *)
Definition candidate_of (t : tree) (taxonomy : taxonomy_dict) (rank_index : nat)
           (taxon : string) (node : path) : option cand :=
  match node_score t taxonomy rank_index taxon (total_taxa taxonomy rank_index taxon) node with
  | Some (fmeasure, precision, recall) => Some (Cand node fmeasure precision recall)
  | None => None
  end.

(** The F-measure of the counts of a node in exact arithmetic. *)
Definition exact_fmeasure (taxa_in_lineage num_leaves_with_taxa total_taxa : nat) : Q :=
  let precision := (Qnat taxa_in_lineage / Qnat num_leaves_with_taxa)%Q in
  let recall := (Qnat taxa_in_lineage / Qnat total_taxa)%Q in
  (2 * precision * recall / (precision + recall))%Q.

(** The scored nodes of a list of nodes, in the order of the list. *)
Definition scored_candidates (t : tree) (taxonomy : taxonomy_dict) (rank_index : nat)
           (taxon : string) (nodes : list path) : list cand :=
  omap (candidate_of t taxonomy rank_index taxon) nodes.

(** A candidate whose F-measure no candidate of the list exceeds. *)
Definition achieves_maximum (cs : list cand) (c : cand) : bool :=
  forallb (λ c', Qle_bool (cand_fmeasure c') (cand_fmeasure c)) cs.

Definition maxima (cs : list cand) : list cand :=
  filter (λ c, achieves_maximum cs c = true) cs.

(** What the loop of lines 131-144 has established after a list of nodes:
    nothing is recorded before the first scored node; afterwards the entry
    of the taxon holds the maxima of the scored nodes seen, all at the
    current F-measure. *)
Definition search_invariant (t : tree) (taxonomy : taxonomy_dict) (rank_index : nat)
           (taxon : string) (m : fmeasure_map) (nodes : list path)
           (st : Q * fmeasure_map) : Prop :=
  match scored_candidates t taxonomy rank_index taxon nodes with
  | [] => st = ((-1)%Q, m)
  | _ :: _ =>
      let best := maxima (scored_candidates t taxonomy rank_index taxon nodes) in
      ∃ cur, st = (cur, <[taxon := best]> m)
             ∧ best ≠ []
             ∧ (∀ c, c ∈ best → (cand_fmeasure c == cur)%Q)
             ∧ (∀ c, c ∈ scored_candidates t taxonomy rank_index taxon nodes →
                     (cand_fmeasure c <= cur)%Q)
  end.

(** Every taxon of the candidate map has at least one candidate. *)
Definition nonempty_lists (m : fmeasure_map) : Prop :=
  ∀ taxon l, m !! taxon = Some l → l ≠ [].

(** Lines 119-122: the node kept after the test on half of the leaves of
    the taxon. *)
Definition after_escape (t : tree) (taxonomy : taxonomy_dict) (rank_index : nat)
           (taxon : string) (node : path) : path :=
  if decide (2 * taxa_count_at taxonomy t node rank_index taxon
             < taxa_in_tree taxonomy t taxon)
  then seed_node else node.

(** The taxa named by a semicolon-joined string, and by the label of a
    node. *)
Definition tokens_of (s : string) : list string :=
  map PyStr.strip (PyStr.split ";" s).

Definition label_tokens (l : label) : list string :=
  if PyStr.truthy (label_taxon l)
  then tokens_of (default EmptyString (label_taxon l))
  else [].

(** The taxon has exactly one candidate, on the given node. *)
Definition placed_on (fmeasure_for_taxa : fmeasure_map) (node : path)
           (taxon : string) : bool :=
  match fmeasure_for_taxa !! taxon with
  | Some [c] => bool_decide (cand_node c = node)
  | _ => false
  end.

(** The taxon starts with the prefix of a rank. *)
Definition has_rank_prefix (taxon : string) : bool :=
  existsb (PyStr.startswith taxon) Taxonomy.rank_prefixes.

(** The rank of a taxon: the position of the first rank prefix that the
    taxon starts with. *)
Fixpoint prefix_position (taxon : string) (prefixes : list string) : option nat :=
  match prefixes with
  | [] => None
  | p :: ps =>
      if PyStr.startswith taxon p then Some 0 else S <$> prefix_position taxon ps
  end.

Definition rank_of_taxon (taxon : string) : option nat :=
  prefix_position taxon Taxonomy.rank_prefixes.

(** The last of the taxa named by a label, if it names any. *)
Definition label_last_taxon (l : label) : option string := last (label_tokens l).

(** A label ends in a taxon of a rank strictly more specific than
    [rank_index]. *)
Definition label_more_specific (l : label) (rank_index : nat) : bool :=
  match label_last_taxon l with
  | Some taxon =>
      match rank_of_taxon taxon with
      | Some r => rank_index <? r
      | None => false
      end
  | None => false
  end.

(** The label of the node of a candidate ends in a taxon of a rank strictly
    more specific than [rank_index]. *)
Definition more_specific (lab : labels) (rank_index : nat) (d : cand) : bool :=
  label_more_specific (node_label lab (cand_node d)) rank_index.

(** The position of the first candidate with a more specific label, the
    length of the list when there is none. *)
Fixpoint stop_index (lab : labels) (rank_index : nat) (candidates : list cand) : nat :=
  match candidates with
  | [] => 0
  | d :: rest =>
      if more_specific lab rank_index d then 0
      else S (stop_index lab rank_index rest)
  end.

(** [abs(rd - cur_node.rel_dist)], the difference of two floats. *)
Definition rd_diff (rel_dist : path → Q) (rd : Q) (d : cand) : Q :=
  Qabs (fl (rd - rel_dist (cand_node d))).

(** The candidate at position [j] is reached by the scan and lies within
    the tolerance. *)
Definition eligible (rel_dist : path → Q) (max_rd_diff : Q) (lab : labels)
           (rank_index : nat) (rd : Q) (candidates : list cand)
           (j : nat) (d : cand) : Prop :=
  candidates !! j = Some d
  ∧ j < stop_index lab rank_index candidates
  ∧ (rd_diff rel_dist rd d <= max_rd_diff)%Q.

(** A label can be read: its last taxon, if it names any, starts with the
    prefix of a rank. *)
Definition label_readable (l : label) : Prop :=
  ∀ taxon, label_last_taxon l = Some taxon → has_rank_prefix taxon = true.

(** The labels of the nodes of the candidates can be read. *)
Definition labels_readable (lab : labels) (candidates : list cand) : Prop :=
  ∀ d, d ∈ candidates → label_readable (node_label lab (cand_node d)).

(** The candidates that the scan reads: those up to the first one with a
    more specific label, that one included. *)
Definition scanned (lab : labels) (rank_index : nat) (candidates : list cand)
  : list cand :=
  take (S (stop_index lab rank_index candidates)) candidates.

(** [below] is a strict descendant of [above]. *)
Definition strict_descendant (below above : path) : Prop :=
  above `prefix_of` below ∧ below ≠ above.

(** The order of the preorder traversal on paths: a node comes before its
    descendants and before the nodes below its later siblings. *)
Inductive path_lt : path → path → Prop :=
| path_lt_nil (i : nat) (q : path) : path_lt [] (i :: q)
| path_lt_head (i j : nat) (p q : path) : i < j → path_lt (i :: p) (j :: q)
| path_lt_tail (i : nat) (p q : path) : path_lt p q → path_lt (i :: p) (i :: q).

(** Hierarchical consistency of the labels of a tree: no node that holds a
    taxon is a strict descendant of a node that holds a taxon of a more
    specific rank of the same lineage, that is, a taxon that has the former
    among its parents. *)
Definition hierarchy_consistent (taxonomy : taxonomy_dict) (lab : labels) : Prop :=
  ∀ below above coarse fine,
    strict_descendant below above →
    coarse ∈ label_tokens (node_label lab below) →
    fine ∈ label_tokens (node_label lab above) →
    coarse ∈ Taxonomy.parents taxonomy !!! fine →
    False.

(** Notions on labels, paths and records of ranks. *)

(** Every entry of the candidate map belongs to a named taxon of some
    rank, and each of its candidates is the score of its node for the taxon
    at that rank; the candidates of a taxon share one F-measure. *)
Definition entries_are_scores (t : tree) (taxonomy : taxonomy_dict)
           (m : fmeasure_map) : Prop :=
  ∀ taxon l,
    m !! taxon = Some l →
    ∃ rank_index,
      rank_index < length Taxonomy.rank_labels
      ∧ taxon ∈ Taxonomy.named_lineages_at_rank taxonomy rank_index
      ∧ (∀ c, c ∈ l → candidate_of t taxonomy rank_index taxon (cand_node c) = Some c)
      ∧ (∀ c c', c ∈ l → c' ∈ l → (cand_fmeasure c == cand_fmeasure c')%Q).

(** The label that [_strip_taxon_labels] leaves on an internal node. *)
Definition stripped (l : label) : label :=
  if truthy_float (label_support l) then create_label (label_support l) None None else l.

(** The taxa written on the nodes from the seed node down to a node, in the
    order of the labels. *)
Definition path_tokens (lab : labels) (node : path) : list string :=
  flat_map (λ k, label_tokens (node_label lab (take k node))) (seq 0 (S (length node))).

(** The names that [_assign_taxon_labels] appends to the label of a node:
    the ranked taxa whose only candidate is the node, in rank-then-name
    order. *)
Definition placed_tokens (fmeasure_for_taxa : fmeasure_map) (node : path) : list string :=
  flat_map tokens_of
           (filter (λ taxon, placed_on fmeasure_for_taxa node taxon = true)
                   (Taxonomy.sort_taxa (keys fmeasure_for_taxa) false)).

(** The nodes whose label [_strip_taxon_labels] resets. *)
Definition is_stripped (t : tree) (lab : labels) (node : path) : bool :=
  is_internal_at t node && truthy_float (label_support (node_label lab node)).

(** Lines 503-507 applied to every key: the last candidate of each list. *)
Definition last_candidates (fmeasure_for_taxa : fmeasure_map) : fmeasure_map :=
  omap (λ l : list cand, d ← last l; Some [d]) fmeasure_for_taxa.

(** The entry of a rank is the bare prefix of the rank. *)
Definition missing_rank (taxa_list : list string) (k : nat) : bool :=
  match taxa_list !! k, Taxonomy.rank_prefixes !! k with
  | Some taxon, Some rank_prefix => String.eqb taxon rank_prefix
  | _, _ => false
  end.

(** A missing rank above a rank that is specified. *)
Definition gap (taxa_list : list string) (k : nat) : bool :=
  missing_rank taxa_list k
  && existsb (λ j, negb (missing_rank taxa_list j)) (range (k + 1) 7).

(** The entry has been written by the filling loop from the entry before
    it (for the domain, from the last entry of the list). *)
Definition filled_from_parent (taxa_list : list string) (k : nat) : Prop :=
  ∃ rank_prefix parent,
    Taxonomy.rank_prefixes !! k = Some rank_prefix
    ∧ py_index taxa_list (Z.of_nat k - 1) = Ok parent
    ∧ taxa_list !! k = Some (unclassified_label rank_prefix (slice_from 3 parent)).

(** The position read by [taxa_list[rank_index-1]] in a list of [len]
    entries. *)
Definition parent_index (n len : nat) : nat := if n =? 0 then len - 1 else n - 1.

(** What the loop of lines 252-268 has established before it reaches rank
    [n], for the list [orig] it started from: the length is kept, the
    entries that are not gaps are those of [orig], the gaps above [n] are
    filled, and nothing is printed as long as no gap was met. *)
Definition missing_inv (orig : list string) (n : nat) (cur : list string)
           (pr : list (list string)) : Prop :=
  length cur = length orig
  ∧ (∀ k, gap orig k = false → cur !! k = orig !! k)
  ∧ (∀ k, k < n → gap orig k = true → filled_from_parent cur k)
  ∧ ((∀ k, k < n → gap orig k = false) → pr = []).

(** The named taxa of the ranks above [n] have an entry in the candidate
    map. *)
Definition placed_below (taxonomy : taxonomy_dict) (n : nat) (m : fmeasure_map) : Prop :=
  ∀ k taxon, k < n → taxon ∈ Taxonomy.named_lineages_at_rank taxonomy k →
             is_Some (m !! taxon).

(** ** Example inputs *)

Module Examples.

Definition leaf (name : string) : tree := Node name [].

Definition record (domain phylum : string) : list string :=
  [domain; phylum; "c__"; "o__"; "f__"; "g__"; "s__"]%string.

(** The tree (((A,B),C),D) with A, B in D1/P1, C in D1/P2 and D in D2. *)
Definition tree4 : tree :=
  Node "" [Node "" [Node "" [leaf "A"; leaf "B"]; leaf "C"]; leaf "D"].

Definition taxonomy4 : gmap string (list string) :=
  list_to_map [("A", record "d__D1" "p__P1"); ("B", record "d__D1" "p__P1");
               ("C", record "d__D1" "p__P2"); ("D", record "d__D2" "p__")]%string.

(** The tree ((A,B),(C,D)) with A, B in domain X and C, D unclassified:
    the seed node and the node (A,B) tie for X. *)
Definition tree_tied : tree :=
  Node "" [Node "" [leaf "A"; leaf "B"]; Node "" [leaf "C"; leaf "D"]].

Definition taxonomy_tied : gmap string (list string) :=
  list_to_map [("A", record "d__X" "p__"); ("B", record "d__X" "p__")]%string.

Definition median_rank_rd_tied : gmap nat Q :=
  list_to_map [(0, fl (3 # 10)); (1, fl (4 # 10)); (2, fl (5 # 10));
               (3, fl (6 # 10)); (4, fl (7 # 10)); (5, fl (8 # 10));
               (6, fl (9 # 10))].

Definition rel_dist_tied (node : path) : Q :=
  match node with
  | [] => 0
  | [0] => 1 # 4
  | _ => 1
  end.

Definition fmeasure_tied : fmeasure_map :=
  _fmeasure tree_tied (trim_taxonomy tree_tied taxonomy_tied).

Definition candidates_tied : list cand :=
  [Cand [] 1 1 1; Cand [0] 1 1 1].

(** Labels with a phylum already committed on the node (A,B). *)
Definition labels_tied : labels :=
  {[ [0] := Label None (Some "p__P"%string) None ]}.

(** The estimate used with the examples. *)
Definition estimator_tied : estimator :=
  λ _ _ _ _, RdEstimate median_rank_rd_tied rel_dist_tied.

(** The tree ((a,b),(c,c2,y1,...,y5)): a, b, c, c2 in domain X, the others
    in domain Y; a, c, c2 in phylum P, the others without phylum. *)
Definition tree9 : tree :=
  Node "" [Node "" [leaf "a"; leaf "b"];
           Node "" [leaf "c"; leaf "c2"; leaf "y1"; leaf "y2"; leaf "y3";
                    leaf "y4"; leaf "y5"]].

Definition taxonomy9 : gmap string (list string) :=
  list_to_map [("a", record "d__X" "p__P"); ("b", record "d__X" "p__");
               ("c", record "d__X" "p__P"); ("c2", record "d__X" "p__P");
               ("y1", record "d__Y" "p__"); ("y2", record "d__Y" "p__");
               ("y3", record "d__Y" "p__"); ("y4", record "d__Y" "p__");
               ("y5", record "d__Y" "p__")]%string.

(** The tree (((x1,x2),x3,y1,y2),x4,y3,y4,y5) with the x in domain X and
    the y in domain Y. For X the node ((x1,x2),x3,y1,y2) has precision 3/5
    and recall 3/4, the node (x1,x2) precision 1 and recall 1/2: in exact
    arithmetic both F-measures are 2/3, the floats differ in the last
    bit. *)
Definition tree_rounding : tree :=
  Node "" [Node "" [Node "" [leaf "x1"; leaf "x2"]; leaf "x3"; leaf "y1"; leaf "y2"];
           leaf "x4"; leaf "y3"; leaf "y4"; leaf "y5"].

Definition taxonomy_rounding : gmap string (list string) :=
  list_to_map [("x1", record "d__X" "p__"); ("x2", record "d__X" "p__");
               ("x3", record "d__X" "p__"); ("x4", record "d__X" "p__");
               ("y1", record "d__Y" "p__"); ("y2", record "d__Y" "p__");
               ("y3", record "d__Y" "p__"); ("y4", record "d__Y" "p__");
               ("y5", record "d__Y" "p__")]%string.

(** The tree (((A,B),(C,D)),E) with A, B in domain X and phylum P, C, D
    unclassified and E in domain Y: the nodes ((A,B),(C,D)) and (A,B) tie
    for X, and their lowest common ancestor is not the seed node. *)
Definition tree_lca : tree :=
  Node "" [Node "" [Node "" [leaf "A"; leaf "B"]; Node "" [leaf "C"; leaf "D"]];
           leaf "E"].

Definition taxonomy_lca : gmap string (list string) :=
  list_to_map [("A", record "d__X" "p__P"); ("B", record "d__X" "p__P");
               ("E", record "d__Y" "p__")]%string.

Definition fmeasure_lca : fmeasure_map :=
  _fmeasure tree_lca (trim_taxonomy tree_lca taxonomy_lca).

(** Records for the tree ((A,B),(C,D)) whose phylum entry of A and B,
    [Foo], carries no rank prefix: with C and D unclassified at the rank
    of the phyla the seed node and the node (A,B) tie for [Foo]; with C in
    a phylum Q the node (A,B) is its one candidate. *)
Definition taxonomy_foo_tied : gmap string (list string) :=
  list_to_map [("A", record "d__D" "Foo"); ("B", record "d__D" "Foo");
               ("C", record "d__D" "p__"); ("D", record "d__D" "p__")]%string.

Definition taxonomy_foo_single : gmap string (list string) :=
  list_to_map [("A", record "d__D" "Foo"); ("B", record "d__D" "Foo");
               ("C", record "d__D" "p__Q"); ("D", record "d__D" "p__")]%string.

Definition fmeasure_foo_single : fmeasure_map :=
  _fmeasure tree_tied (trim_taxonomy tree_tied taxonomy_foo_single).

(** The tree (((A,B),E),(C,D)) with A, B in domain X and phylum P and the
    other leaves unclassified: the seed node, the node ((A,B),E) and the
    node (A,B) tie for X. *)
Definition tree_chain : tree :=
  Node "" [Node "" [Node "" [leaf "A"; leaf "B"]; leaf "E"];
           Node "" [leaf "C"; leaf "D"]].

Definition taxonomy_chain : gmap string (list string) :=
  list_to_map [("A", record "d__X" "p__P"); ("B", record "d__X" "p__P")]%string.

Definition fmeasure_chain : fmeasure_map :=
  _fmeasure tree_chain (trim_taxonomy tree_chain taxonomy_chain).

(** Labels with the phylum already committed on the node (A,B). *)
Definition labels_chain : labels :=
  {[ [0; 0] := Label None (Some "p__P"%string) None ]}.

(** The outputs of the examples, for the results that are [Ok]. *)
Definition output_of (r : result output) : output :=
  match r with
  | Ok o => o
  | Raise _ => Output ∅ ∅ [] []
  end.

Definition first_run4 : output := output_of (run tree4 ∅ taxonomy4 estimator_tied false).

Definition second_run4 : output :=
  output_of (run tree4 (out_labels first_run4) taxonomy4 estimator_tied false).

Definition run9 : output := output_of (run tree9 ∅ taxonomy9 estimator_tied false).

(** An estimate that puts the expected divergence of the domains at the
    seed node. *)
Definition estimator_seed : estimator :=
  λ _ _ _ _, RdEstimate (<[0 := 0%Q]> median_rank_rd_tied) rel_dist_tied.

Definition run_tied : output :=
  output_of (run tree_tied ∅ taxonomy_tied estimator_seed false).

Definition run_foo_tied : output :=
  output_of (run tree_tied ∅ taxonomy_foo_tied estimator_tied false).

End Examples.

(** Further example inputs. *)
Module ExamplesResolve.
Import Examples.

(** The result of the resolver on the tied example. *)
Definition resolved_tied : fmeasure_map * labels :=
  match _resolve_ambiguous_placements median_rank_rd_tied rel_dist_tied default_max_rd_diff
          fmeasure_tied labels_tied with
  | Ok st => st
  | Raise _ => (∅, ∅)
  end.

Definition fmeasure4 : fmeasure_map := _fmeasure tree4 (trim_taxonomy tree4 taxonomy4).

End ExamplesResolve.

Module ExamplesRun.
Import Examples.

(** The run on the tree (((A,B),C),D) without refinement. *)
Definition run4_skip : output := output_of (run tree4 ∅ taxonomy4 estimator_tied true).

(** Input labels with a support value, an old taxon and auxiliary texts. *)
Definition labels_supported : labels :=
  {[ [0] := Label (Some (fl (9 # 10))) (Some "d__Old"%string) (Some "x"%string);
     [0; 0] := Label None None (Some "y"%string) ]}.

Definition run4_supported : output :=
  output_of (run tree4 labels_supported taxonomy4 estimator_tied false).

(** A record with gaps above the order and above the species. *)
Definition record_with_gaps : list string :=
  ["d__"; "p__"; "c__"; "o__X"; "f__"; "g__"; "s__Y z"]%string.

(** Labels on the path to the leaf [0; 1]. *)
Definition labels_path : labels :=
  {[ [] := Label None (Some "d__X"%string) None;
     [0] := Label None (Some "p__P; c__C"%string) None ]}.

(** The same taxa set off by other whitespace: a unit separator (31)
    after the semicolon, a no-break space (160) before the class and a
    next-line control (133) after it. *)
Definition labels_spaced : labels :=
  {[ [] := Label None (Some "d__X"%string) None;
     [0] := Label None
              (Some (String.append "p__P;"
                       (String (ascii_of_nat 31)
                          (String (ascii_of_nat 160)
                             (String.append "c__C"
                                (String (ascii_of_nat 133) EmptyString))))))
              None ]}.

End ExamplesRun.

(** * Properties *)

(** A decidable statement about concrete data, settled by evaluation. *)
Ltac by_compute := apply (bool_decide_unpack _); vm_compute; exact I.

(** ** Rounding to the nearest float *)

Module PyFloatFacts.
Import PyFloat.
Local Open Scope Q_scope.

Lemma pow2_pos z : 0 < pow2 z.
Proof. apply Qpower_0_lt. reflexivity. Qed.

Lemma pow2_add a b : pow2 (a + b) == pow2 a * pow2 b.
Proof. apply Qpower_plus. discriminate. Qed.

Lemma pow2_succ a : pow2 (a + 1) == 2 * pow2 a.
Proof. rewrite pow2_add. change (pow2 1) with 2. ring. Qed.

Lemma pow2_le a b : (a <= b)%Z → pow2 a <= pow2 b.
Proof. intros H. apply Qpower_le_compat_l; [exact H | discriminate]. Qed.

Lemma pow2_lt a b : (a < b)%Z → pow2 a < pow2 b.
Proof. intros H. apply Qpower_lt_compat_l; [exact H | reflexivity]. Qed.

Lemma pow2_lt_inv a b : pow2 a < pow2 b → (a < b)%Z.
Proof. intros H. apply (Qpower_lt_compat_l_inv 2); [exact H | reflexivity]. Qed.

Lemma pow2_Z n : (0 <= n)%Z → inject_Z (2 ^ n) == pow2 n.
Proof. intros H. apply (Zpower_Qpower 2 n H). Qed.

Lemma pos_num (q : Q) : 0 < q ↔ (0 < Qnum q)%Z.
Proof. destruct q as [n d]. unfold Qlt. simpl. lia. Qed.

Lemma ilog2_spec q : 0 < q → pow2 (ilog2 q) <= q ∧ q < pow2 (ilog2 q + 1).
Proof.
  intros Hq. pose proof (proj1 (pos_num q) Hq) as Hn.
  destruct q as [n d]. simpl in Hn.
  unfold ilog2. cbn [Qnum Qden].
  set (ln := Z.log2 n). set (ld := Z.log2 (Z.pos d)).
  pose proof (Z.log2_nonneg n) as Hln0. fold ln in Hln0.
  pose proof (Z.log2_nonneg (Z.pos d)) as Hld0. fold ld in Hld0.
  destruct (Z.log2_spec n Hn) as [Hn1 Hn2]. fold ln in Hn1, Hn2.
  destruct (Z.log2_spec (Z.pos d) eq_refl) as [Hd1 Hd2]. fold ld in Hd1, Hd2.
  rewrite Zle_Qle, pow2_Z in Hn1, Hd1 by lia.
  rewrite Zlt_Qlt, pow2_Z in Hn2, Hd2 by lia.
  replace (Z.succ ln) with (ln + 1)%Z in Hn2 by lia.
  replace (Z.succ ld) with (ld + 1)%Z in Hd2 by lia.
  assert (HD : 0 < inject_Z (Z.pos d)) by reflexivity.
  assert (Hq' : n # d == inject_Z n / inject_Z (Z.pos d)) by apply Qmake_Qdiv.
  assert (Hup : n # d < pow2 (ln - ld + 1)).
  { rewrite Hq'. apply Qlt_shift_div_r; [exact HD|].
    assert (E : pow2 (ln + 1) == pow2 (ln - ld + 1) * pow2 ld).
    { rewrite <- pow2_add. replace (ln - ld + 1 + ld)%Z with (ln + 1)%Z by lia. reflexivity. }
    pose proof (pow2_pos (ln - ld + 1)). nra. }
  assert (Hlo : pow2 (ln - ld - 1) <= n # d).
  { rewrite Hq'. apply Qle_shift_div_l; [exact HD|].
    assert (E : pow2 ln == pow2 (ln - ld - 1) * pow2 (ld + 1)).
    { rewrite <- pow2_add. replace (ln - ld - 1 + (ld + 1))%Z with ln by lia. reflexivity. }
    pose proof (pow2_pos (ln - ld - 1)). nra. }
  destruct (Qle_bool (pow2 (ln - ld)) (n # d)) eqn:Hb.
  - apply Qle_bool_iff in Hb. split; [exact Hb | exact Hup].
  - split; [exact Hlo|]. replace (ln - ld - 1 + 1)%Z with (ln - ld)%Z by lia.
    apply Qnot_le_lt. intros Hc. apply Qle_bool_iff in Hc. congruence.
Qed.

Lemma ilog2_unique q e : 0 < q → pow2 e <= q → q < pow2 (e + 1) → ilog2 q = e.
Proof.
  intros Hq H1 H2. destruct (ilog2_spec q Hq) as [H3 H4].
  assert (pow2 (ilog2 q) < pow2 (e + 1)) by (eapply Qle_lt_trans; eauto).
  assert (pow2 e < pow2 (ilog2 q + 1)) by (eapply Qle_lt_trans; eauto).
  pose proof (pow2_lt_inv _ _ H). pose proof (pow2_lt_inv _ _ H0). lia.
Qed.

Lemma ilog2_mono a b : 0 < a → a <= b → (ilog2 a <= ilog2 b)%Z.
Proof.
  intros Ha Hab. assert (Hb : 0 < b) by (eapply Qlt_le_trans; eauto).
  destruct (ilog2_spec a Ha) as [H1 _]. destruct (ilog2_spec b Hb) as [_ H2].
  assert (pow2 (ilog2 a) < pow2 (ilog2 b + 1)).
  { eapply Qle_lt_trans; [exact H1|]. eapply Qle_lt_trans; eauto. }
  pose proof (pow2_lt_inv _ _ H). lia.
Qed.

Lemma ilog2_proper a b : 0 < a → a == b → ilog2 a = ilog2 b.
Proof.
  intros Ha Hab. destruct (ilog2_spec a Ha) as [H1 H2].
  symmetry. apply ilog2_unique; rewrite <- ?Hab; assumption.
Qed.

Lemma round_half_even_proper x y : x == y → round_half_even x = round_half_even y.
Proof.
  intros H. unfold round_half_even.
  rewrite (Qfloor_comp x y H).
  rewrite (Qcompare_comp (x - inject_Z (Qfloor y)) (y - inject_Z (Qfloor y))
             ltac:(rewrite H; reflexivity) (1 # 2) (1 # 2) ltac:(reflexivity)).
  reflexivity.
Qed.

Lemma round_half_even_bounds x :
  (Qfloor x <= round_half_even x <= Qfloor x + 1)%Z.
Proof.
  unfold round_half_even.
  destruct (Qcompare _ _); [destruct (Z.even _)| |]; lia.
Qed.

Lemma round_half_even_Z z : round_half_even (inject_Z z) = z.
Proof.
  unfold round_half_even. rewrite Qfloor_Z.
  assert (E : inject_Z z - inject_Z z == 0) by ring. rewrite E. reflexivity.
Qed.

Lemma round_half_even_mono x y : x <= y → (round_half_even x <= round_half_even y)%Z.
Proof.
  intros Hxy. pose proof (Qfloor_resp_le _ _ Hxy) as Hf.
  pose proof (round_half_even_bounds x) as Hx.
  pose proof (round_half_even_bounds y) as Hy.
  destruct (Z.eq_dec (Qfloor x) (Qfloor y)) as [E|NE]; [|lia].
  unfold round_half_even in *. rewrite <- E in *.
  destruct (Qcompare_spec (x - inject_Z (Qfloor x)) (1 # 2)) as [Hc|Hc|Hc];
    destruct (Qcompare_spec (y - inject_Z (Qfloor x)) (1 # 2)) as [Hd|Hd|Hd];
    try destruct (Z.even (Qfloor x)); try lia; exfalso; lra.
Qed.

Lemma round_pos_eq q :
  round_pos q == inject_Z (round_half_even (q / pow2 (ilog2 q - 52))) * pow2 (ilog2 q - 52).
Proof. unfold round_pos. apply Qred_correct. Qed.

Lemma scaled_bounds q :
  0 < q → pow2 52 <= q / pow2 (ilog2 q - 52) ∧ q / pow2 (ilog2 q - 52) < pow2 53.
Proof.
  intros Hq. destruct (ilog2_spec q Hq) as [H1 H2].
  pose proof (pow2_pos (ilog2 q - 52)) as Hs.
  assert (E1 : pow2 (ilog2 q) == pow2 52 * pow2 (ilog2 q - 52)).
  { rewrite <- pow2_add. replace (52 + (ilog2 q - 52))%Z with (ilog2 q) by lia. reflexivity. }
  assert (E2 : pow2 (ilog2 q + 1) == pow2 53 * pow2 (ilog2 q - 52)).
  { rewrite <- pow2_add. replace (53 + (ilog2 q - 52))%Z with (ilog2 q + 1)%Z by lia. reflexivity. }
  split.
  - apply Qle_shift_div_l; [exact Hs|]. rewrite <- E1. exact H1.
  - apply Qlt_shift_div_r; [exact Hs|]. rewrite <- E2. exact H2.
Qed.

Lemma mantissa_bounds q :
  0 < q →
  (2 ^ 52 <= round_half_even (q / pow2 (ilog2 q - 52)) <= 2 ^ 53)%Z.
Proof.
  intros Hq. destruct (scaled_bounds q Hq) as [H1 H2].
  split.
  - rewrite <- (round_half_even_Z (2 ^ 52)). apply round_half_even_mono.
    rewrite pow2_Z by lia. exact H1.
  - rewrite <- (round_half_even_Z (2 ^ 53)). apply round_half_even_mono.
    rewrite pow2_Z by lia. apply Qlt_le_weak. exact H2.
Qed.

Lemma round_pos_bounds q :
  0 < q → pow2 (ilog2 q) <= round_pos q ∧ round_pos q <= pow2 (ilog2 q + 1).
Proof.
  intros Hq. rewrite round_pos_eq.
  destruct (mantissa_bounds q Hq) as [H1 H2].
  rewrite Zle_Qle, pow2_Z in H1, H2 by lia.
  pose proof (pow2_pos (ilog2 q - 52)) as Hs.
  assert (E1 : pow2 (ilog2 q) == pow2 52 * pow2 (ilog2 q - 52)).
  { rewrite <- pow2_add. replace (52 + (ilog2 q - 52))%Z with (ilog2 q) by lia. reflexivity. }
  assert (E2 : pow2 (ilog2 q + 1) == pow2 53 * pow2 (ilog2 q - 52)).
  { rewrite <- pow2_add. replace (53 + (ilog2 q - 52))%Z with (ilog2 q + 1)%Z by lia. reflexivity. }
  rewrite E1, E2. split; apply Qmult_le_r; assumption.
Qed.

Lemma round_pos_pos q : 0 < q → 0 < round_pos q.
Proof.
  intros Hq. destruct (round_pos_bounds q Hq) as [H _].
  eapply Qlt_le_trans; [apply (pow2_pos (ilog2 q)) | exact H].
Qed.

Lemma round_pos_mono a b : 0 < a → a <= b → round_pos a <= round_pos b.
Proof.
  intros Ha Hab. assert (Hb : 0 < b) by (eapply Qlt_le_trans; eauto).
  pose proof (ilog2_mono a b Ha Hab) as He.
  destruct (Z.eq_dec (ilog2 a) (ilog2 b)) as [E|NE].
  - rewrite !round_pos_eq, E.
    pose proof (pow2_pos (ilog2 b - 52)) as Hs.
    apply Qmult_le_r; [exact Hs|]. rewrite <- Zle_Qle.
    apply round_half_even_mono.
    apply Qle_shift_div_l; [exact Hs|].
    assert (E' : a / pow2 (ilog2 b - 52) * pow2 (ilog2 b - 52) == a).
    { field. intros Hc. rewrite Hc in Hs. discriminate. }
    rewrite E'. exact Hab.
  - destruct (round_pos_bounds a Ha) as [_ H1].
    destruct (round_pos_bounds b Hb) as [H2 _].
    eapply Qle_trans; [exact H1|]. eapply Qle_trans; [|exact H2].
    apply pow2_le. lia.
Qed.

Lemma round_pos_proper a b : 0 < a → a == b → round_pos a = round_pos b.
Proof.
  intros Ha Hab. unfold round_pos. rewrite (ilog2_proper a b Ha Hab).
  apply Qred_complete.
  rewrite (round_half_even_proper (a / pow2 (ilog2 b - 52)) (b / pow2 (ilog2 b - 52)))
    by (rewrite Hab; reflexivity).
  reflexivity.
Qed.

Lemma fl_pos_eq q : 0 < q → fl q = round_pos q.
Proof.
  intros Hq. apply pos_num in Hq. unfold fl.
  destruct (Qnum q); try lia. reflexivity.
Qed.

Lemma fl_zero_eq q : q == 0 → fl q = 0.
Proof.
  intros Hq. unfold fl. destruct q as [[|n|n] d]; try discriminate. reflexivity.
Qed.

Lemma fl_neg_eq q : q < 0 → fl q = - round_pos (- q).
Proof.
  intros Hq. unfold fl. destruct q as [[|n|n] d]; try discriminate. reflexivity.
Qed.

Lemma fl_proper a b : a == b → fl a = fl b.
Proof.
  intros Hab. destruct (Q_dec a 0) as [[Hn|Hp]|Hz].
  - rewrite (fl_neg_eq a Hn), (fl_neg_eq b) by (rewrite <- Hab; exact Hn).
    f_equal. apply round_pos_proper; [lra | rewrite Hab; reflexivity].
  - rewrite (fl_pos_eq a Hp), (fl_pos_eq b) by (rewrite <- Hab; exact Hp).
    apply round_pos_proper; assumption.
  - rewrite (fl_zero_eq a Hz), (fl_zero_eq b) by (rewrite <- Hab; exact Hz).
    reflexivity.
Qed.

#[export] Instance fl_Proper : Proper (Qeq ==> Qeq) fl.
Proof. intros a b Hab. rewrite (fl_proper a b Hab). reflexivity. Qed.

Lemma fl_pos q : 0 < q → 0 < fl q.
Proof. intros Hq. rewrite (fl_pos_eq q Hq). apply round_pos_pos, Hq. Qed.

Lemma fl_neg q : q < 0 → fl q < 0.
Proof.
  intros Hq. rewrite (fl_neg_eq q Hq).
  assert (0 < round_pos (- q)) by (apply round_pos_pos; lra). lra.
Qed.

Lemma fl_opp q : fl (- q) == - fl q.
Proof.
  destruct (Q_dec q 0) as [[Hn|Hp]|Hz].
  - rewrite (fl_neg_eq q Hn), (fl_pos_eq (- q)) by lra. ring.
  - rewrite (fl_pos_eq q Hp), (fl_neg_eq (- q)) by lra.
    rewrite (round_pos_proper (- - q) q); [reflexivity | lra | ring].
  - rewrite (fl_zero_eq q Hz), (fl_zero_eq (- q)) by lra. reflexivity.
Qed.

Lemma fl_mono a b : a <= b → fl a <= fl b.
Proof.
  intros Hab.
  destruct (Q_dec a 0) as [[Ha|Ha]|Ha]; destruct (Q_dec b 0) as [[Hb|Hb]|Hb];
    try (exfalso; lra).
  - rewrite (fl_neg_eq a Ha), (fl_neg_eq b Hb).
    assert (round_pos (- b) <= round_pos (- a)) by (apply round_pos_mono; lra). lra.
  - pose proof (fl_neg a Ha). pose proof (fl_pos b Hb). lra.
  - pose proof (fl_neg a Ha). rewrite (fl_zero_eq b Hb). lra.
  - rewrite (fl_pos_eq a Ha), (fl_pos_eq b Hb). apply round_pos_mono; assumption.
  - rewrite (fl_zero_eq a Ha). pose proof (fl_pos b Hb). lra.
  - rewrite (fl_zero_eq a Ha), (fl_zero_eq b Hb). lra.
Qed.

Lemma fl_nonneg q : 0 <= q → 0 <= fl q.
Proof. intros H. change (fl 0 <= fl q). apply fl_mono, H. Qed.

Lemma fl_le_1 q : q <= 1 → fl q <= 1.
Proof. intros H. change (fl q <= fl 1). apply fl_mono, H. Qed.

(** A positive float is [m * 2 ** e] for an integer [m] of at most 53
    bits. *)
Lemma round_pos_exact m e :
  (0 < m < 2 ^ 53)%Z → round_pos (inject_Z m * pow2 e) == inject_Z m * pow2 e.
Proof.
  intros Hm. set (q := inject_Z m * pow2 e).
  assert (Hm0 : 0 < inject_Z m) by (rewrite Zlt_Qlt in Hm; apply Hm).
  assert (Hm1 : inject_Z m < pow2 53).
  { rewrite <- pow2_Z by lia. rewrite <- Zlt_Qlt. apply Hm. }
  pose proof (pow2_pos e) as He.
  assert (Hq : 0 < q) by (unfold q; nra).
  destruct (ilog2_spec q Hq) as [H1 _].
  assert (Hl : (ilog2 q < 53 + e)%Z).
  { apply pow2_lt_inv. eapply Qle_lt_trans; [exact H1|].
    rewrite pow2_add. unfold q. apply Qmult_lt_r; assumption. }
  rewrite round_pos_eq.
  set (s := (ilog2 q - 52)%Z).
  pose proof (pow2_pos s) as Hs.
  assert (Ey : q / pow2 s == inject_Z (m * 2 ^ (e - s))).
  { rewrite inject_Z_mult, pow2_Z by (unfold s; lia).
    assert (E : pow2 e == pow2 (e - s) * pow2 s).
    { rewrite <- pow2_add. replace (e - s + s)%Z with e by lia. reflexivity. }
    unfold q. rewrite E. field. intros Hc. rewrite Hc in Hs. discriminate. }
  rewrite (round_half_even_proper _ _ Ey), round_half_even_Z, <- Ey.
  field. intros Hc. rewrite Hc in Hs. discriminate.
Qed.

Lemma round_pos_representable q : 0 < q → representable (round_pos q).
Proof.
  intros Hq. destruct (mantissa_bounds q Hq) as [H1 H2].
  set (m := round_half_even (q / pow2 (ilog2 q - 52))) in *.
  destruct (Z.eq_dec m (2 ^ 53)%Z) as [E|NE].
  - exists (2 ^ 52)%Z, (ilog2 q - 52 + 1)%Z. split; [lia|].
    rewrite round_pos_eq. fold m. rewrite E, pow2_succ.
    change (inject_Z (2 ^ 53)) with (inject_Z (2 * 2 ^ 52)). rewrite inject_Z_mult. ring.
  - exists m, (ilog2 q - 52)%Z. split; [lia|]. apply round_pos_eq.
Qed.

Lemma representable_double x : representable x → representable (2 * x).
Proof.
  intros (m & e & Hm & Hx). exists m, (e + 1)%Z. split; [exact Hm|].
  rewrite Hx, pow2_succ. ring.
Qed.

Lemma representable_pos x : representable x → 0 < x.
Proof.
  intros (m & e & Hm & Hx). rewrite Hx.
  assert (0 < inject_Z m) by (rewrite Zlt_Qlt in Hm; apply Hm).
  pose proof (pow2_pos e). nra.
Qed.

Lemma fl_exact x : representable x → fl x == x.
Proof.
  intros Hr. pose proof (representable_pos x Hr) as Hx.
  destruct Hr as (m & e & Hm & Hr).
  rewrite (fl_pos_eq x Hx), (round_pos_proper x _ Hx Hr), Hr.
  apply round_pos_exact, Hm.
Qed.

(** Rounding a float gives the float back. *)
Lemma fl_idem q : fl (fl q) == fl q.
Proof.
  destruct (Q_dec q 0) as [[Hn|Hp]|Hz].
  - rewrite (fl_neg_eq q Hn), fl_opp.
    rewrite (fl_exact (round_pos (- q))); [reflexivity|].
    apply round_pos_representable. lra.
  - rewrite (fl_pos_eq q Hp). apply fl_exact, round_pos_representable, Hp.
  - rewrite (fl_zero_eq q Hz). reflexivity.
Qed.

(** Doubling a float is exact. *)
Lemma fl_double q : fl (2 * fl q) == 2 * fl q.
Proof.
  destruct (Q_dec q 0) as [[Hn|Hp]|Hz].
  - rewrite (fl_neg_eq q Hn).
    rewrite (fl_proper (2 * - round_pos (- q)) (- (2 * round_pos (- q)))) by ring.
    rewrite fl_opp, fl_exact; [ring|].
    apply representable_double, round_pos_representable. lra.
  - rewrite (fl_pos_eq q Hp).
    apply fl_exact, representable_double, round_pos_representable, Hp.
  - rewrite (fl_zero_eq q Hz). reflexivity.
Qed.

Lemma round_half_even_near y :
  y - (1 # 2) <= inject_Z (round_half_even y) ∧ inject_Z (round_half_even y) <= y + (1 # 2).
Proof.
  unfold round_half_even.
  pose proof (Qfloor_le y) as H1. pose proof (Qlt_floor y) as H2.
  rewrite inject_Z_plus in H2. change (inject_Z 1) with 1 in H2.
  destruct (Qcompare_spec (y - inject_Z (Qfloor y)) (1 # 2)) as [Hc|Hc|Hc];
    [destruct (Z.even (Qfloor y))| |];
    rewrite ?inject_Z_plus; change (inject_Z 1) with 1; split; lra.
Qed.

Lemma round_pos_error q :
  0 < q → q * (1 - eps) <= round_pos q ∧ round_pos q <= q * (1 + eps).
Proof.
  intros Hq. rewrite round_pos_eq.
  destruct (scaled_bounds q Hq) as [Hy _].
  pose proof (pow2_pos (ilog2 q - 52)) as Hs.
  set (s := (ilog2 q - 52)%Z) in *. set (y := q / pow2 s) in *.
  destruct (round_half_even_near y) as [Hlo Hhi].
  assert (E52 : pow2 52 == 4503599627370496) by reflexivity.
  assert (Eeps : eps == 1 # 9007199254740992) by reflexivity.
  assert (Eq : q == y * pow2 s).
  { unfold y. field. intros Hc. rewrite Hc in Hs. discriminate. }
  rewrite Eq, Eeps. rewrite E52 in Hy.
  split.
  - rewrite <- Qmult_assoc, (Qmult_comm (pow2 s)), Qmult_assoc.
    apply Qmult_le_r; [exact Hs|]. lra.
  - rewrite <- Qmult_assoc, (Qmult_comm (pow2 s)), Qmult_assoc.
    apply Qmult_le_r; [exact Hs|]. lra.
Qed.

Lemma fl_error q : 0 < q → q * (1 - eps) <= fl q ∧ fl q <= q * (1 + eps).
Proof. intros Hq. rewrite (fl_pos_eq q Hq). apply round_pos_error, Hq. Qed.

(** A float of the unit interval lies well below 1 or is one of the nine
    floats from [1 - 8 * eps] to 1. *)
Lemma fl_near_one x :
  0 < x → x <= 1 →
  fl x <= 1 - 8 * eps ∨ ∃ i : Z, (0 <= i <= 8)%Z ∧ fl x == 1 - inject_Z i * eps.
Proof.
  intros Hx Hx1.
  assert (Eeps : eps == 1 # 9007199254740992) by reflexivity.
  destruct (Qlt_le_dec (1 - 8 * eps) x) as [Hbig|Hsmall].
  - right. destruct (Qlt_le_dec x 1) as [Hlt|Hge].
    + assert (Hl : ilog2 x = (-1)%Z).
      { apply ilog2_unique; [exact Hx | |exact Hlt].
        change (pow2 (-1)) with (1 # 2). rewrite Eeps in Hbig. lra. }
      assert (E : fl x == inject_Z (round_half_even (x / eps)) * eps).
      { rewrite (fl_pos_eq x Hx), round_pos_eq, Hl. reflexivity. }
      set (n := round_half_even (x / eps)) in *.
      assert (Hn : (2 ^ 53 - 8 <= n <= 2 ^ 53)%Z).
      { split.
        - rewrite <- (round_half_even_Z (2 ^ 53 - 8)). apply round_half_even_mono.
          apply Qle_shift_div_l; [reflexivity|].
          change (inject_Z (2 ^ 53 - 8)) with 9007199254740984.
          rewrite Eeps in *. lra.
        - rewrite <- (round_half_even_Z (2 ^ 53)). apply round_half_even_mono.
          apply Qle_shift_div_r; [reflexivity|].
          change (inject_Z (2 ^ 53)) with 9007199254740992.
          rewrite Eeps. lra. }
      exists (2 ^ 53 - n)%Z. split; [lia|].
      rewrite E. unfold Z.sub. rewrite inject_Z_plus, inject_Z_opp.
      change (inject_Z (2 ^ 53)) with 9007199254740992.
      rewrite Eeps. field.
    + exists 0%Z. split; [lia|].
      assert (E : x == 1) by (apply Qle_antisym; assumption).
      rewrite (fl_proper x 1 E). reflexivity.
  - left. apply fl_mono in Hsmall.
    eapply Qle_trans; [exact Hsmall|]. vm_compute. discriminate.
Qed.

(** The F-measure of two floats of the unit interval, as line 138
    computes it. *)
Lemma fmeasure_below_one p r :
  0 < p → p <= 1 - 8 * eps → 0 < r → r <= 1 →
  fl (fl (2 * p * r) / fl (p + r)) < 1.
Proof.
  intros Hp Hp8 Hr Hr1.
  assert (Eeps : eps == 1 # 9007199254740992) by reflexivity.
  assert (Hm : 0 < 2 * p * r) by nra.
  assert (Hs : 0 < p + r) by lra.
  destruct (fl_error _ Hm) as [_ HN]. destruct (fl_error _ Hs) as [HD _].
  pose proof (fl_pos _ Hs) as HD0.
  set (N := fl (2 * p * r)) in *. set (D := fl (p + r)) in *.
  assert (Hq : N / D <= 1 - eps).
  { apply Qle_shift_div_r; [exact HD0|].
    assert (Hg : 2 * p * r * (1 + eps) <= (1 - eps) * ((p + r) * (1 - eps))).
    { rewrite Eeps in *.
      assert (H1 : 0 <= (1 - r) * p) by (apply Qmult_le_0_compat; lra).
      assert (H2 : 0 <= r * (1 - 8 * (1 # 9007199254740992) - p))
        by (apply Qmult_le_0_compat; lra).
      lra. }
    assert (H3 : (1 - eps) * ((p + r) * (1 - eps)) <= (1 - eps) * D).
    { apply Qmult_le_l; [rewrite Eeps; reflexivity | exact HD]. }
    lra. }
  apply fl_mono in Hq. eapply Qle_lt_trans; [exact Hq|]. vm_compute. reflexivity.
Qed.

Lemma near_one_table (i j : Z) :
  (0 <= i <= 8)%Z → (0 <= j <= 8)%Z →
  1 <= fl (fl (2 * near_one i * near_one j) / fl (near_one i + near_one j)) →
  i = 0%Z ∧ j = 0%Z.
Proof.
  intros Hi Hj H.
  assert (Hall : forallb (λ i, forallb (λ j,
            ((i =? 0)%Z && (j =? 0)%Z)
            || negb (Qle_bool 1 (fl (fl (2 * near_one i * near_one j)
                                     / fl (near_one i + near_one j)))))
                        (seqZ 0 9)) (seqZ 0 9) = true)
    by (vm_compute; reflexivity).
  rewrite forallb_forall in Hall.
  specialize (Hall i). rewrite forallb_forall in Hall.
  assert (Hin : ∀ k, (0 <= k <= 8)%Z → In k (seqZ 0 9)).
  { intros k Hk. apply list_elem_of_In, elem_of_seqZ. lia. }
  specialize (Hall (Hin i Hi) j (Hin j Hj)).
  apply orb_true_iff in Hall as [Hz|Hn].
  - apply andb_true_iff in Hz as [?%Z.eqb_eq ?%Z.eqb_eq]. done.
  - apply negb_true_iff in Hn. apply Qle_bool_iff in H. congruence.
Qed.

(** An F-measure of 1 needs a precision and a recall of 1. *)
Lemma harmonic_one (x1 x2 : Q) :
  0 < x1 ∧ x1 <= 1 → 0 < x2 ∧ x2 <= 1 →
  1 <= fl (fl (fl (2 * fl x1) * fl x2) / fl (fl x1 + fl x2)) →
  fl x1 == 1 ∧ fl x2 == 1.
Proof.
  intros [Hx1 Hx1'] [Hx2 Hx2'].
  pose proof (fl_pos _ Hx1) as Hp. pose proof (fl_le_1 _ Hx1') as Hp1.
  pose proof (fl_pos _ Hx2) as Hr. pose proof (fl_le_1 _ Hx2') as Hr1.
  assert (E1 : fl (2 * fl x1) * fl x2 == 2 * fl x1 * fl x2)
    by (rewrite fl_double; reflexivity).
  rewrite (fl_proper _ _ E1).
  set (p := fl x1) in *. set (r := fl x2) in *.
  intros H.
  destruct (fl_near_one x1 Hx1 Hx1') as [Hp8 | (i & Hi & Ep)].
  { pose proof (fmeasure_below_one p r Hp Hp8 Hr Hr1). lra. }
  destruct (fl_near_one x2 Hx2 Hx2') as [Hr8 | (j & Hj & Er)].
  { pose proof (fmeasure_below_one r p Hr Hr8 Hp Hp1) as Hlt.
    assert (E2 : 2 * r * p == 2 * p * r) by ring.
    assert (E3 : r + p == p + r) by ring.
    rewrite (fl_proper _ _ E2), (fl_proper _ _ E3) in Hlt. lra. }
  fold p in Ep. fold r in Er. fold (near_one i) in Ep. fold (near_one j) in Er.
  assert (E2 : 2 * p * r == 2 * near_one i * near_one j) by (rewrite Ep, Er; reflexivity).
  assert (E3 : p + r == near_one i + near_one j) by (rewrite Ep, Er; reflexivity).
  rewrite (fl_proper _ _ E2), (fl_proper _ _ E3) in H.
  destruct (near_one_table i j Hi Hj H) as [-> ->].
  rewrite Ep, Er. split; reflexivity.
Qed.

(** The floats 0.1 and 2/3, and the difference of the floats 0.3 and 0.4,
    which exceeds the float 0.1 in absolute value. *)
Lemma fl_examples :
  fl (1 # 10) = 3602879701896397 # 36028797018963968
  ∧ fl (2 # 3) = 6004799503160661 # 9007199254740992
  ∧ (fl (1 # 10) < Qabs (fl (fl (3 # 10) - fl (4 # 10))))%Q
  ∧ (Qabs ((3 # 10) - (4 # 10)) <= 1 # 10)%Q.
Proof. repeat split; vm_compute; first [reflexivity | discriminate]. Qed.

End PyFloatFacts.

(** ** Scores: formula and bounds *)

Import PyFloatFacts.

Lemma Qnat_le (a b : nat) : a ≤ b → (Qnat a <= Qnat b)%Q.
Proof. intros H. unfold Qnat. rewrite <- Zle_Qle. lia. Qed.

Lemma Qnat_pos (a : nat) : a ≠ 0 → (0 < Qnat a)%Q.
Proof. intros H. unfold Qnat. change 0%Q with (inject_Z 0). rewrite <- Zlt_Qlt. lia. Qed.

Lemma ratio_bounds (a b : nat) :
  a ≠ 0 → a ≤ b → (0 < fl (Qnat a / Qnat b) ∧ fl (Qnat a / Qnat b) <= 1)%Q.
Proof.
  intros Ha Hab.
  assert (Hb : (0 < Qnat b)%Q) by (apply Qnat_pos; lia).
  split.
  - apply fl_pos, Qlt_shift_div_l; [done|]. rewrite Qmult_0_l. by apply Qnat_pos.
  - apply fl_le_1, Qle_shift_div_r; [done|]. rewrite Qmult_1_l. by apply Qnat_le.
Qed.

(** The F-measure of two floats of the unit interval: the doubling is
    exact, and the numerator is at most the denominator before and after
    rounding. *)
Lemma harmonic_bounds (x r : Q) :
  (0 < fl x)%Q → (fl x <= 1)%Q → (0 < r)%Q → (r <= 1)%Q →
  (0 < fl (fl (fl (2 * fl x) * r) / fl (fl x + r))
   ∧ fl (fl (fl (2 * fl x) * r) / fl (fl x + r)) <= 1)%Q.
Proof.
  intros Hp Hp1 Hr Hr1.
  set (p := fl x) in *.
  assert (Hd : (fl (2 * p) == 2 * p)%Q) by apply fl_double.
  assert (Hn0 : (0 < fl (fl (2 * p) * r))%Q) by (apply fl_pos; nra).
  assert (Hd0 : (0 < fl (p + r))%Q) by (apply fl_pos; lra).
  assert (Hnd : (fl (fl (2 * p) * r) <= fl (p + r))%Q) by (apply fl_mono; nra).
  split.
  - apply fl_pos, Qlt_shift_div_l; [done|]. by rewrite Qmult_0_l.
  - apply fl_le_1, Qle_shift_div_r; [done|]. by rewrite Qmult_1_l.
Qed.

Lemma exact_ratio_bounds (a b : nat) :
  a ≠ 0 → a ≤ b → (0 < Qnat a / Qnat b ∧ Qnat a / Qnat b <= 1)%Q.
Proof.
  intros Ha Hab.
  assert (Hb : (0 < Qnat b)%Q) by (apply Qnat_pos; lia).
  split.
  - apply Qlt_shift_div_l; [done|]. rewrite Qmult_0_l. by apply Qnat_pos.
  - apply Qle_shift_div_r; [done|]. rewrite Qmult_1_l. by apply Qnat_le.
Qed.

Lemma leaf_iter_node (l : string) (cs : list tree) :
  cs ≠ [] → leaf_iter (Node l cs) = flat_map leaf_iter cs.
Proof. by destruct cs. Qed.

Lemma leaf_iter_child (cs : list tree) (i : nat) (c : tree) :
  cs !! i = Some c → leaf_iter c `sublist_of` flat_map leaf_iter cs.
Proof.
  revert i. induction cs as [|c' cs IH]; intros i Hi; [done|].
  destruct i as [|i]; simpl in *.
  - injection Hi as ->. by apply sublist_inserts_r.
  - apply sublist_inserts_l. by eapply IH.
Qed.

Lemma leaf_iter_subtree (t : tree) (p : path) (c : tree) :
  subtree t p = Some c → leaf_iter c `sublist_of` leaf_iter t.
Proof.
  revert t. induction p as [|i p IH]; intros t H; simpl in H.
  - by injection H as ->.
  - destruct t as [l cs]. simpl in H.
    destruct (cs !! i) as [c'|] eqn:Hi; [|done].
    etrans; [by apply IH|].
    rewrite leaf_iter_node; [by eapply leaf_iter_child|].
    intros ->. done.
Qed.

Lemma length_filter_impl {A : Type} (P R : A → Prop)
      `{∀ x, Decision (P x)} `{∀ x, Decision (R x)} (l : list A) :
  (∀ x, P x → R x) → length (filter P l) ≤ length (filter R l).
Proof.
  intros HPR. induction l as [|x l IH]; [done|].
  rewrite !filter_cons.
  destruct (decide (P x)) as [HP|]; destruct (decide (R x)) as [|HR]; simpl; try lia.
  destruct HR. by apply HPR.
Qed.

Lemma taxa_count_le_named (taxonomy : taxonomy_dict) (c : tree) (rank_index : nat)
      (taxon : string) :
  taxa_count taxonomy c rank_index taxon ≤ num_leaves_with_taxa taxonomy c rank_index.
Proof.
  apply length_filter_impl. intros leaf [Hr Hn].
  unfold has_named_taxon. by rewrite Hr.
Qed.

Lemma dict_get_elem {V : Type} (k : string) (v : V) (d : list (string * V)) :
  dict_get k d = Some v → (k, v) ∈ d.
Proof.
  induction d as [|[k' v'] d IH]; [done|]. simpl.
  destruct (String.eqb_spec k k') as [->|]; intros H.
  - injection H as ->. by left.
  - right. by apply IH.
Qed.

Lemma taxa_count_le_total (taxonomy : taxonomy_dict) (c : tree) (rank_index : nat)
      (taxon : string) :
  NoDup (leaf_iter c) →
  taxa_count taxonomy c rank_index taxon ≤ total_taxa taxonomy rank_index taxon.
Proof.
  intros Hnd. unfold taxa_count, total_taxa, Taxonomy.extant_taxa_for_rank.
  apply submseteq_length, NoDup_submseteq; [by apply NoDup_filter|].
  intros leaf [[Hr Hn] _]%list_elem_of_filter.
  apply elem_of_remove_dups, list_elem_of_fmap.
  exists (leaf, record_of taxonomy leaf). split; [done|].
  apply list_elem_of_filter. split; [by split|].
  apply dict_get_elem. unfold record_of in *.
  destruct (dict_get leaf taxonomy); [done|].
  simpl in Hr. by rewrite lookup_nil in Hr.
Qed.

Lemma taxa_count_at_le_named (taxonomy : taxonomy_dict) (t : tree) (node : path)
      (rank_index : nat) (taxon : string) :
  taxa_count_at taxonomy t node rank_index taxon
  ≤ num_leaves_with_taxa_at taxonomy t node rank_index.
Proof.
  unfold taxa_count_at, num_leaves_with_taxa_at.
  destruct (subtree t node); [apply taxa_count_le_named | done].
Qed.

Lemma taxa_count_at_le_total (taxonomy : taxonomy_dict) (t : tree) (node : path)
      (rank_index : nat) (taxon : string) :
  NoDup (leaf_iter t) →
  taxa_count_at taxonomy t node rank_index taxon ≤ total_taxa taxonomy rank_index taxon.
Proof.
  intros Hnd. unfold taxa_count_at.
  destruct (subtree t node) as [c|] eqn:Hc; [|lia].
  apply taxa_count_le_total.
  eapply sublist_NoDup; [done | by eapply leaf_iter_subtree].
Qed.

Lemma scored_node_total_positive (taxonomy : taxonomy_dict) (t : tree) (node : path)
      (rank_index : nat) (taxon : string) :
  taxa_count_at taxonomy t node rank_index taxon ≠ 0 →
  total_taxa taxonomy rank_index taxon ≠ 0.
Proof.
  unfold taxa_count_at, taxa_count, total_taxa, Taxonomy.extant_taxa_for_rank.
  destruct (subtree t node) as [c|]; [|done].
  destruct (filter _ (leaf_iter c)) as [|leaf leaves] eqn:Hf; [done|]. intros _.
  assert (Hin : leaf ∈ leaf :: leaves) by by left.
  rewrite <- Hf in Hin. apply list_elem_of_filter in Hin as [[Hr Hn] _].
  assert (Hleaf : leaf ∈ remove_dups
            (map fst (filter (λ entry : string * list string,
                                entry.2 !! rank_index = Some taxon
                                ∧ Taxonomy.named rank_index taxon = true) taxonomy))).
  { apply elem_of_remove_dups, list_elem_of_fmap.
    exists (leaf, record_of taxonomy leaf). split; [done|].
    apply list_elem_of_filter. split; [by split|].
    apply dict_get_elem. unfold record_of in *.
    destruct (dict_get leaf taxonomy); [done|].
    simpl in Hr. by rewrite lookup_nil in Hr. }
  intros Hlen. destruct (remove_dups _); [by apply elem_of_nil in Hleaf | done].
Qed.

(** C2: a node of the search region whose subtree holds no leaf of the
    taxon, or no leaf with a named taxon at the rank, gets no score and
    leaves the search state unchanged; otherwise precision is the number of
    subtree leaves of the taxon over the number of subtree leaves named at
    the rank, recall is the same number over the number of leaves of the
    taxon in the tree, F is [2 * precision * recall / (precision + recall)],
    each operation on floats rounded to the nearest float (the doubling is
    exact), and the three values lie between 0 and 1 (leaves carry distinct
    taxon labels). *)
Theorem score_formula_and_bounds (t : tree) (taxonomy : taxonomy_dict) (node : path)
        (rank_index : nat) (taxon : string) :
  NoDup (leaf_iter t) →
  let taxa_in_lineage := taxa_count_at taxonomy t node rank_index taxon in
  let leaves_with_taxa := num_leaves_with_taxa_at taxonomy t node rank_index in
  let total := total_taxa taxonomy rank_index taxon in
  (taxa_in_lineage = 0 ∨ leaves_with_taxa = 0 →
   node_score t taxonomy rank_index taxon total node = None
   ∧ ∀ st, visit t taxonomy rank_index taxon total st node = st)
  ∧ (taxa_in_lineage ≠ 0 → leaves_with_taxa ≠ 0 →
     ∃ fmeasure precision recall,
       node_score t taxonomy rank_index taxon total node
       = Some (fmeasure, precision, recall)
       ∧ precision = fl (Qnat taxa_in_lineage / Qnat leaves_with_taxa)
       ∧ recall = fl (Qnat taxa_in_lineage / Qnat total)
       ∧ fmeasure = fl (fl (fl (2 * precision) * recall) / fl (precision + recall))
       ∧ (fl (2 * precision) == 2 * precision)%Q
       ∧ (0 <= precision ∧ precision <= 1)%Q
       ∧ (0 <= recall ∧ recall <= 1)%Q
       ∧ (0 <= fmeasure ∧ fmeasure <= 1)%Q).
Proof.
  intros Hnd a b c. split.
  - intros H0.
    assert (Hs : node_score t taxonomy rank_index taxon c node = None).
    { unfold node_score, score. fold a b.
      destruct H0 as [-> | ->]; [done|]. by rewrite andb_false_r. }
    split; [done|]. intros [cur m]. unfold visit. by rewrite Hs.
  - intros Ha Hb.
    pose proof (taxa_count_at_le_named taxonomy t node rank_index taxon) as Hab.
    pose proof (taxa_count_at_le_total taxonomy t node rank_index taxon Hnd) as Hac.
    fold a b in Hab. fold a c in Hac.
    destruct (ratio_bounds a b Ha Hab) as [Hp0 Hp1].
    destruct (ratio_bounds a c Ha Hac) as [Hr0 Hr1].
    destruct (harmonic_bounds _ _ Hp0 Hp1 Hr0 Hr1) as [Hf0 Hf1].
    eexists _, _, _. split.
    { unfold node_score, score. fold a b.
      apply Nat.eqb_neq in Ha, Hb. rewrite Ha, Hb. reflexivity. }
    split; [reflexivity|]. split; [reflexivity|]. split; [reflexivity|].
    split; [apply fl_double|].
    repeat split; try done; by apply Qlt_le_weak.
Qed.

Lemma score_formula_and_bounds_witness :
  ∃ fmeasure precision recall,
    node_score Examples.tree4 (trim_taxonomy Examples.tree4 Examples.taxonomy4) 0 "d__D1"
               (total_taxa (trim_taxonomy Examples.tree4 Examples.taxonomy4) 0 "d__D1") [0]
    = Some (fmeasure, precision, recall)
    ∧ (0 <= fmeasure ∧ fmeasure <= 1)%Q.
Proof.
  assert (Hnd : NoDup (leaf_iter Examples.tree4)).
  { by_compute. }
  destruct (score_formula_and_bounds Examples.tree4
              (trim_taxonomy Examples.tree4 Examples.taxonomy4) [0] 0 "d__D1" Hnd)
    as [_ H].
  destruct H as (f & p & r & Hs & _ & _ & _ & _ & _ & _ & Hf); [vm_compute; lia ..|].
  exists f, p, r. split; assumption.
Defined.

(** ** The search loop keeps the maxima *)

Lemma Qnat_nonneg (a : nat) : (0 <= Qnat a)%Q.
Proof. unfold Qnat. change 0%Q with (inject_Z 0). rewrite <- Zle_Qle. lia. Qed.

Lemma Qdiv_nonneg (x y : Q) : (0 <= x → 0 <= y → 0 <= x / y)%Q.
Proof.
  intros Hx Hy. unfold Qdiv. apply Qmult_le_0_compat; [done|].
  by apply Qinv_le_0_compat.
Qed.

Lemma score_nonneg (a b c : nat) (f p r : Q) :
  score a b c = Some (f, p, r) → (0 <= f)%Q.
Proof.
  unfold score. destruct (_ && _); [|done]. intros [= <- _ _].
  pose proof (fl_nonneg _ (Qdiv_nonneg _ _ (Qnat_nonneg a) (Qnat_nonneg b))) as Hp.
  pose proof (fl_nonneg _ (Qdiv_nonneg _ _ (Qnat_nonneg a) (Qnat_nonneg c))) as Hr.
  apply fl_nonneg, Qdiv_nonneg; apply fl_nonneg; [|lra].
  apply Qmult_le_0_compat; [|done]. apply fl_nonneg. lra.
Qed.

Lemma filter_ext_in {A : Type} (P R : A → Prop) `{∀ x, Decision (P x)}
      `{∀ x, Decision (R x)} (l : list A) :
  (∀ x, x ∈ l → P x ↔ R x) → filter P l = filter R l.
Proof.
  induction l as [|x l IH]; intros Hext; [done|].
  rewrite !filter_cons.
  assert (HPR : P x ↔ R x) by (apply Hext; by left).
  rewrite IH by (intros y Hy; apply Hext; by right).
  destruct (decide (P x)), (decide (R x)); tauto.
Qed.

Lemma filter_none {A : Type} (P : A → Prop) `{∀ x, Decision (P x)} (l : list A) :
  (∀ x, x ∈ l → ¬ P x) → filter P l = [].
Proof.
  induction l as [|x l IH]; intros Hn; [done|].
  rewrite filter_cons_False by (apply Hn; by left).
  apply IH. intros y Hy. apply Hn. by right.
Qed.

Lemma achieves_maximum_spec (cs : list cand) (c : cand) :
  achieves_maximum cs c = true
  ↔ ∀ c', c' ∈ cs → (cand_fmeasure c' <= cand_fmeasure c)%Q.
Proof.
  unfold achieves_maximum. rewrite forallb_forall. split.
  - intros H c' Hc'. apply Qle_bool_iff, H. by apply list_elem_of_In.
  - intros H c' Hc'. apply Qle_bool_iff, H. by apply list_elem_of_In.
Qed.

Section Search.
Variable t : tree.
Variable taxonomy : taxonomy_dict.
Variable rank_index : nat.
Variable taxon : string.

Local Abbreviation total := (total_taxa taxonomy rank_index taxon).
Local Abbreviation scored := (scored_candidates t taxonomy rank_index taxon).

Lemma scored_snoc (nodes : list path) (node : path) :
  scored (nodes ++ [node])
  = scored nodes ++ match candidate_of t taxonomy rank_index taxon node with
                    | Some c => [c]
                    | None => []
                    end.
Proof.
  unfold scored_candidates. rewrite omap_app. simpl.
  by destruct (candidate_of _ _ _ _ _).
Qed.

Lemma maxima_snoc_greater (cs : list cand) (c : cand) (cur : Q) :
  (∀ c', c' ∈ cs → (cand_fmeasure c' <= cur)%Q) →
  (cur < cand_fmeasure c)%Q →
  maxima (cs ++ [c]) = [c].
Proof.
  intros Hle Hlt. unfold maxima. rewrite filter_app.
  rewrite filter_none; simpl.
  - rewrite filter_cons_True, filter_nil; [done|].
    apply achieves_maximum_spec. intros c' [Hc' | ->%list_elem_of_singleton]%elem_of_app.
    + apply Qlt_le_weak. eapply Qle_lt_trans; [by apply Hle | done].
    + apply Qle_refl.
  - intros x Hx Hmax. rewrite achieves_maximum_spec in Hmax.
    specialize (Hmax c). specialize (Hle x Hx).
    assert (cand_fmeasure c <= cand_fmeasure x)%Q by (apply Hmax, elem_of_app; right; by left).
    lra.
Qed.

Lemma maxima_snoc_equal (cs : list cand) (c : cand) (cur : Q) :
  (∀ c', c' ∈ maxima cs → (cand_fmeasure c' == cur)%Q) →
  (∀ c', c' ∈ cs → (cand_fmeasure c' <= cur)%Q) →
  (cand_fmeasure c == cur)%Q →
  maxima (cs ++ [c]) = maxima cs ++ [c].
Proof.
  intros Hmax Hle Heq. unfold maxima at 1. rewrite filter_app. f_equal.
  - apply filter_ext_in. intros x Hx. rewrite !achieves_maximum_spec. split.
    + intros H c' Hc'. apply H, elem_of_app. by left.
    + intros H c' [Hc' | ->%list_elem_of_singleton]%elem_of_app; [by apply H|].
      assert (x ∈ maxima cs) as Hxm%Hmax.
      { apply list_elem_of_filter. split; [|done]. by apply achieves_maximum_spec. }
      lra.
  - rewrite filter_cons_True, filter_nil; [done|].
    apply achieves_maximum_spec. intros c' [Hc' | ->%list_elem_of_singleton]%elem_of_app.
    + specialize (Hle c' Hc'). lra.
    + apply Qle_refl.
Qed.

Lemma maxima_snoc_less (cs : list cand) (c : cand) (cur : Q) :
  maxima cs ≠ [] →
  (∀ c', c' ∈ maxima cs → (cand_fmeasure c' == cur)%Q) →
  (cand_fmeasure c < cur)%Q →
  maxima (cs ++ [c]) = maxima cs.
Proof.
  intros Hne Hmax Hlt. unfold maxima at 1. rewrite filter_app.
  rewrite (filter_none _ [c]).
  - rewrite app_nil_r. apply filter_ext_in.
    intros x Hx. rewrite !achieves_maximum_spec. split.
    + intros H c' Hc'. apply H, elem_of_app. by left.
    + intros H c' [Hc' | ->%list_elem_of_singleton]%elem_of_app; [by apply H|].
      assert (x ∈ maxima cs) as Hxm%Hmax.
      { apply list_elem_of_filter. split; [|done]. by apply achieves_maximum_spec. }
      lra.
  - intros x ->%list_elem_of_singleton Hc. rewrite achieves_maximum_spec in Hc.
    destruct (maxima cs) as [|x l] eqn:Hm; [done|].
    assert (Hx : x ∈ maxima cs) by (rewrite Hm; by left).
    pose proof (Hmax x ltac:(by left)) as Hxe.
    apply list_elem_of_filter in Hx as [_ Hx].
    assert (cand_fmeasure x <= cand_fmeasure c)%Q by (apply Hc, elem_of_app; by left).
    lra.
Qed.

Lemma candidate_of_nonneg (node : path) (c : cand) :
  candidate_of t taxonomy rank_index taxon node = Some c → (0 <= cand_fmeasure c)%Q.
Proof.
  unfold candidate_of, node_score.
  destruct (score _ _ _) as [[[f p] r]|] eqn:Hs; [|done].
  intros [= <-]. simpl. by eapply score_nonneg.
Qed.

Lemma visit_scored (node : path) (c : cand) (cur : Q) (m : fmeasure_map) :
  candidate_of t taxonomy rank_index taxon node = Some c →
  visit t taxonomy rank_index taxon total (cur, m) node
  = if Qlt_le_dec cur (cand_fmeasure c) then (cand_fmeasure c, <[taxon := [c]]> m)
    else if Qeq_dec (cand_fmeasure c) cur then (cur, alter (λ l, l ++ [c]) taxon m)
         else (cur, m).
Proof.
  unfold candidate_of, visit.
  destruct (node_score _ _ _ _ _ _) as [[[f p] r]|]; [|done].
  by intros [= <-].
Qed.

Lemma visit_unscored (node : path) (st : Q * fmeasure_map) :
  candidate_of t taxonomy rank_index taxon node = None →
  visit t taxonomy rank_index taxon total st node = st.
Proof.
  unfold candidate_of, visit. destruct st as [cur m].
  by destruct (node_score _ _ _ _ _ _) as [[[f p] r]|].
Qed.

Lemma search_loop_invariant (m : fmeasure_map) (nodes : list path) :
  search_invariant t taxonomy rank_index taxon m nodes
    (foldl (visit t taxonomy rank_index taxon total) ((-1)%Q, m) nodes).
Proof.
  induction nodes as [|node nodes IH] using rev_ind; [done|].
  rewrite foldl_app. simpl. unfold search_invariant in *. cbv zeta in *.
  rewrite scored_snoc.
  destruct (candidate_of t taxonomy rank_index taxon node) as [c|] eqn:Hc.
  2:{ rewrite app_nil_r, visit_unscored by done. exact IH. }
  pose proof (candidate_of_nonneg node c Hc) as Hpos.
  destruct (scored nodes) as [|c0 cs] eqn:Hcs.
  - rewrite IH, (visit_scored node c) by done. simpl.
    destruct (Qlt_le_dec (-1) (cand_fmeasure c)) as [_|Hle]; [|lra].
    exists (cand_fmeasure c).
    assert (Hm : maxima [c] = [c]).
    { apply (maxima_snoc_greater [] c (-1)%Q); [by intros c' ?%elem_of_nil | lra]. }
    rewrite Hm.
    repeat split; [done|..].
    + by intros c' ->%list_elem_of_singleton.
    + intros c' ->%list_elem_of_singleton. apply Qle_refl.
  - destruct IH as (cur & -> & Hne & Hmax & Hle).
    rewrite (visit_scored node c) by done.
    change (c0 :: cs ++ [c]) with ((c0 :: cs) ++ [c]).
    destruct (Qlt_le_dec cur (cand_fmeasure c)) as [Hlt|Hge].
    + exists (cand_fmeasure c).
      rewrite (maxima_snoc_greater _ c cur) by done.
      rewrite insert_insert_eq. repeat split; [done|..].
      * by intros c' ->%list_elem_of_singleton.
      * intros c' [Hc' | ->%list_elem_of_singleton]%elem_of_app; [|apply Qle_refl].
        specialize (Hle c' Hc'). lra.
    + destruct (Qeq_dec (cand_fmeasure c) cur) as [Heq|Hneq].
      * exists cur. rewrite (maxima_snoc_equal _ c cur) by done.
        rewrite alter_insert_eq. repeat split.
        -- by destruct (maxima (c0 :: cs)).
        -- intros c' [Hc' | ->%list_elem_of_singleton]%elem_of_app; [by apply Hmax | done].
        -- intros c' [Hc' | ->%list_elem_of_singleton]%elem_of_app; [by apply Hle | lra].
      * assert (Hlt : (cand_fmeasure c < cur)%Q).
        { apply Qle_lteq in Hge as [Hlt | Heq]; [done|]. by destruct Hneq. }
        exists cur. rewrite (maxima_snoc_less _ c cur) by done.
        repeat split; [done..|].
        intros c' [Hc' | ->%list_elem_of_singleton]%elem_of_app; [by apply Hle | lra].
Qed.
End Search.

Lemma candidate_of_node (t : tree) (taxonomy : taxonomy_dict) (rank_index : nat)
      (taxon : string) (node : path) (c : cand) :
  candidate_of t taxonomy rank_index taxon node = Some c → cand_node c = node.
Proof.
  unfold candidate_of.
  destruct (node_score _ _ _ _ _ _) as [[[f p] r]|]; [|done]. by intros [= <-].
Qed.

Lemma scored_candidates_nodes (t : tree) (taxonomy : taxonomy_dict) (rank_index : nat)
      (taxon : string) (nodes : list path) :
  map cand_node (scored_candidates t taxonomy rank_index taxon nodes) `sublist_of` nodes.
Proof.
  induction nodes as [|node nodes IH]; [done|].
  unfold scored_candidates in *. simpl.
  destruct (candidate_of _ _ _ _ node) as [c|] eqn:Hc; simpl.
  - rewrite (candidate_of_node _ _ _ _ _ _ Hc). by constructor.
  - by constructor.
Qed.

Lemma scored_candidates_elem (t : tree) (taxonomy : taxonomy_dict) (rank_index : nat)
      (taxon : string) (nodes : list path) (c : cand) :
  c ∈ scored_candidates t taxonomy rank_index taxon nodes
  ↔ cand_node c ∈ nodes
    ∧ candidate_of t taxonomy rank_index taxon (cand_node c) = Some c.
Proof.
  unfold scored_candidates. rewrite list_elem_of_omap. split.
  - intros (node & Hin & Hc). by rewrite (candidate_of_node _ _ _ _ _ _ Hc).
  - intros [Hin Hc]. by exists (cand_node c).
Qed.

Lemma candidate_of_count (t : tree) (taxonomy : taxonomy_dict) (rank_index : nat)
      (taxon : string) (node : path) (c : cand) :
  candidate_of t taxonomy rank_index taxon node = Some c →
  1 ≤ taxa_count_at taxonomy t node rank_index taxon ∧ is_Some (subtree t node).
Proof.
  unfold candidate_of, node_score, score, taxa_count_at.
  destruct (subtree t node) as [sub|]; [|done].
  destruct (taxa_count _ _ _ _) as [|a]; [done|]. intros _. split; [lia | by eexists].
Qed.

Lemma search_from_spec (t : tree) (taxonomy : taxonomy_dict) (rank_index : nat)
      (taxon : string) (m : fmeasure_map) (root : path) :
  search_from t taxonomy m rank_index taxon root
  = match scored_candidates t taxonomy rank_index taxon (preorder_from t root) with
    | [] => m
    | cs => <[taxon := maxima cs]> m
    end.
Proof.
  unfold search_from.
  pose proof (search_loop_invariant t taxonomy rank_index taxon m (preorder_from t root)) as H.
  unfold search_invariant in H.
  destruct (scored_candidates _ _ _ _ _) as [|c cs].
  - by rewrite H.
  - by destruct H as (cur & -> & _).
Qed.

Lemma candidate_of_scored (t : tree) (taxonomy : taxonomy_dict) (rank_index : nat)
      (taxon : string) (node : path) :
  taxa_count_at taxonomy t node rank_index taxon ≠ 0 →
  let precision := fl (Qnat (taxa_count_at taxonomy t node rank_index taxon)
                       / Qnat (num_leaves_with_taxa_at taxonomy t node rank_index)) in
  let recall := fl (Qnat (taxa_count_at taxonomy t node rank_index taxon)
                    / Qnat (total_taxa taxonomy rank_index taxon)) in
  candidate_of t taxonomy rank_index taxon node
  = Some (Cand node (fl (fl (fl (2 * precision) * recall) / fl (precision + recall)))
               precision recall).
Proof.
  intros Ha. pose proof (taxa_count_at_le_named taxonomy t node rank_index taxon) as Hab.
  unfold candidate_of, node_score, score.
  destruct (Nat.eqb_spec (taxa_count_at taxonomy t node rank_index taxon) 0); [done|].
  destruct (Nat.eqb_spec (num_leaves_with_taxa_at taxonomy t node rank_index) 0); [lia|].
  done.
Qed.

(** C4: the scored nodes of the search region are its nodes that hold a
    leaf of the taxon, each with the F-measure that line 138 computes in
    floats; during the search a scored node with a strictly greater
    F-measure replaces the candidate list of the taxon, a node that ties
    the current maximum is appended and a node below the maximum changes
    nothing; after the search the list holds exactly the scored nodes of
    the search region whose F-measure is maximal, in traversal (preorder)
    order, and the entries of the other taxa are untouched. *)
Theorem candidates_are_the_maxima_in_preorder (t : tree) (taxonomy : taxonomy_dict)
        (rank_index : nat) (taxon : string) (m : fmeasure_map) (root : path) :
  let total := total_taxa taxonomy rank_index taxon in
  let region := preorder_from t root in
  let scored := scored_candidates t taxonomy rank_index taxon region in
  let m' := search_from t taxonomy m rank_index taxon root in
  (∀ node, node ∈ region →
     let a := taxa_count_at taxonomy t node rank_index taxon in
     let b := num_leaves_with_taxa_at taxonomy t node rank_index in
     (a = 0 → ∀ c, c ∈ scored → cand_node c ≠ node)
     ∧ (a ≠ 0 →
        b ≠ 0
        ∧ ∃ c, c ∈ scored ∧ cand_node c = node
               ∧ candidate_of t taxonomy rank_index taxon node = Some c
               ∧ cand_precision c = fl (Qnat a / Qnat b)
               ∧ cand_recall c = fl (Qnat a / Qnat total)
               ∧ cand_fmeasure c
                 = fl (fl (fl (2 * cand_precision c) * cand_recall c)
                       / fl (cand_precision c + cand_recall c))))
  ∧ (∀ c, c ∈ scored → cand_node c ∈ region)
  ∧ (∀ node c cur m0,
       candidate_of t taxonomy rank_index taxon node = Some c →
       ((cur < cand_fmeasure c)%Q →
        visit t taxonomy rank_index taxon total (cur, m0) node
        = (cand_fmeasure c, <[taxon := [c]]> m0))
       ∧ ((cand_fmeasure c == cur)%Q →
          visit t taxonomy rank_index taxon total (cur, m0) node
          = (cur, alter (λ l, l ++ [c]) taxon m0))
       ∧ ((cand_fmeasure c < cur)%Q →
          visit t taxonomy rank_index taxon total (cur, m0) node = (cur, m0)))
  ∧ (scored = [] → m' = m)
  ∧ (scored ≠ [] → m' !! taxon = Some (maxima scored) ∧ maxima scored ≠ [])
  ∧ (∀ c, c ∈ maxima scored
          ↔ c ∈ scored ∧ ∀ c', c' ∈ scored → (cand_fmeasure c' <= cand_fmeasure c)%Q)
  ∧ map cand_node (maxima scored) `sublist_of` region
  ∧ (∀ other, other ≠ taxon → m' !! other = m !! other).
Proof.
  intros total region scored m'. repeat apply conj.
  - intros node Hin a b. split.
    + intros Ha c [_ Hc]%scored_candidates_elem <-.
      apply candidate_of_count in Hc as [Hc _]. fold a in Hc. lia.
    + intros Ha.
      pose proof (taxa_count_at_le_named taxonomy t node rank_index taxon) as Hab.
      fold a b in Hab. split; [lia|].
      pose proof (candidate_of_scored t taxonomy rank_index taxon node Ha) as Hc.
      cbv zeta in Hc. eexists. split; [|split; [|split; [exact Hc|]]]; [|done|done].
      apply scored_candidates_elem. split; [done | exact Hc].
  - by intros c [Hin _]%scored_candidates_elem.
  - intros node c cur m0 Hc. rewrite (visit_scored _ _ _ _ _ _ _ _ Hc).
    repeat split; intros H.
    + by destruct (Qlt_le_dec cur (cand_fmeasure c)) as [|Hle]; [|lra].
    + destruct (Qlt_le_dec cur (cand_fmeasure c)) as [|Hle]; [lra|].
      by destruct (Qeq_dec (cand_fmeasure c) cur).
    + destruct (Qlt_le_dec cur (cand_fmeasure c)) as [|Hle]; [lra|].
      destruct (Qeq_dec (cand_fmeasure c) cur); [lra|done].
  - intros Hs. unfold m'. rewrite search_from_spec. fold region scored. by rewrite Hs.
  - intros Hs. unfold m'. rewrite search_from_spec. fold region scored.
    pose proof (search_loop_invariant t taxonomy rank_index taxon m region) as H.
    unfold search_invariant in H. fold scored in H.
    destruct scored as [|c cs]; [done|].
    rewrite lookup_insert_eq. split; [done|]. by destruct H as (cur & _ & Hne & _).
  - intros c. unfold maxima. rewrite list_elem_of_filter, achieves_maximum_spec. tauto.
  - etrans; [|apply scored_candidates_nodes]. fold region scored.
    apply (fmap_sublist cand_node). unfold maxima. apply sublist_filter.
  - intros other Hne. unfold m'. rewrite search_from_spec.
    destruct (scored_candidates _ _ _ _ _); [done|]. by rewrite lookup_insert_ne.
Qed.

Lemma candidates_are_the_maxima_in_preorder_witness :
  let taxonomy := trim_taxonomy Examples.tree_rounding Examples.taxonomy_rounding in
  search_from Examples.tree_rounding taxonomy ∅ 0 "d__X" [] !! "d__X"%string
  = Some [Cand [0; 0] (fl (2 # 3)) 1 (fl (1 # 2))]
  ∧ (∃ c, candidate_of Examples.tree_rounding taxonomy 0 "d__X" [0] = Some c
          ∧ (cand_fmeasure c < fl (2 # 3))%Q)
  ∧ Qeq (exact_fmeasure (taxa_count_at taxonomy Examples.tree_rounding [0] 0 "d__X")
                         (num_leaves_with_taxa_at taxonomy Examples.tree_rounding [0] 0)
                         (total_taxa taxonomy 0 "d__X"))
         (exact_fmeasure (taxa_count_at taxonomy Examples.tree_rounding [0; 0] 0 "d__X")
                         (num_leaves_with_taxa_at taxonomy Examples.tree_rounding [0; 0] 0)
                         (total_taxa taxonomy 0 "d__X"))
  ∧ exact_fmeasure 3 5 4 = exact_fmeasure
                             (taxa_count_at taxonomy Examples.tree_rounding [0] 0 "d__X")
                             (num_leaves_with_taxa_at taxonomy Examples.tree_rounding [0] 0)
                             (total_taxa taxonomy 0 "d__X").
Proof.
  intros taxonomy.
  destruct (candidates_are_the_maxima_in_preorder Examples.tree_rounding taxonomy
              0 "d__X" ∅ [])
    as (Hscored & _ & _ & _ & Hmax & _).
  split; [|split].
  - destruct Hmax as [-> _]; [vm_compute; discriminate|]. vm_compute. reflexivity.
  - destruct (Hscored [0]) as [_ Hc]; [by_compute|].
    destruct Hc as (_ & c & _ & _ & Hc & _ & _ & Hf); [vm_compute; lia|].
    exists c. split; [exact Hc|].
    vm_compute in Hc. injection Hc as <-. vm_compute. reflexivity.
  - split; vm_compute; reflexivity.
Defined.

(** ** The trimmed taxonomy and the processed taxa *)

Lemma dict_set_keys {V : Type} (k : string) (v : V) (d : list (string * V)) :
  (dict_set k v d).*1 = if decide (k ∈ d.*1) then d.*1 else d.*1 ++ [k].
Proof.
  induction d as [|[k0 v0] d IH].
  - cbn [dict_set fmap list_fmap fst app].
    destruct (decide _) as [Hin|]; [by apply elem_of_nil in Hin | done].
  - cbn [dict_set]. destruct (String.eqb_spec k k0) as [->|Hne].
    + rewrite !fmap_cons. cbn [fst]. rewrite decide_True; [done|]. by left.
    + rewrite !fmap_cons, IH. cbn [fst]. destruct (decide (k ∈ d.*1)) as [Hin|Hnin].
      * rewrite decide_True; [done|]. by right.
      * rewrite decide_False; [done|]. by intros [?|?]%elem_of_cons.
Qed.

Lemma dict_set_NoDup {V : Type} (k : string) (v : V) (d : list (string * V)) :
  NoDup d.*1 → NoDup (dict_set k v d).*1.
Proof.
  intros Hnd. rewrite dict_set_keys. destruct (decide (k ∈ d.*1)); [done|].
  apply NoDup_app. repeat split; [done| |apply NoDup_singleton].
  by intros x Hx ->%list_elem_of_singleton.
Qed.

Lemma dict_get_NoDup {V : Type} (k : string) (v : V) (d : list (string * V)) :
  NoDup d.*1 → (k, v) ∈ d → dict_get k d = Some v.
Proof.
  induction d as [|[k0 v0] d IH]; simpl; [by intros _ ?%elem_of_nil|].
  intros [Hk0 Hnd]%NoDup_cons [[= -> ->] | Hin]%elem_of_cons.
  - by rewrite String.eqb_refl.
  - destruct (String.eqb_spec k k0) as [->|Hne]; [|by apply IH].
    destruct Hk0. apply list_elem_of_fmap. by exists (k0, v).
Qed.

Lemma trim_taxonomy_keys (t : tree) (full_taxonomy : gmap string (list string)) :
  NoDup (trim_taxonomy t full_taxonomy).*1
  ∧ ∀ leaf, leaf ∈ (trim_taxonomy t full_taxonomy).*1 → leaf ∈ leaf_iter t.
Proof.
  unfold trim_taxonomy.
  induction (leaf_iter t) as [|leaf leaves IH] using rev_ind.
  - split; [constructor|]. by intros leaf ?%elem_of_nil.
  - rewrite foldl_app. simpl. destruct IH as [Hnd Hsub]. split.
    + by apply dict_set_NoDup.
    + intros leaf'. rewrite dict_set_keys. destruct (decide _) as [|_].
      * intros Hl. apply elem_of_app. left. by apply Hsub.
      * rewrite !elem_of_app. intros [Hl | Hl]; [left; by apply Hsub | by right].
Qed.

Lemma named_lineage_entry (taxonomy : taxonomy_dict) (rank_index : nat) (taxon : string) :
  taxon ∈ Taxonomy.named_lineages_at_rank taxonomy rank_index →
  ∃ leaf taxa, (leaf, taxa) ∈ taxonomy ∧ taxa !! rank_index = Some taxon
               ∧ Taxonomy.named rank_index taxon = true.
Proof.
  unfold Taxonomy.named_lineages_at_rank.
  rewrite elem_of_remove_dups, list_elem_of_In, in_flat_map.
  intros [[leaf taxa] [Hin%list_elem_of_In Ht]]. simpl in Ht.
  exists leaf, taxa. split; [done|].
  destruct (taxa !! rank_index) as [taxon'|]; [|done].
  destruct (Taxonomy.named rank_index taxon') eqn:Hn; [|done].
  by destruct Ht as [-> | []].
Qed.

Lemma named_lineage_in_tree (t : tree) (full_taxonomy : gmap string (list string))
      (rank_index : nat) (taxon : string) :
  taxon ∈ Taxonomy.named_lineages_at_rank (trim_taxonomy t full_taxonomy) rank_index →
  1 ≤ taxa_count_at (trim_taxonomy t full_taxonomy) t seed_node rank_index taxon.
Proof.
  intros (leaf & taxa & Hin & Ht & Hn)%named_lineage_entry.
  destruct (trim_taxonomy_keys t full_taxonomy) as [Hnd Hsub].
  unfold taxa_count_at, taxa_count. simpl.
  assert (Hleaf : leaf ∈ filter
    (λ leaf, record_of (trim_taxonomy t full_taxonomy) leaf !! rank_index = Some taxon
             ∧ Taxonomy.named rank_index taxon = true) (leaf_iter t)).
  { apply list_elem_of_filter. split.
    - unfold record_of. by rewrite (dict_get_NoDup _ _ _ Hnd Hin).
    - apply Hsub, list_elem_of_fmap. by exists (leaf, taxa). }
  destruct (filter _ _); [by apply elem_of_nil in Hleaf | simpl; lia].
Qed.

Lemma Qnat_lt (a b : nat) : (Qnat a < Qnat b)%Q ↔ a < b.
Proof. unfold Qnat. rewrite <- Zlt_Qlt. lia. Qed.

Lemma Qnat_double (a : nat) : (Qnat (2 * a) == 2 * Qnat a)%Q.
Proof.
  unfold Qnat. rewrite Nat2Z.inj_mul, inject_Z_mult. reflexivity.
Qed.

Lemma fewer_than_half (c n : nat) : (Qnat c < (1 # 2) * Qnat n)%Q ↔ 2 * c < n.
Proof.
  rewrite <- Qnat_lt, Qnat_double. split; intros H; lra.
Qed.

Lemma taxa_count_le_taxa_in_tree (taxonomy : taxonomy_dict) (t : tree)
      (rank_index : nat) (taxon : string) :
  taxa_count taxonomy t rank_index taxon ≤ taxa_in_tree taxonomy t taxon.
Proof.
  unfold taxa_count, taxa_in_tree.
  induction (leaf_iter t) as [|leaf leaves IH]; [done|].
  simpl. rewrite filter_app, length_app, filter_cons.
  destruct (decide _) as [[Hr _]|]; simpl; [|lia].
  apply list_elem_of_lookup_2 in Hr.
  assert (Hin : taxon ∈ filter (λ x, x = taxon) (record_of taxonomy leaf))
    by by apply list_elem_of_filter.
  destruct (filter _ (record_of taxonomy leaf)); [by apply elem_of_nil in Hin|].
  simpl. lia.
Qed.

Lemma search_root_has_taxon (t : tree) (taxonomy : taxonomy_dict) (m : fmeasure_map)
      (rank_index : nat) (taxon : string) (root : path) :
  1 ≤ taxa_count_at taxonomy t seed_node rank_index taxon →
  search_root t taxonomy m rank_index taxon = Some root →
  1 ≤ taxa_count_at taxonomy t root rank_index taxon.
Proof.
  intros Hseed. unfold search_root.
  destruct (rank_index =? 0); [by intros [= <-]|].
  destruct (last _) as [parent_taxon|]; [|done].
  destruct (m !! parent_taxon) as [data|]; [|done].
  destruct (Qlt_le_dec _ _) as [|Hge]; [by intros [= <-]|].
  intros [= <-].
  pose proof (taxa_count_le_taxa_in_tree taxonomy t rank_index taxon) as Hle.
  unfold taxa_count_at in Hseed at 1. simpl in Hseed.
  match goal with |- 1 ≤ ?c => destruct (decide (2 * c < taxa_in_tree taxonomy t taxon)) as [Hlt|]; [|lia] end.
  apply fewer_than_half in Hlt. lra.
Qed.

Lemma region_maxima_nonempty (t : tree) (taxonomy : taxonomy_dict) (rank_index : nat)
      (taxon : string) (nodes : list path) :
  scored_candidates t taxonomy rank_index taxon nodes ≠ [] →
  maxima (scored_candidates t taxonomy rank_index taxon nodes) ≠ [].
Proof.
  intros Hs.
  pose proof (search_loop_invariant t taxonomy rank_index taxon ∅ nodes) as H.
  unfold search_invariant in H.
  destruct (scored_candidates _ _ _ _ _); [done|].
  by destruct H as (cur & _ & Hne & _).
Qed.

Lemma search_from_nonempty (t : tree) (taxonomy : taxonomy_dict) (rank_index : nat)
      (taxon : string) (m : fmeasure_map) (root : path) :
  nonempty_lists m → nonempty_lists (search_from t taxonomy m rank_index taxon root).
Proof.
  intros Hm. rewrite search_from_spec.
  destruct (scored_candidates _ _ _ _ _) as [|c cs] eqn:Hs; [done|].
  intros taxon' l. destruct (decide (taxon' = taxon)) as [->|Hne].
  - rewrite lookup_insert_eq. intros [= <-]. rewrite <- Hs.
    apply region_maxima_nonempty. by rewrite Hs.
  - rewrite lookup_insert_ne by done. apply Hm.
Qed.

Lemma process_taxon_nonempty (t : tree) (taxonomy : taxonomy_dict) (rank_index : nat)
      (taxon : string) (m : fmeasure_map) :
  nonempty_lists m → nonempty_lists (process_taxon t taxonomy rank_index m taxon).
Proof.
  intros Hm. unfold process_taxon.
  destruct (search_root _ _ _ _ _); [by apply search_from_nonempty | done].
Qed.

Lemma fmeasure_nonempty (t : tree) (taxonomy : taxonomy_dict) :
  nonempty_lists (_fmeasure t taxonomy).
Proof.
  unfold _fmeasure.
  assert (H : ∀ ranks m, nonempty_lists m →
                         nonempty_lists (foldl (process_rank t taxonomy) m ranks)).
  { induction ranks as [|r ranks IH]; intros m Hm; [done|]. simpl. apply IH.
    unfold process_rank. revert m Hm.
    induction (Taxonomy.named_lineages_at_rank taxonomy r) as [|x l IHl];
      intros m Hm; [done|].
    simpl. by apply IHl, process_taxon_nonempty. }
  apply H. by intros taxon l ?%lookup_empty_Some.
Qed.

Lemma search_root_is_Some (t : tree) (taxonomy : taxonomy_dict) (m : fmeasure_map)
      (rank_index : nat) (taxon : string) :
  rank_index = 0
  ∨ (∃ parent_taxon, last (Taxonomy.parents taxonomy !!! taxon) = Some parent_taxon
                     ∧ is_Some (m !! parent_taxon)) →
  is_Some (search_root t taxonomy m rank_index taxon).
Proof.
  unfold search_root. intros [-> | (parent_taxon & -> & [data ->])]; [done|].
  destruct (rank_index =? 0); [done|]. by destruct (Qlt_le_dec _ _).
Qed.

Lemma search_root_scored (t : tree) (taxonomy : taxonomy_dict) (rank_index : nat)
      (taxon : string) (root : path) :
  1 ≤ taxa_count_at taxonomy t root rank_index taxon →
  ∃ c cs, scored_candidates t taxonomy rank_index taxon (preorder_from t root) = c :: cs.
Proof.
  intros Hc.
  pose proof (taxa_count_at_le_named taxonomy t root rank_index taxon) as Hn.
  unfold preorder_from. unfold taxa_count_at in Hc.
  destruct (subtree t root) as [[l cs]|] eqn:Hsub; [|lia].
  unfold scored_candidates. simpl. rewrite app_nil_r.
  unfold candidate_of at 1, node_score, score, taxa_count_at. rewrite Hsub.
  fold (taxa_count_at taxonomy t root rank_index taxon) in Hn.
  unfold taxa_count_at in Hn. rewrite Hsub in Hn.
  destruct (taxa_count _ _ _ _) as [|a]; [lia|].
  unfold num_leaves_with_taxa_at in *. rewrite Hsub in *.
  destruct (num_leaves_with_taxa _ _ _) as [|b]; [lia|].
  simpl. eauto.
Qed.

(** C9: a named taxon that the search processes (at the most general
    rank, or with its parent taxon present in the candidate map) gets a
    non-empty candidate list: the search root kept after the half-count
    test holds at least one leaf of the taxon; hence every key of the
    candidate map always holds a non-empty list. *)
Theorem processed_taxon_has_a_candidate (t : tree)
        (full_taxonomy : gmap string (list string)) (m : fmeasure_map)
        (rank_index : nat) (taxon : string) :
  let taxonomy := trim_taxonomy t full_taxonomy in
  taxon ∈ Taxonomy.named_lineages_at_rank taxonomy rank_index →
  rank_index = 0
  ∨ (∃ parent_taxon, last (Taxonomy.parents taxonomy !!! taxon) = Some parent_taxon
                     ∧ is_Some (m !! parent_taxon)) →
  (∃ root, search_root t taxonomy m rank_index taxon = Some root
           ∧ 1 ≤ taxa_count_at taxonomy t root rank_index taxon
           ∧ ∃ c l, process_taxon t taxonomy rank_index m taxon !! taxon = Some (c :: l))
  ∧ (nonempty_lists m → nonempty_lists (process_taxon t taxonomy rank_index m taxon))
  ∧ nonempty_lists (_fmeasure t taxonomy).
Proof.
  intros taxonomy Hnamed Hproc.
  split; [|split; [apply process_taxon_nonempty | apply fmeasure_nonempty]].
  destruct (search_root_is_Some t taxonomy m rank_index taxon Hproc) as [root Hroot].
  exists root. split; [done|].
  assert (Hc : 1 ≤ taxa_count_at taxonomy t root rank_index taxon).
  { eapply search_root_has_taxon; [|done]. by apply named_lineage_in_tree. }
  split; [done|].
  unfold process_taxon. rewrite Hroot, search_from_spec.
  destruct (search_root_scored t taxonomy rank_index taxon root Hc) as (c & cs & Hs).
  rewrite Hs, lookup_insert_eq.
  pose proof (region_maxima_nonempty t taxonomy rank_index taxon (preorder_from t root)) as Hne.
  rewrite Hs in Hne. destruct (maxima (c :: cs)) as [|c' l]; [by destruct Hne|].
  by exists c', l.
Qed.

Lemma processed_taxon_has_a_candidate_witness :
  (∃ root, search_root Examples.tree4 (trim_taxonomy Examples.tree4 Examples.taxonomy4)
                       ∅ 0 "d__D1" = Some root
           ∧ 1 ≤ taxa_count_at (trim_taxonomy Examples.tree4 Examples.taxonomy4)
                               Examples.tree4 root 0 "d__D1"
           ∧ ∃ c l, process_taxon Examples.tree4
                                  (trim_taxonomy Examples.tree4 Examples.taxonomy4)
                                  0 ∅ "d__D1" !! "d__D1" = Some (c :: l))
  ∧ (nonempty_lists ∅ →
     nonempty_lists (process_taxon Examples.tree4
                                   (trim_taxonomy Examples.tree4 Examples.taxonomy4)
                                   0 ∅ "d__D1"))
  ∧ nonempty_lists (_fmeasure Examples.tree4
                              (trim_taxonomy Examples.tree4 Examples.taxonomy4)).
Proof.
  apply (processed_taxon_has_a_candidate Examples.tree4 Examples.taxonomy4 ∅ 0 "d__D1").
  - by_compute.
  - by left.
Defined.

(** ** Leaves without labelled ancestor *)

Lemma mapM_raise {A B : Type} (f : A → result B) (l : list A) (x : A) (e : error) :
  x ∈ l → f x = Raise e → ∃ e', mapM f l = Raise e'.
Proof.
  induction l as [|y l IH]; intros Hin Hx.
  - by apply elem_of_nil in Hin.
  - apply elem_of_cons in Hin as [<- | Hin]; simpl.
    + rewrite Hx. by exists e.
    + destruct (f y) as [b|e1]; simpl; [|by exists e1].
      destruct (IH Hin Hx) as [e' ->]. by exists e'.
Qed.

Lemma unlabelled_chain_no_taxa (lab : labels) (chain : list path) :
  (∀ node, node ∈ chain → PyStr.truthy (label_taxon (node_label lab node)) = false) →
  flat_map (node_taxa_reversed lab) chain = [].
Proof.
  induction chain as [|n chain IH]; intros H; [done|].
  simpl. unfold node_taxa_reversed at 1. simpl.
  rewrite (H n) by left.
  apply IH. intros node Hn. apply H. by right.
Qed.

(** C10: a leaf none of whose ancestors, nor the leaf itself, carries a
    taxon label makes [_leaf_taxa] index the last element of an empty list
    ([IndexError]), and [_write_taxonomy] then fails instead of writing an
    all-unclassified record for that leaf. *)
Theorem leaf_taxa_needs_a_labelled_node (t : tree) (lab : labels) (leaf : path) :
  leaf ∈ leaf_node_iter t →
  (∀ node, node ∈ ancestors_or_self leaf →
           PyStr.truthy (label_taxon (node_label lab node)) = false) →
  _leaf_taxa lab leaf = Raise IndexError
  ∧ ∃ e, _write_taxonomy t lab = Raise e.
Proof.
  intros Hin H.
  assert (Hl : _leaf_taxa lab leaf = Raise IndexError).
  { unfold _leaf_taxa. by rewrite unlabelled_chain_no_taxa. }
  split; [done|].
  apply (mapM_raise _ _ leaf IndexError); [done|].
  unfold taxonomy_line. by rewrite Hl.
Qed.

Lemma leaf_taxa_needs_a_labelled_node_witness :
  _leaf_taxa ∅ [0; 1] = Raise IndexError
  ∧ ∃ e, _write_taxonomy Examples.tree4 ∅ = Raise e.
Proof.
  apply (leaf_taxa_needs_a_labelled_node Examples.tree4 ∅ [0; 1]).
  - by_compute.
  - intros node _. reflexivity.
Defined.

(** ** The nodes of the traversal *)

Lemma tree_ind_forall (P : tree → Prop) :
  (∀ l cs, Forall P cs → P (Node l cs)) → ∀ t, P t.
Proof.
  intros H. fix IH 1. intros [l cs]. apply H.
  induction cs as [|c cs IHcs]; constructor; [apply IH | exact IHcs].
Qed.

Lemma preorder_iter_unfold (l : string) (cs : list tree) :
  preorder_iter (Node l cs) = [] :: preorder_forest 0 cs.
Proof.
  reflexivity.
Qed.

Lemma subtree_app (t : tree) (p q : path) :
  subtree t (p ++ q) = subtree t p ≫= λ c, subtree c q.
Proof.
  revert t. induction p as [|i p IH]; intros t; simpl; [done|].
  destruct (child_nodes t !! i); [apply IH | done].
Qed.

Lemma preorder_forest_elem (i0 : nat) (cs : list tree) (p : path) :
  p ∈ preorder_forest i0 cs
  ↔ ∃ k c q, p = (i0 + k) :: q ∧ cs !! k = Some c ∧ q ∈ preorder_iter c.
Proof.
  revert i0. induction cs as [|c0 cs IH]; intros i0; simpl.
  - rewrite elem_of_nil. split; [done|]. by intros (k & c & q & _ & ? & _).
  - rewrite elem_of_app, list_elem_of_fmap, IH. split.
    + intros [(q & -> & Hq) | (k & c & q & -> & Hk & Hq)].
      * exists 0, c0, q. by rewrite Nat.add_0_r.
      * exists (S k), c, q. split; [f_equal; lia | done].
    + intros ([|k] & c & q & -> & Hk & Hq); simpl in Hk.
      * injection Hk as ->. left. exists q. by rewrite Nat.add_0_r.
      * right. exists k, c, q. split; [f_equal; lia | done].
Qed.

Lemma preorder_iter_elem (t : tree) (p : path) :
  p ∈ preorder_iter t ↔ is_Some (subtree t p).
Proof.
  revert p. induction t as [l cs IH] using tree_ind_forall. intros p.
  rewrite preorder_iter_unfold, elem_of_cons, preorder_forest_elem.
  rewrite Forall_forall in IH. split.
  - intros [-> | (k & c & q & -> & Hk & Hq)]; [by eexists|].
    simpl. rewrite Hk. apply IH; [by eapply list_elem_of_lookup_2 | done].
  - destruct p as [|i q]; [by left|]. simpl. intros Hs. right.
    destruct (cs !! i) as [c|] eqn:Hi; [|by destruct Hs].
    exists i, c, q. split; [done|]. split; [done|].
    apply IH; [by eapply list_elem_of_lookup_2 | done].
Qed.

Lemma preorder_from_elem (t : tree) (root node : path) :
  node ∈ preorder_from t root ↔ root `prefix_of` node ∧ is_Some (subtree t node).
Proof.
  unfold preorder_from. split.
  - destruct (subtree t root) as [c|] eqn:Hroot; [|by intros ?%elem_of_nil].
    intros (q & -> & Hq%preorder_iter_elem)%list_elem_of_fmap.
    split; [by exists q|]. by rewrite subtree_app, Hroot.
  - intros [[q ->] Hs]. rewrite subtree_app in Hs.
    destruct (subtree t root) as [c|]; [|by destruct Hs].
    apply list_elem_of_fmap. exists q. split; [done|]. by apply preorder_iter_elem.
Qed.

Lemma is_leaf_at_app (t : tree) (p q : path) (c : tree) :
  subtree t p = Some c → is_leaf_at t (p ++ q) = is_leaf_at c q.
Proof. intros Hc. unfold is_leaf_at. by rewrite subtree_app, Hc. Qed.

Lemma leaves_below_elem (t : tree) (p leaf : path) :
  leaf ∈ leaves_below t p ↔ p `prefix_of` leaf ∧ is_leaf_at t leaf = true.
Proof.
  unfold leaves_below. split.
  - destruct (subtree t p) as [c|] eqn:Hc; [|by intros ?%elem_of_nil].
    intros (q & -> & [Hq _]%list_elem_of_filter)%list_elem_of_fmap.
    split; [by exists q|]. by rewrite (is_leaf_at_app t p q c Hc).
  - intros [[q ->] Hleaf].
    destruct (subtree t p) as [c|] eqn:Hc.
    + apply list_elem_of_fmap. exists q. split; [done|].
      rewrite (is_leaf_at_app t p q c Hc) in Hleaf.
      apply list_elem_of_filter. split; [done|].
      apply preorder_iter_elem. unfold is_leaf_at in Hleaf.
      by destruct (subtree c q); [eexists|].
    + unfold is_leaf_at in Hleaf. rewrite subtree_app, Hc in Hleaf. done.
Qed.

Lemma tree_has_leaf (t : tree) : ∃ q, is_leaf_at t q = true.
Proof.
  induction t as [l cs IH] using tree_ind_forall.
  destruct cs as [|c cs]; [by exists []|].
  apply Forall_cons in IH as [[q Hq] _]. exists (0 :: q).
  unfold is_leaf_at in *. simpl. done.
Qed.

Lemma leaves_below_nonempty (t : tree) (p : path) :
  is_Some (subtree t p) → leaves_below t p ≠ [].
Proof.
  intros [c Hc]. destruct (tree_has_leaf c) as [q Hq].
  assert (Hin : p ++ q ∈ leaves_below t p).
  { apply leaves_below_elem. split; [by exists q|].
    by rewrite (is_leaf_at_app t p q c Hc). }
  intros Hnil. rewrite Hnil in Hin. by apply elem_of_nil in Hin.
Qed.

(** ** The search root *)

Lemma parents_of_record_fold (taxa : list string) (indices : list nat)
      (p : gmap string (list string)) :
  (∀ k l, p !! k = Some l → l ≠ []) →
  let p' := foldl (λ p i, match taxa !! i with
                          | Some taxon => if i =? 0 then p else <[taxon := take i taxa]> p
                          | None => p
                          end) p indices in
  (∀ k l, p' !! k = Some l → l ≠ [])
  ∧ (∀ k, is_Some (p !! k) → is_Some (p' !! k))
  ∧ (∀ i taxon, i ∈ indices → i ≠ 0 → taxa !! i = Some taxon → is_Some (p' !! taxon)).
Proof.
  revert p. induction indices as [|i indices IH]; intros p Hp; simpl.
  - split; [done|]. split; [done|]. by intros i taxon ?%elem_of_nil.
  - set (p1 := match taxa !! i with Some _ => _ | None => _ end).
    assert (Hp1 : ∀ k l, p1 !! k = Some l → l ≠ []).
    { subst p1. destruct (taxa !! i) as [taxon|] eqn:Hi; [|done].
      destruct (Nat.eqb_spec i 0) as [|Hne]; [done|].
      intros k l. destruct (decide (k = taxon)) as [->|].
      - rewrite lookup_insert_eq. intros [= <-] Hnil.
        apply lookup_lt_Some in Hi. apply (f_equal length) in Hnil.
        rewrite length_take in Hnil. simpl in Hnil. lia.
      - rewrite lookup_insert_ne by done. apply Hp. }
    assert (Hmono : ∀ k, is_Some (p !! k) → is_Some (p1 !! k)).
    { subst p1. intros k Hk. destruct (taxa !! i) as [taxon|]; [|done].
      destruct (i =? 0); [done|]. destruct (decide (k = taxon)) as [->|].
      - rewrite lookup_insert_eq. by eexists.
      - by rewrite lookup_insert_ne. }
    destruct (IH p1 Hp1) as (IH1 & IH2 & IH3). split; [done|]. split.
    + intros k Hk. by apply IH2, Hmono.
    + intros j taxon [-> | Hin]%elem_of_cons Hj Htaxon; [|by eapply IH3].
      apply IH2. subst p1. rewrite Htaxon. apply Nat.eqb_neq in Hj. rewrite Hj.
      rewrite lookup_insert_eq. by eexists.
Qed.

Lemma parents_spec (taxonomy : taxonomy_dict) :
  (∀ k l, Taxonomy.parents taxonomy !! k = Some l → l ≠ [])
  ∧ (∀ leaf taxa i taxon, (leaf, taxa) ∈ taxonomy → i ≠ 0 → taxa !! i = Some taxon →
                          is_Some (Taxonomy.parents taxonomy !! taxon)).
Proof.
  unfold Taxonomy.parents.
  assert (H : ∀ p, (∀ k l, p !! k = Some l → l ≠ []) →
    let p' := foldl (λ p (entry : string * list string),
                       Taxonomy.parents_of_record entry.2 p) p taxonomy in
    (∀ k l, p' !! k = Some l → l ≠ [])
    ∧ (∀ k, is_Some (p !! k) → is_Some (p' !! k))
    ∧ (∀ leaf taxa i taxon, (leaf, taxa) ∈ taxonomy → i ≠ 0 → taxa !! i = Some taxon →
                            is_Some (p' !! taxon))).
  { induction taxonomy as [|[leaf0 taxa0] taxonomy IH]; intros p Hp; simpl.
    - split; [done|]. split; [done|]. by intros leaf taxa i taxon ?%elem_of_nil.
    - destruct (parents_of_record_fold taxa0 (seq 0 (length taxa0)) p Hp)
        as (H1 & H2 & H3).
      destruct (IH _ H1) as (IH1 & IH2 & IH3). split; [done|]. split.
      + intros k Hk. by apply IH2, H2.
      + intros leaf taxa i taxon [[= -> ->] | Hin]%elem_of_cons Hi Htaxon;
          [|by eapply IH3].
        apply IH2. eapply H3; [|done..].
        apply elem_of_seq. apply lookup_lt_Some in Htaxon. lia. }
  destruct (H ∅) as (H1 & _ & H3); [by intros k l ?%lookup_empty_Some|]. done.
Qed.

Lemma parent_taxon_defined (taxonomy : taxonomy_dict) (rank_index : nat) (taxon : string) :
  rank_index ≠ 0 →
  taxon ∈ Taxonomy.named_lineages_at_rank taxonomy rank_index →
  ∃ parent_taxon, last (Taxonomy.parents taxonomy !!! taxon) = Some parent_taxon.
Proof.
  intros Hr (leaf & taxa & Hin & Ht & _)%named_lineage_entry.
  destruct (parents_spec taxonomy) as [Hne Hpresent].
  destruct (Hpresent leaf taxa rank_index taxon Hin Hr Ht) as [l Hl].
  rewrite lookup_total_alt, Hl. simpl. specialize (Hne _ _ Hl).
  destruct (last l) as [parent_taxon|] eqn:Hlast; [by eexists|].
  by apply last_None in Hlast.
Qed.

Lemma common_prefix_l (p q : path) : common_prefix p q `prefix_of` p.
Proof.
  revert q. induction p as [|i p IH]; intros [|j q]; simpl; try apply prefix_nil.
  destruct (Nat.eqb_spec i j) as [->|]; [|apply prefix_nil].
  apply prefix_cons, IH.
Qed.

Lemma common_prefix_r (p q : path) : common_prefix p q `prefix_of` q.
Proof.
  revert q. induction p as [|i p IH]; intros [|j q]; simpl; try apply prefix_nil.
  destruct (Nat.eqb_spec i j) as [->|]; [|apply prefix_nil].
  apply prefix_cons, IH.
Qed.

Lemma common_prefix_greatest (p q r : path) :
  r `prefix_of` p → r `prefix_of` q → r `prefix_of` common_prefix p q.
Proof.
  revert p q. induction r as [|k r IH]; intros p q Hp Hq; [apply prefix_nil|].
  destruct Hp as [p' ->], Hq as [q' ->]. simpl.
  rewrite Nat.eqb_refl. apply prefix_cons, IH; by eexists.
Qed.

Lemma mrca_foldl_spec (l : path) (ls : list path) :
  (∀ leaf, leaf ∈ l :: ls → foldl common_prefix l ls `prefix_of` leaf)
  ∧ (∀ node, (∀ leaf, leaf ∈ l :: ls → node `prefix_of` leaf) →
             node `prefix_of` foldl common_prefix l ls).
Proof.
  revert l. induction ls as [|l' ls IH]; intros l; simpl.
  - split.
    + by intros leaf ->%list_elem_of_singleton.
    + intros node H. apply H. by left.
  - destruct (IH (common_prefix l l')) as [IH1 IH2]. split.
    + intros leaf [-> | [-> | Hin]%elem_of_cons]%elem_of_cons.
      * etrans; [apply IH1; by left | apply common_prefix_l].
      * etrans; [apply IH1; by left | apply common_prefix_r].
      * apply IH1. by right.
    + intros node H. apply IH2.
      intros leaf [-> | Hin]%elem_of_cons.
      * apply common_prefix_greatest; apply H; [by left | right; by left].
      * apply H. right. by right.
Qed.

Lemma mrca_common_ancestor (leaves : list path) (leaf : path) :
  leaf ∈ leaves → mrca leaves `prefix_of` leaf.
Proof.
  destruct leaves as [|l ls]; [by intros ?%elem_of_nil|].
  apply mrca_foldl_spec.
Qed.

Lemma mrca_deepest (leaves : list path) (node : path) :
  leaves ≠ [] → (∀ leaf, leaf ∈ leaves → node `prefix_of` leaf) →
  node `prefix_of` mrca leaves.
Proof.
  destruct leaves as [|l ls]; [done|]. intros _. apply mrca_foldl_spec.
Qed.

Lemma escape_test (t : tree) (taxonomy : taxonomy_dict) (rank_index : nat)
      (taxon : string) (node : path) :
  (if Qlt_le_dec (Qnat (taxa_count_at taxonomy t node rank_index taxon))
                 ((1 # 2) * Qnat (taxa_in_tree taxonomy t taxon))
   then Some seed_node else Some node)
  = Some (after_escape t taxonomy rank_index taxon node).
Proof.
  unfold after_escape.
  destruct (Qlt_le_dec _ _) as [Hlt|Hge], (decide _) as [Hd|Hd]; try done.
  - destruct Hd. by apply fewer_than_half.
  - apply fewer_than_half in Hd. lra.
Qed.

(** ** Assignment of the unambiguous taxa *)

Lemma split_nonempty (sep : ascii) (s : string) : PyStr.split sep s ≠ [].
Proof.
  destruct s as [|c s]; simpl; [done|].
  destruct (Ascii.eqb c sep); [done|]. by destruct (PyStr.split sep s).
Qed.

Lemma split_app_sep (sep : ascii) (s1 s2 : string) :
  PyStr.split sep (String.append s1 (String sep s2))
  = PyStr.split sep s1 ++ PyStr.split sep s2.
Proof.
  induction s1 as [|c s1 IH]; simpl.
  - by rewrite Ascii.eqb_refl.
  - destruct (Ascii.eqb c sep); [by rewrite IH|].
    rewrite IH. pose proof (split_nonempty sep s1).
    by destruct (PyStr.split sep s1).
Qed.

Lemma tokens_of_space (s : string) : tokens_of (String " " s) = tokens_of s.
Proof.
  unfold tokens_of. cbn [PyStr.split]. change (Ascii.eqb " " ";") with false.
  pose proof (split_nonempty ";" s). by destruct (PyStr.split ";" s).
Qed.

Lemma tokens_of_append (old taxon : string) :
  tokens_of (String.append old (String.append "; " taxon))
  = tokens_of old ++ tokens_of taxon.
Proof.
  unfold tokens_of at 1.
  change (String.append "; " taxon) with (String ";" (String " " taxon)).
  rewrite split_app_sep, map_app. f_equal. apply tokens_of_space.
Qed.

Lemma insert_sorted_elem (x y : string) (l : list string) :
  y ∈ PyStr.insert_sorted x l ↔ y = x ∨ y ∈ l.
Proof.
  induction l as [|z l IH]; simpl.
  - rewrite list_elem_of_singleton, elem_of_nil. tauto.
  - destruct (String.leb x z); rewrite !elem_of_cons; [tauto|]. rewrite IH. tauto.
Qed.

Lemma sorted_elem (y : string) (l : list string) : y ∈ PyStr.sorted l ↔ y ∈ l.
Proof.
  unfold PyStr.sorted. induction l as [|x l IH]; simpl; [done|].
  rewrite insert_sorted_elem, elem_of_cons, IH. tauto.
Qed.

Lemma sort_taxa_elem (taxon : string) (taxa : list string) (reverse : bool) :
  taxon ∈ Taxonomy.sort_taxa taxa reverse
  ↔ taxon ∈ taxa ∧ has_rank_prefix taxon = true.
Proof.
  unfold Taxonomy.sort_taxa, has_rank_prefix.
  assert (H : taxon ∈ flat_map
                (λ rank_prefix, PyStr.sorted
                   (filter (λ taxon, PyStr.startswith taxon rank_prefix = true) taxa))
                Taxonomy.rank_prefixes
              ↔ taxon ∈ taxa
                ∧ existsb (PyStr.startswith taxon) Taxonomy.rank_prefixes = true).
  { rewrite list_elem_of_In, in_flat_map, existsb_exists. split.
    - intros (p & Hp & Hin). apply list_elem_of_In, sorted_elem, list_elem_of_filter in Hin.
      destruct Hin as [Hs Hin]. split; [done|]. by exists p.
    - intros (Hin & p & Hp & Hs). exists p. split; [done|].
      apply list_elem_of_In, sorted_elem, list_elem_of_filter. by split. }
  destruct reverse; [|done].
  by rewrite <- H, list_elem_of_In, <- in_rev, <- list_elem_of_In.
Qed.

Lemma has_rank_prefix_nonempty (taxon : string) :
  has_rank_prefix taxon = true → taxon ≠ EmptyString.
Proof. by intros H ->. Qed.

Lemma keys_elem (m : fmeasure_map) (taxon : string) :
  taxon ∈ keys m ↔ is_Some (m !! taxon).
Proof.
  unfold keys. rewrite list_elem_of_fmap. split.
  - intros ([k l] & -> & Hin%elem_of_map_to_list). by exists l.
  - intros [l Hl]. exists (taxon, l). split; [done|]. by apply elem_of_map_to_list.
Qed.

Lemma node_label_insert (lab : labels) (node node' : path) (l : label) :
  node_label (<[node := l]> lab) node'
  = if decide (node = node') then l else node_label lab node'.
Proof. unfold node_label. rewrite lookup_insert. by destruct (decide _). Qed.

Lemma label_tokens_appended (old : label) (taxon : string) :
  taxon ≠ EmptyString →
  label_tokens
    (create_label (label_support old)
       (Some (if PyStr.truthy (label_taxon old)
              then String.append (default EmptyString (label_taxon old))
                                 (String.append "; " taxon)
              else taxon))
       (label_aux_info old))
  = label_tokens old ++ tokens_of taxon.
Proof.
  intros Hne. unfold label_tokens, create_label. cbn [label_taxon].
  destruct (PyStr.truthy (label_taxon old)) eqn:Ht.
  - destruct (label_taxon old) as [s|]; [|done]. simpl in *.
    destruct s as [|c s]; [done|]. cbn [String.append PyStr.truthy String.eqb negb].
    apply (tokens_of_append (String c s)).
  - simpl. destruct taxon; [done|]. reflexivity.
Qed.

Lemma assign_taxon_single (m : fmeasure_map) (placed : gset string) (lab : labels)
      (taxon : string) (c : cand) :
  m !! taxon = Some [c] →
  assign_taxon m (placed, lab) taxon
  = ({[taxon]} ∪ placed,
     <[cand_node c :=
         create_label (label_support (node_label lab (cand_node c)))
           (Some (if PyStr.truthy (label_taxon (node_label lab (cand_node c)))
                  then String.append
                         (default EmptyString (label_taxon (node_label lab (cand_node c))))
                         (String.append "; " taxon)
                  else taxon))
           (label_aux_info (node_label lab (cand_node c)))]> lab).
Proof. unfold assign_taxon. intros ->. by destruct c. Qed.

Lemma assign_taxon_other (m : fmeasure_map) (st : gset string * labels) (taxon : string) :
  (∀ c, m !! taxon ≠ Some [c]) → assign_taxon m st taxon = st.
Proof.
  unfold assign_taxon. destruct st as [placed lab]. intros H.
  destruct (m !! taxon) as [[|[node f p r] [|c' l]]|]; try done.
  by destruct (H (Cand node f p r)).
Qed.

Lemma placed_on_single (m : fmeasure_map) (node : path) (taxon : string) (c : cand) :
  m !! taxon = Some [c] → placed_on m node taxon = bool_decide (cand_node c = node).
Proof. unfold placed_on. by intros ->. Qed.

Lemma placed_on_other (m : fmeasure_map) (node : path) (taxon : string) :
  (∀ c, m !! taxon ≠ Some [c]) → placed_on m node taxon = false.
Proof.
  unfold placed_on. intros H.
  destruct (m !! taxon) as [[|c [|c' l]]|]; try done. by destruct (H c).
Qed.

Lemma assign_fold_spec (m : fmeasure_map) (taxa : list string) (placed : gset string)
      (lab : labels) :
  Forall (λ taxon, taxon ≠ EmptyString) taxa →
  let st := foldl (assign_taxon m) (placed, lab) taxa in
  (∀ taxon, taxon ∈ st.1 ↔ taxon ∈ placed ∨ (taxon ∈ taxa ∧ ∃ c, m !! taxon = Some [c]))
  ∧ ∀ node,
      label_support (node_label st.2 node) = label_support (node_label lab node)
      ∧ label_aux_info (node_label st.2 node) = label_aux_info (node_label lab node)
      ∧ label_tokens (node_label st.2 node)
        = label_tokens (node_label lab node)
          ++ flat_map tokens_of (filter (λ taxon, placed_on m node taxon = true) taxa).
Proof.
  revert placed lab. induction taxa as [|x taxa IH]; intros placed lab Hne; cbn [foldl].
  - simpl. split.
    + intros taxon. rewrite elem_of_nil. tauto.
    + intros node. by rewrite app_nil_r.
  - apply Forall_cons in Hne as [Hx Hne].
    destruct (m !! x) as [[|c [|c' l]]|] eqn:Hm.
    2:{ rewrite (assign_taxon_single m placed lab x c Hm).
        edestruct (IH ({[x]} ∪ placed)) as [IH1 IH2]; [done|]. split.
        - intros taxon. rewrite IH1, elem_of_union, elem_of_singleton, elem_of_cons.
          split.
          + intros [[-> | ?] | [? ?]]; eauto.
          + intros [? | [[-> | ?] ?]]; [left; by right | left; by left | right; by split].
        - intros node. destruct (IH2 node) as (-> & -> & ->).
          rewrite !node_label_insert, filter_cons, (placed_on_single _ _ _ _ Hm).
          destruct (decide (cand_node c = node)) as [<-|Hn].
          + rewrite bool_decide_eq_true_2 by done.
            rewrite decide_True by done. simpl.
            rewrite label_tokens_appended by done. by rewrite <- app_assoc.
          + rewrite bool_decide_eq_false_2 by done.
            by rewrite decide_False by done. }
    all: rewrite assign_taxon_other by (intros c0; rewrite Hm; congruence).
    all: destruct (IH placed lab Hne) as [IH1 IH2]; split.
    all: try (intros taxon; rewrite IH1, elem_of_cons; split;
              [ intros [? | [? ?]]; [by left | right; split; [by right | done]]
              | intros [? | [[-> | ?] [c0 Hc0]]]; [by left | congruence | eauto] ]).
    all: intros node; destruct (IH2 node) as (-> & -> & ->).
    all: rewrite filter_cons, placed_on_other by (intros c0; rewrite Hm; congruence).
    all: done.
Qed.

(** C1: a taxon of the most general rank is searched from the seed node;
    a taxon of a finer rank whose parent taxon has no entry in the
    candidate map is skipped (the map is unchanged, and a taxon without
    entry is neither placed by the assignment nor reached by the resolver);
    with one candidate for the parent the search starts at its node, with
    several at the lowest common ancestor of the leaves below all of them:
    these are the leaves of the tree at or below the node of some
    candidate, there is one when the nodes are nodes of the tree, and the
    search starts at a common ancestor of these leaves that lies below
    every other one; in these two cases the seed node is used instead when
    the node holds fewer than half of the occurrences of the taxon in the
    tree. *)
Theorem search_root_by_cases (t : tree) (taxonomy : taxonomy_dict) (m : fmeasure_map)
        (rank_index : nat) (taxon : string) :
  (rank_index = 0 → search_root t taxonomy m rank_index taxon = Some seed_node)
  ∧ (rank_index ≠ 0 →
     ∀ parent_taxon,
       last (Taxonomy.parents taxonomy !!! taxon) = Some parent_taxon →
       (m !! parent_taxon = None →
        search_root t taxonomy m rank_index taxon = None
        ∧ process_taxon t taxonomy rank_index m taxon = m)
       ∧ (∀ d, m !! parent_taxon = Some [d] →
               search_root t taxonomy m rank_index taxon
               = Some (after_escape t taxonomy rank_index taxon (cand_node d)))
       ∧ (∀ data, m !! parent_taxon = Some data → 1 < length data →
                  let leaves := flat_map (leaves_below t) (map cand_node data) in
                  search_root t taxonomy m rank_index taxon
                  = Some (after_escape t taxonomy rank_index taxon (mrca leaves))
                  ∧ (∀ leaf, leaf ∈ leaves
                             ↔ is_leaf_at t leaf = true
                               ∧ ∃ d, d ∈ data ∧ cand_node d `prefix_of` leaf)
                  ∧ ((∀ d, d ∈ data → is_Some (subtree t (cand_node d))) → leaves ≠ [])
                  ∧ (∀ leaf, leaf ∈ leaves → mrca leaves `prefix_of` leaf)
                  ∧ (leaves ≠ [] →
                     ∀ node, (∀ leaf, leaf ∈ leaves → node `prefix_of` leaf) →
                             node `prefix_of` mrca leaves)))
  ∧ (rank_index ≠ 0 →
     taxon ∈ Taxonomy.named_lineages_at_rank taxonomy rank_index →
     ∃ parent_taxon, last (Taxonomy.parents taxonomy !!! taxon) = Some parent_taxon)
  ∧ (∀ m0 lab, m0 !! taxon = None →
                 (taxon ∉ (_assign_taxon_labels m0 lab).1)
                 ∧ taxon ∉ Taxonomy.sort_taxa (keys m0) true)
  ∧ (∀ node,
       after_escape t taxonomy rank_index taxon node
       = if decide (2 * taxa_count_at taxonomy t node rank_index taxon
                    < taxa_in_tree taxonomy t taxon)
         then seed_node else node).
Proof.
  split; [|split; [|split; [by apply parent_taxon_defined|split; [|done]]]].
  - by intros ->.
  - intros Hr parent_taxon Hp. apply Nat.eqb_neq in Hr.
    unfold process_taxon, search_root. rewrite Hr, Hp. split; [|split].
    + by intros ->.
    + intros d ->. simpl. apply escape_test.
    + intros data -> Hlen. split; [|split; [|split; [|split]]].
      * destruct data as [|d1 [|d2 data]]; simpl in *; [lia..|].
        apply escape_test.
      * intros leaf. rewrite list_elem_of_In, in_flat_map. split.
        -- intros (p & Hp'%list_elem_of_In & [Hpre Hleaf]%list_elem_of_In%leaves_below_elem).
           apply list_elem_of_fmap in Hp' as (d & -> & Hd).
           split; [done|]. by exists d.
        -- intros (Hleaf & d & Hd & Hpre). exists (cand_node d). split.
           ++ apply list_elem_of_In, list_elem_of_fmap. by exists d.
           ++ by apply list_elem_of_In, leaves_below_elem.
      * intros Hnodes. destruct data as [|d1 data]; [simpl in Hlen; lia|].
        simpl. intros [Hnil _]%app_eq_nil.
        apply (leaves_below_nonempty t (cand_node d1)); [|done].
        apply Hnodes. by left.
      * intros leaf. apply mrca_common_ancestor.
      * intros Hne node. by apply mrca_deepest.
  - intros m0 lab Hm0.
    assert (Hns : ∀ reverse, taxon ∉ Taxonomy.sort_taxa (keys m0) reverse).
    { intros reverse [[l Hl]%keys_elem _]%sort_taxa_elem. congruence. }
    split; [|done]. unfold _assign_taxon_labels.
    destruct (assign_fold_spec m0 (Taxonomy.sort_taxa (keys m0) false) ∅ lab) as [Hp _].
    { apply Forall_forall. intros x [_ Hx]%sort_taxa_elem.
      by apply has_rank_prefix_nonempty. }
    rewrite Hp. intros [[]%elem_of_empty | [Hin _]]. by apply (Hns false).
Qed.

Lemma search_root_by_cases_witness :
  let taxonomy := trim_taxonomy Examples.tree_lca Examples.taxonomy_lca in
  let data := [Cand [0] 1 1 1; Cand [0; 0] 1 1 1] in
  let leaves := [[0; 0; 0]; [0; 0; 1]; [0; 1; 0]; [0; 1; 1]; [0; 0; 0]; [0; 0; 1]] in
  Examples.fmeasure_lca !! "d__X"%string = Some data
  ∧ flat_map (leaves_below Examples.tree_lca) (map cand_node data) = leaves
  ∧ mrca leaves = [0]
  ∧ search_root Examples.tree_lca taxonomy Examples.fmeasure_lca 1 "p__P" = Some [0]
  ∧ (∀ leaf, leaf ∈ leaves
             ↔ is_leaf_at Examples.tree_lca leaf = true
               ∧ ∃ d, d ∈ data ∧ cand_node d `prefix_of` leaf).
Proof.
  intros taxonomy data leaves.
  assert (Hm : Examples.fmeasure_lca !! "d__X"%string = Some data)
    by (vm_compute; reflexivity).
  destruct (search_root_by_cases Examples.tree_lca taxonomy Examples.fmeasure_lca
              1 "p__P") as (_ & H & _).
  destruct (H ltac:(lia) "d__X"%string) as (_ & _ & Htied); [vm_compute; reflexivity|].
  destruct (Htied data Hm) as (Hroot & Hleaves & _); [simpl; lia|].
  assert (El : flat_map (leaves_below Examples.tree_lca) (map cand_node data) = leaves)
    by (vm_compute; reflexivity).
  rewrite El in Hroot, Hleaves.
  split; [exact Hm|]. split; [exact El|]. split; [vm_compute; reflexivity|].
  split; [|exact Hleaves].
  rewrite Hroot. vm_compute. reflexivity.
Defined.

(** C7, amended: the assignment visits the taxa of the candidate map that
    start with the prefix of a rank, ordered by rank and then by name; for
    such a taxon with exactly one candidate it writes on the node of the
    candidate the previous taxon string joined with the taxon by [; ] (the
    taxon alone on a node without taxon), with the support and the
    auxiliary text of the node; over the whole assignment no node changes
    its support or auxiliary text, the taxa named by a label are kept in
    place and the taxa placed on the node are added after them in the
    order of the assignment; the returned set holds exactly the taxa with
    a rank prefix and one candidate. *)
Theorem assignment_appends_and_preserves (m : fmeasure_map) (lab : labels) :
  let order := Taxonomy.sort_taxa (keys m) false in
  let placed_taxon := (_assign_taxon_labels m lab).1 in
  let lab' := (_assign_taxon_labels m lab).2 in
  (∀ taxon c placed0 lab0,
     m !! taxon = Some [c] →
     let old := node_label lab0 (cand_node c) in
     assign_taxon m (placed0, lab0) taxon
     = ({[taxon]} ∪ placed0,
        <[cand_node c :=
            create_label (label_support old)
              (Some (if PyStr.truthy (label_taxon old)
                     then String.append (default EmptyString (label_taxon old))
                                        (String.append "; " taxon)
                     else taxon))
              (label_aux_info old)]> lab0))
  ∧ (∀ node,
       label_support (node_label lab' node) = label_support (node_label lab node)
       ∧ label_aux_info (node_label lab' node) = label_aux_info (node_label lab node)
       ∧ label_tokens (node_label lab' node)
         = label_tokens (node_label lab node)
           ++ flat_map tokens_of (filter (λ taxon, placed_on m node taxon = true) order))
  ∧ (∀ taxon, taxon ∈ placed_taxon
              ↔ (∃ c, m !! taxon = Some [c]) ∧ has_rank_prefix taxon = true)
  ∧ (∀ taxon, taxon ∈ order ↔ is_Some (m !! taxon) ∧ has_rank_prefix taxon = true).
Proof.
  intros order placed_taxon lab'.
  assert (Horder : ∀ taxon, taxon ∈ order
                            ↔ is_Some (m !! taxon) ∧ has_rank_prefix taxon = true).
  { intros taxon. unfold order. by rewrite sort_taxa_elem, keys_elem. }
  assert (Hne : Forall (λ taxon, taxon ≠ EmptyString) order).
  { apply Forall_forall. intros taxon [_ Hp]%Horder. by apply has_rank_prefix_nonempty. }
  destruct (assign_fold_spec m order ∅ lab Hne) as [Hplaced Hlab].
  split; [|split; [|split]]; [|exact Hlab| |exact Horder].
  - intros taxon c placed0 lab0 Hm. by apply assign_taxon_single.
  - intros taxon. unfold placed_taxon, _assign_taxon_labels. fold order.
    rewrite Hplaced, Horder, elem_of_empty. split.
    + by intros [[] | [[_ Hp] Hc]].
    + intros [[c Hc] Hp]. right. split; [|by exists c]. split; [|done]. by rewrite Hc.
Qed.

Lemma assignment_appends_and_preserves_witness :
  let m := ExamplesResolve.fmeasure4 in
  "d__D1"%string ∈ (_assign_taxon_labels m ∅).1
  ∧ Taxonomy.sort_taxa (keys m) false = ["d__D1"; "d__D2"; "p__P1"; "p__P2"]%string
  ∧ label_tokens (node_label (_assign_taxon_labels m ∅).2 [0]) = ["d__D1"%string]
  ∧ label_tokens (node_label (_assign_taxon_labels m ∅).2 [0; 0]) = ["p__P1"%string].
Proof.
  intros m.
  destruct (assignment_appends_and_preserves m ∅) as (_ & Hlab & Hplaced & _).
  split; [|split; [|split]].
  - apply Hplaced. split; [eexists; vm_compute; reflexivity | reflexivity].
  - vm_compute. reflexivity.
  - destruct (Hlab [0]) as (_ & _ & ->). vm_compute. reflexivity.
  - destruct (Hlab [0; 0]) as (_ & _ & ->). vm_compute. reflexivity.
Defined.

(** C7, as stated, fails: on the tree ((A,B),(C,D)) with the phylum entry
    [Foo] for A and B the taxon [Foo] has exactly one candidate, the node
    (A,B); the assignment, which takes the taxa rank prefix by rank
    prefix, neither writes [Foo] on that node nor returns it. *)
Lemma single_candidate_not_placed :
  let m := Examples.fmeasure_foo_single in
  m !! "Foo"%string = Some [Cand [0] 1 1 1]
  ∧ ("Foo"%string ∉ (_assign_taxon_labels m ∅).1)
  ∧ (_assign_taxon_labels m ∅).2 !! [0] = None
  ∧ (_assign_taxon_labels m ∅).1 = {[ "d__D"%string ]}.
Proof.
  intros m.
  assert (E : _assign_taxon_labels m ∅
              = ({[ "d__D"%string ]}, {[ [] := Label None (Some "d__D"%string) None ]})).
  { vm_compute. reflexivity. }
  rewrite E. cbn [fst snd].
  split; [vm_compute; reflexivity|]. split; [|split; [|reflexivity]].
  - intros H%elem_of_singleton. discriminate H.
  - apply lookup_singleton_ne. discriminate.
Qed.

(** ** Resolution leaves one candidate per taxon *)

Lemma bind_Ok {A B : Type} (r : result A) (k : A → result B) (b : B) :
  (r ≫= k) = Ok b → ∃ a, r = Ok a ∧ k a = Ok b.
Proof. destruct r as [a|e]; [by exists a | done]. Qed.

Section ResolveFacts.
Variable median_rank_rd : gmap nat Q.
Variable rel_dist : path → Q.
Variable max_rd_diff : Q.

Lemma resolve_taxon_ok (m m' : fmeasure_map) (lab lab' : labels) (taxon : string) :
  resolve_taxon median_rank_rd rel_dist max_rd_diff (m, lab) taxon = Ok (m', lab') →
  (∃ d, m' !! taxon = Some [d])
  ∧ is_Some (m !! taxon)
  ∧ ∀ other, other ≠ taxon → m' !! other = m !! other.
Proof.
  unfold resolve_taxon.
  destruct (m !! taxon) as [candidates|] eqn:Hm; [|done].
  destruct (Nat.eqb_spec (length candidates) 1) as [Hlen|Hlen].
  - intros [= <- <-]. split; [|split; [by eexists | done]].
    destruct candidates as [|d [|d' l]]; try done. by exists d.
  - intros (rank_index & _ & H)%bind_Ok.
    apply bind_Ok in H as (rd & _ & H).
    apply bind_Ok in H as ([closest_index closest_node] & _ & H).
    apply bind_Ok in H as (d & _ & H). injection H as <- <-.
    split; [|split; [by eexists|]].
    + exists d. apply lookup_insert_eq.
    + intros other Hne. by rewrite lookup_insert_ne.
Qed.

Lemma resolve_fold_ok (taxa : list string) (st st' : fmeasure_map * labels) :
  foldM (resolve_taxon median_rank_rd rel_dist max_rd_diff) st taxa = Ok st' →
  (∀ taxon, taxon ∈ taxa → ∃ d, st'.1 !! taxon = Some [d])
  ∧ (∀ taxon, taxon ∉ taxa → st'.1 !! taxon = st.1 !! taxon)
  ∧ (∀ taxon, is_Some (st'.1 !! taxon) ↔ is_Some (st.1 !! taxon)).
Proof.
  revert st. induction taxa as [|x taxa IH]; intros st; simpl.
  - intros [= <-]. split; [by intros taxon ?%elem_of_nil | done].
  - intros ([m1 lab1] & Hstep & Hrest)%bind_Ok. destruct st as [m lab].
    apply resolve_taxon_ok in Hstep as ([d Hd] & Hin & Hother).
    destruct (IH _ Hrest) as (IH1 & IH2 & IH3). simpl in *.
    split; [|split].
    + intros taxon [-> | Hin']%elem_of_cons; [|by apply IH1].
      destruct (decide (x ∈ taxa)); [by apply IH1|].
      exists d. by rewrite IH2.
    + intros taxon [Hne Hnin]%not_elem_of_cons. by rewrite IH2, Hother.
    + intros taxon. rewrite IH3. destruct (decide (taxon = x)) as [->|Hne].
      * rewrite Hd. split; [done | by eexists].
      * by rewrite Hother.
Qed.
End ResolveFacts.

Lemma keep_last_ok (m m' : fmeasure_map) (taxon : string) :
  keep_last m taxon = Ok m' →
  (∃ d, m' !! taxon = Some [d])
  ∧ ∀ other, other ≠ taxon → m' !! other = m !! other.
Proof.
  unfold keep_last. destruct (m !! taxon) as [fmeasures|] eqn:Hm; [|done].
  destruct (Nat.eqb_spec (length fmeasures) 1) as [Hlen|Hlen].
  - intros [= <-]. split; [|done].
    destruct fmeasures as [|d [|d' l]]; try done. by exists d.
  - intros (d & _ & [= <-])%bind_Ok. split.
    + exists d. apply lookup_insert_eq.
    + intros other Hne. by rewrite lookup_insert_ne.
Qed.

Lemma keep_last_fold_ok (taxa : list string) (m m' : fmeasure_map) :
  foldM keep_last m taxa = Ok m' →
  (∀ taxon, taxon ∈ taxa → ∃ d, m' !! taxon = Some [d])
  ∧ (∀ taxon, taxon ∉ taxa → m' !! taxon = m !! taxon).
Proof.
  revert m. induction taxa as [|x taxa IH]; intros m; simpl.
  - intros [= <-]. split; [by intros taxon ?%elem_of_nil | done].
  - intros (m1 & Hstep & Hrest)%bind_Ok.
    apply keep_last_ok in Hstep as ([d Hd] & Hother).
    destruct (IH _ Hrest) as (IH1 & IH2). split.
    + intros taxon [-> | Hin']%elem_of_cons; [|by apply IH1].
      destruct (decide (x ∈ taxa)); [by apply IH1|].
      exists d. by rewrite IH2.
    + intros taxon [Hne Hnin]%not_elem_of_cons. by rewrite IH2, Hother.
Qed.

Lemma mapM_Ok {A B : Type} (f : A → result B) (l : list A) :
  (∀ x, x ∈ l → ∃ y, f x = Ok y) → ∃ ys, mapM f l = Ok ys.
Proof.
  induction l as [|x l IH]; intros H; simpl; [by eexists|].
  destruct (H x) as [y ->]; [by left|].
  destruct IH as [ys ->]; [intros z Hz; apply H; by right|]. by eexists.
Qed.

Lemma mapM_raise_only {A B : Type} (f : A → result B) (l : list A) (e : error) :
  (∀ x, x ∈ l → (∃ y, f x = Ok y) ∨ f x = Raise e) →
  (∃ x, x ∈ l ∧ f x = Raise e) → mapM f l = Raise e.
Proof.
  induction l as [|x l IH]; intros Hall (x0 & Hin & Hx0); [by apply elem_of_nil in Hin|].
  simpl. destruct (Hall x) as [[y Hy] | Hx]; [by left| |by rewrite Hx].
  rewrite Hy. simpl. rewrite IH; [done| |].
  - intros z Hz. apply Hall. by right.
  - apply elem_of_cons in Hin as [-> | Hin]; [congruence|]. by exists x0.
Qed.

Lemma statistics_row_cases (m : fmeasure_map) (taxon : string) (l : list cand) :
  m !! taxon = Some l →
  (length l = 1 ∧ ∃ row, statistics_row m taxon = Ok row)
  ∨ (length l ≠ 1 ∧ statistics_row m taxon = Raise SystemExit).
Proof.
  unfold statistics_row. intros ->.
  destruct l as [|[node f p r] [|c' l]]; simpl; [right|left|right]; eauto.
Qed.

Lemma run_single_candidates (t : tree) (input_labels : labels)
      (full_taxonomy : gmap string (list string)) (est : estimator)
      (skip_rd_refine : bool) (o : output) :
  run t input_labels full_taxonomy est skip_rd_refine = Ok o →
  ∀ taxon l, out_fmeasure_for_taxa o !! taxon = Some l →
             has_rank_prefix taxon = true → length l = 1.
Proof.
  unfold run.
  destruct (_assign_taxon_labels _ _) as [placed lab1].
  intros ([m2 lab2] & Hres & H)%bind_Ok.
  apply bind_Ok in H as (table & _ & H).
  apply bind_Ok in H as (lines & _ & [= <-]). simpl.
  intros taxon l Hl Hp. destruct skip_rd_refine; simpl in Hres.
  - apply bind_Ok in Hres as (m3 & Hfold & Hres).
    destruct (_assign_taxon_labels m3 _) as [placed' lab3]. injection Hres as <- <-.
    apply keep_last_fold_ok in Hfold as [Hin Hnin].
    match type of Hin with ∀ taxon, taxon ∈ keys ?m0 → _ =>
      destruct (decide (taxon ∈ keys m0)) as [Hk|Hk] end.
    + destruct (Hin taxon Hk) as [d Hd]. rewrite Hl in Hd. by injection Hd as ->.
    + rewrite Hnin in Hl by done. destruct Hk. apply keys_elem. by rewrite Hl.
  - unfold _resolve_ambiguous_placements in Hres.
    apply resolve_fold_ok in Hres as (Hin & Hnin & Hdom). cbn [fst snd] in *.
    destruct (Hin taxon) as [d Hd].
    + apply sort_taxa_elem. split; [|done]. apply keys_elem, Hdom. by rewrite Hl.
    + rewrite Hl in Hd. by injection Hd as ->.
Qed.

(** C5, amended: in a run that completes every taxon of the final
    candidate map that starts with the prefix of a rank has exactly one
    candidate; the resolver leaves one candidate to each of these taxa and
    the candidates of the other taxa as they are, and the selection of the
    last candidate, when the refinement is skipped, leaves one candidate to
    every taxon; the statistics step ends the run ([sys.exit] after the
    error message) as soon as a taxon with a rank prefix has a candidate
    list of another length, and writes the table otherwise. *)
Theorem resolution_leaves_one_candidate (t : tree) (input_labels : labels)
        (full_taxonomy : gmap string (list string)) (est : estimator)
        (skip_rd_refine : bool) (o : output) :
  run t input_labels full_taxonomy est skip_rd_refine = Ok o →
  (∀ taxon l, out_fmeasure_for_taxa o !! taxon = Some l →
              has_rank_prefix taxon = true → length l = 1)
  ∧ (∀ median_rank_rd rel_dist max_rd_diff m lab m' lab',
       _resolve_ambiguous_placements median_rank_rd rel_dist max_rd_diff m lab
       = Ok (m', lab') →
       (∀ taxon l, m' !! taxon = Some l → has_rank_prefix taxon = true → length l = 1)
       ∧ (∀ taxon, has_rank_prefix taxon = false → m' !! taxon = m !! taxon)
       ∧ (∀ taxon, is_Some (m' !! taxon) ↔ is_Some (m !! taxon)))
  ∧ (∀ m0 m1, foldM keep_last m0 (keys m0) = Ok m1 →
              ∀ taxon l, m1 !! taxon = Some l → length l = 1)
  ∧ (∀ m0 taxon l,
       m0 !! taxon = Some l → has_rank_prefix taxon = true → length l ≠ 1 →
       _write_statistics_table m0 = Raise SystemExit)
  ∧ (∀ m0,
       (∀ taxon l, m0 !! taxon = Some l → has_rank_prefix taxon = true → length l = 1) →
       ∃ rows, _write_statistics_table m0 = Ok rows).
Proof.
  intros Hrun. split; [by eapply run_single_candidates|]. split; [|split; [|split]].
  - intros median_rank_rd rel_dist max_rd_diff m lab m' lab' Hres.
    unfold _resolve_ambiguous_placements in Hres.
    apply resolve_fold_ok in Hres as (Hin & Hnin & Hdom). cbn [fst snd] in *.
    split; [|split; [|done]].
    + intros taxon l Hl Hp.
      destruct (Hin taxon) as [d Hd].
      * apply sort_taxa_elem. split; [|done]. apply keys_elem, Hdom. by rewrite Hl.
      * rewrite Hl in Hd. by injection Hd as ->.
    + intros taxon Hp. apply Hnin. intros [_ Hp']%sort_taxa_elem. congruence.
  - intros m0 m1 Hfold taxon l Hl.
    apply keep_last_fold_ok in Hfold as [Hin0 Hnin0].
    destruct (decide (taxon ∈ keys m0)) as [Hk|Hk].
    + destruct (Hin0 taxon Hk) as [d Hd]. rewrite Hl in Hd. by injection Hd as ->.
    + rewrite Hnin0 in Hl by done. destruct Hk. apply keys_elem. by rewrite Hl.
  - intros m0 taxon l Hl Hp Hlen. unfold _write_statistics_table.
    apply mapM_raise_only.
    + intros x [[l' Hx]%keys_elem _]%sort_taxa_elem.
      destruct (statistics_row_cases m0 x l' Hx) as [[_ ?] | [_ ?]]; auto.
    + exists taxon. split.
      * apply sort_taxa_elem. split; [|done]. apply keys_elem. by rewrite Hl.
      * by destruct (statistics_row_cases m0 taxon l Hl) as [[? _] | [_ ?]].
  - intros m0 Hall. unfold _write_statistics_table. apply mapM_Ok.
    intros x [[l' Hx]%keys_elem Hp]%sort_taxa_elem.
    destruct (statistics_row_cases m0 x l' Hx) as [[_ ?] | [Hlen _]]; [done|].
    destruct Hlen. by eapply Hall.
Qed.

Lemma resolution_leaves_one_candidate_witness :
  (∀ taxon l, out_fmeasure_for_taxa Examples.run_tied !! taxon = Some l →
              has_rank_prefix taxon = true → length l = 1)
  ∧ (∀ median_rank_rd rel_dist max_rd_diff m lab m' lab',
       _resolve_ambiguous_placements median_rank_rd rel_dist max_rd_diff m lab
       = Ok (m', lab') →
       (∀ taxon l, m' !! taxon = Some l → has_rank_prefix taxon = true → length l = 1)
       ∧ (∀ taxon, has_rank_prefix taxon = false → m' !! taxon = m !! taxon)
       ∧ (∀ taxon, is_Some (m' !! taxon) ↔ is_Some (m !! taxon)))
  ∧ (∀ m0 m1, foldM keep_last m0 (keys m0) = Ok m1 →
              ∀ taxon l, m1 !! taxon = Some l → length l = 1)
  ∧ (∀ m0 taxon l,
       m0 !! taxon = Some l → has_rank_prefix taxon = true → length l ≠ 1 →
       _write_statistics_table m0 = Raise SystemExit)
  ∧ (∀ m0,
       (∀ taxon l, m0 !! taxon = Some l → has_rank_prefix taxon = true → length l = 1) →
       ∃ rows, _write_statistics_table m0 = Ok rows).
Proof.
  apply (resolution_leaves_one_candidate Examples.tree_tied ∅ Examples.taxonomy_tied
           Examples.estimator_seed false Examples.run_tied).
  vm_compute. reflexivity.
Defined.

(** C5, as stated, fails: on the tree ((A,B),(C,D)) with the phylum entry
    [Foo] for A and B and no phylum for C and D, the seed node and the node
    (A,B) tie for [Foo]; the resolver and the statistics step take the taxa
    rank prefix by rank prefix and never reach [Foo]: the run completes,
    [Foo] keeps its two candidates and the table is written, with the row
    of the domain only. *)
Lemma unprefixed_taxon_keeps_two_candidates :
  run Examples.tree_tied ∅ Examples.taxonomy_foo_tied Examples.estimator_tied false
  = Ok Examples.run_foo_tied
  ∧ out_fmeasure_for_taxa Examples.run_foo_tied !! "Foo"%string
    = Some [Cand [] 1 1 1; Cand [0] 1 1 1]
  ∧ out_table Examples.run_foo_tied = [("d__D"%string, 1%Q, 1%Q, 1%Q)]
  ∧ has_rank_prefix "Foo" = false.
Proof.
  split; [vm_compute; reflexivity|]. split; [vm_compute; reflexivity|].
  split; vm_compute; reflexivity.
Qed.

(** ** The scan of the resolver *)

Lemma startswith_slice (taxon p : string) :
  String.length p = 3 →
  PyStr.startswith taxon p = String.eqb (PyStr.slice_to 3 taxon) p.
Proof.
  intros Hlen. unfold PyStr.startswith, PyStr.slice_to.
  destruct (String.prefix p taxon) eqn:Hp.
  - apply String.prefix_correct in Hp. rewrite Hlen in Hp. rewrite Hp.
    symmetry. apply String.eqb_refl.
  - symmetry. apply String.eqb_neq. intros Heq.
    assert (String.prefix p taxon = true); [|congruence].
    apply String.prefix_correct. by rewrite Hlen.
Qed.

Lemma prefix_position_index_of (taxon : string) (prefixes : list string) :
  Forall (λ p, String.length p = 3) prefixes →
  index_of (PyStr.slice_to 3 taxon) prefixes
  = match prefix_position taxon prefixes with
    | Some k => Ok k
    | None => Raise ValueError
    end.
Proof.
  induction prefixes as [|p ps IH]; [done|].
  intros [Hp Hps]%Forall_cons. cbn [index_of prefix_position].
  rewrite (startswith_slice taxon p Hp).
  destruct (String.eqb (PyStr.slice_to 3 taxon) p); [done|].
  rewrite (IH Hps). by destruct (prefix_position taxon ps).
Qed.

Lemma rank_prefixes_length : Forall (λ p, String.length p = 3) Taxonomy.rank_prefixes.
Proof. unfold Taxonomy.rank_prefixes. by repeat constructor. Qed.

Lemma rank_of_taxon_index_of (taxon : string) :
  index_of (PyStr.slice_to 3 taxon) Taxonomy.rank_prefixes
  = match rank_of_taxon taxon with
    | Some k => Ok k
    | None => Raise ValueError
    end.
Proof. apply prefix_position_index_of, rank_prefixes_length. Qed.

Lemma prefix_position_existsb (taxon : string) (prefixes : list string) :
  existsb (PyStr.startswith taxon) prefixes = true
  ↔ is_Some (prefix_position taxon prefixes).
Proof.
  induction prefixes as [|p ps IH]; simpl.
  - split; [done | by intros [? ?]].
  - destruct (PyStr.startswith taxon p); simpl; [by split; [eexists|]|].
    rewrite IH. by rewrite fmap_is_Some.
Qed.

Lemma has_rank_prefix_rank_of (taxon : string) :
  has_rank_prefix taxon = true ↔ is_Some (rank_of_taxon taxon).
Proof. apply prefix_position_existsb. Qed.

Lemma label_last_taxon_split (l : label) :
  label_last_taxon l
  = if PyStr.truthy (label_taxon l)
    then Some (PyStr.strip (List.last (PyStr.split ";" (default EmptyString (label_taxon l)))
                                      EmptyString))
    else None.
Proof.
  unfold label_last_taxon, label_tokens, tokens_of.
  destruct (PyStr.truthy (label_taxon l)); [|done].
  pose proof (split_nonempty ";" (default EmptyString (label_taxon l))) as Hne.
  induction (PyStr.split ";" (default EmptyString (label_taxon l))) as [|x [|y xs] IH];
    [done | done |].
  change (last (map PyStr.strip (x :: y :: xs))) with (last (map PyStr.strip (y :: xs))).
  change (List.last (x :: y :: xs) EmptyString) with (List.last (y :: xs) EmptyString).
  by apply IH.
Qed.

(** Lines 386-390 read the rank of the last taxon of the label, [-1] for
    a label without taxon, and raise ValueError when that taxon starts with
    no rank prefix. *)
Lemma cur_rank_index_spec (l : label) :
  cur_rank_index l
  = match label_last_taxon l with
    | None => Ok (-1)%Z
    | Some taxon =>
        match rank_of_taxon taxon with
        | Some k => Ok (Z.of_nat k)
        | None => Raise ValueError
        end
    end.
Proof.
  rewrite label_last_taxon_split. unfold cur_rank_index, parse_label.
  destruct (PyStr.truthy (label_taxon l)); [|done].
  rewrite rank_of_taxon_index_of. by destruct (rank_of_taxon _).
Qed.

Lemma cur_rank_index_readable (l : label) (rank_index : nat) :
  label_readable l →
  ∃ r, cur_rank_index l = Ok r
       ∧ (Z.of_nat rank_index <? r)%Z = label_more_specific l rank_index.
Proof.
  intros Hread. rewrite cur_rank_index_spec. unfold label_more_specific.
  destruct (label_last_taxon l) as [taxon|] eqn:Hl.
  - destruct (proj1 (has_rank_prefix_rank_of taxon) (Hread taxon Hl)) as [k Hk].
    rewrite Hk. exists (Z.of_nat k). split; [done|].
    destruct (Nat.ltb_spec rank_index k); [apply Z.ltb_lt | apply Z.ltb_ge]; lia.
  - exists (-1)%Z. split; [done|]. apply Z.ltb_ge. lia.
Qed.

Lemma cur_rank_index_Ok_readable (l : label) (r : Z) :
  cur_rank_index l = Ok r → label_readable l.
Proof.
  rewrite cur_rank_index_spec. intros H taxon Ht. rewrite Ht in H.
  apply has_rank_prefix_rank_of. by destruct (rank_of_taxon taxon); [eexists|].
Qed.

Lemma labels_readable_take (lab : labels) (candidates : list cand) (n : nat) :
  labels_readable lab candidates → labels_readable lab (take n candidates).
Proof.
  intros H d Hd. apply H. eapply elem_of_sublist; [exact Hd | apply sublist_take].
Qed.

Section ScanFacts.
Variable rel_dist : path → Q.
Variable max_rd_diff : Q.
Variable lab : labels.
Variable rank_index : nat.
Variable rd : Q.

Local Abbreviation elig := (eligible rel_dist max_rd_diff lab rank_index rd).
Local Abbreviation diff := (rd_diff rel_dist rd).

Lemma eligible_nil (j : nat) (d : cand) : ¬ elig [] j d.
Proof. by intros [H _]. Qed.

Lemma eligible_stop (d0 : cand) (rest : list cand) (j : nat) (d : cand) :
  more_specific lab rank_index d0 = true → ¬ elig (d0 :: rest) j d.
Proof. intros Hm (_ & Hlt & _). simpl in Hlt. rewrite Hm in Hlt. lia. Qed.

Lemma eligible_head (d0 : cand) (rest : list cand) (d : cand) :
  more_specific lab rank_index d0 = false →
  elig (d0 :: rest) 0 d ↔ d = d0 ∧ (diff d0 <= max_rd_diff)%Q.
Proof.
  intros Hm. unfold eligible. simpl. rewrite Hm. split.
  - intros ([= ->] & _ & Hd). done.
  - intros [-> Hd]. repeat split; [lia | done].
Qed.

Lemma eligible_tail (d0 : cand) (rest : list cand) (j : nat) (d : cand) :
  more_specific lab rank_index d0 = false →
  elig (d0 :: rest) (S j) d ↔ elig rest j d.
Proof.
  intros Hm. unfold eligible. simpl. rewrite Hm.
  split; intros (? & ? & ?); repeat split; try done; lia.
Qed.

Lemma scan_spec (candidates : list cand) (i : nat) (closest : option (nat * path))
      (closest_dist : Q) :
  labels_readable lab (scanned lab rank_index candidates) →
  ∃ res, scan rel_dist max_rd_diff lab rank_index rd i candidates closest closest_dist
         = Ok res
    ∧ (((∀ j d, elig candidates j d → (closest_dist <= diff d)%Q)
        ∧ res = match closest with
                | Some c => Some c
                | None =>
                    match candidates !! stop_index lab rank_index candidates with
                    | Some d => Some (i + stop_index lab rank_index candidates, cand_node d)
                    | None => None
                    end
                end)
       ∨ (∃ j d, res = Some (i + j, cand_node d)
                 ∧ elig candidates j d
                 ∧ (diff d < closest_dist)%Q
                 ∧ (∀ j' d', elig candidates j' d' → (diff d <= diff d')%Q)
                 ∧ (∀ j' d', j' < j → elig candidates j' d' → (diff d < diff d')%Q))).
Proof.
  revert i closest closest_dist.
  induction candidates as [|d0 rest IH]; intros i closest closest_dist Hread.
  - exists closest. split; [done|]. left. split.
    + intros j d H. by apply eligible_nil in H.
    + by destruct closest.
  - destruct (cur_rank_index_readable (node_label lab (cand_node d0)) rank_index)
      as (r & Hr & Hrm).
    { apply Hread. unfold scanned. simpl. by left. }
    fold (more_specific lab rank_index d0) in Hrm.
    cbn [scan]. rewrite Hr. cbn [mbind result_bind]. rewrite Hrm.
    destruct (more_specific lab rank_index d0) eqn:Hm.
    + assert (Hm' := Hm).
      exists (match closest with Some c => Some c | None => Some (i, cand_node d0) end).
      split; [by destruct closest|]. left. split.
      * intros j d H. by apply eligible_stop in H.
      * cbn [stop_index]. rewrite Hm'. simpl. rewrite Nat.add_0_r. by destruct closest.
    + assert (Hm' := Hm).
      assert (Hread' : labels_readable lab (scanned lab rank_index rest)).
      { intros d Hd. apply Hread. unfold scanned in *. cbn [stop_index].
        rewrite Hm. simpl. by right. }
      fold (diff d0). cbn [stop_index]. rewrite Hm'.
      destruct (Qlt_le_dec max_rd_diff (diff d0)) as [Hout|Hin].
      * (* outside the tolerance: continue *)
        destruct (IH (S i) closest closest_dist Hread') as (res & -> & Hres).
        exists res. split; [done|]. destruct Hres as [[Hno ->] | (j & d & -> & He & Hlt & Hmin & Hfirst)].
        -- left. split.
           ++ intros [|j] d H.
              ** apply eligible_head in H as [-> H]; [lra | done].
              ** apply eligible_tail in H; [by eapply Hno | done].
           ++ destruct closest; [done|]. simpl.
              destruct (rest !! _); [|done]. do 2 f_equal. lia.
        -- right. exists (S j), d. replace (i + S j) with (S i + j) by lia.
           split; [done|]. split; [by apply eligible_tail|]. split; [done|]. split.
           ++ intros [|j'] d' H.
              ** apply eligible_head in H as [-> H]; [lra | done].
              ** apply eligible_tail in H; [by eapply Hmin | done].
           ++ intros [|j'] d' Hj H.
              ** apply eligible_head in H as [-> H]; [lra | done].
              ** apply eligible_tail in H; [|done]. eapply Hfirst; [|done]. lia.
      * destruct (Qlt_le_dec (diff d0) closest_dist) as [Hbetter|Hworse].
        -- (* closer than the closest so far *)
           destruct (IH (S i) (Some (i, cand_node d0)) (diff d0) Hread')
             as (res & -> & Hres).
           exists res. split; [done|]. right.
           destruct Hres as [[Hno ->] | (j & d & -> & He & Hlt & Hmin & Hfirst)].
           ++ exists 0, d0. rewrite Nat.add_0_r. split; [done|].
              split; [by apply eligible_head|]. split; [done|]. split.
              ** intros [|j'] d' H.
                 --- apply eligible_head in H as [-> H]; [apply Qle_refl | done].
                 --- apply eligible_tail in H; [by eapply Hno | done].
              ** intros j' d' Hj. lia.
           ++ exists (S j), d. replace (i + S j) with (S i + j) by lia.
              split; [done|]. split; [by apply eligible_tail|]. split; [lra|]. split.
              ** intros [|j'] d' H.
                 --- apply eligible_head in H as [-> H]; [lra | done].
                 --- apply eligible_tail in H; [by eapply Hmin | done].
              ** intros [|j'] d' Hj H.
                 --- apply eligible_head in H as [-> H]; [lra | done].
                 --- apply eligible_tail in H; [|done]. eapply Hfirst; [|done]. lia.
        -- (* within the tolerance but not closer *)
           destruct (IH (S i) closest closest_dist Hread') as (res & -> & Hres).
           exists res. split; [done|].
           destruct Hres as [[Hno ->] | (j & d & -> & He & Hlt & Hmin & Hfirst)].
           ++ left. split.
              ** intros [|j] d H.
                 --- apply eligible_head in H as [-> H]; [lra | done].
                 --- apply eligible_tail in H; [by eapply Hno | done].
              ** destruct closest; [done|]. simpl.
                 destruct (rest !! _); [|done]. do 2 f_equal. lia.
           ++ right. exists (S j), d. replace (i + S j) with (S i + j) by lia.
              split; [done|]. split; [by apply eligible_tail|]. split; [done|]. split.
              ** intros [|j'] d' H.
                 --- apply eligible_head in H as [-> H]; [lra | done].
                 --- apply eligible_tail in H; [by eapply Hmin | done].
              ** intros [|j'] d' Hj H.
                 --- apply eligible_head in H as [-> H]; [lra | done].
                 --- apply eligible_tail in H; [|done]. eapply Hfirst; [|done]. lia.
Qed.

Lemma stop_index_le (candidates : list cand) :
  stop_index lab rank_index candidates ≤ length candidates.
Proof.
  induction candidates as [|d rest IH]; simpl; [done|].
  destruct (more_specific lab rank_index d); lia.
Qed.

Lemma stop_index_before (candidates : list cand) (j : nat) (d : cand) :
  candidates !! j = Some d → j < stop_index lab rank_index candidates →
  more_specific lab rank_index d = false.
Proof.
  revert j. induction candidates as [|d0 rest IH]; intros j; [done|]. simpl.
  destruct (more_specific lab rank_index d0) eqn:Hm; [lia|].
  destruct j as [|j]; simpl.
  - by intros [= <-].
  - intros Hj Hlt. apply (IH j); [done | lia].
Qed.

Lemma stop_index_at (candidates : list cand) (d : cand) :
  candidates !! stop_index lab rank_index candidates = Some d →
  more_specific lab rank_index d = true.
Proof.
  induction candidates as [|d0 rest IH]; [done|]. simpl.
  destruct (more_specific lab rank_index d0) eqn:Hm; simpl; [by intros [= <-] | done].
Qed.

Lemma select_spec (candidates : list cand) :
  labels_readable lab (scanned lab rank_index candidates) →
  (max_rd_diff < initial_closest_dist)%Q →
  candidates ≠ [] →
  ∃ i d, select rel_dist max_rd_diff lab rank_index rd candidates = Ok (i, cand_node d)
    ∧ candidates !! i = Some d
    ∧ i ≤ stop_index lab rank_index candidates
    ∧ ((∃ j d', elig candidates j d') →
       elig candidates i d
       ∧ (∀ j d', elig candidates j d' → (diff d <= diff d')%Q)
       ∧ (∀ j d', j < i → elig candidates j d' → (diff d < diff d')%Q))
    ∧ ((∀ j d', ¬ elig candidates j d') →
       (stop_index lab rank_index candidates < length candidates →
        i = stop_index lab rank_index candidates)
       ∧ (stop_index lab rank_index candidates = length candidates →
          i = length candidates - 1)).
Proof.
  intros Hread Hmax Hne. unfold select.
  destruct (scan_spec candidates 0 None initial_closest_dist Hread) as (res & -> & Hres).
  cbn [mbind result_bind].
  pose proof (stop_index_le candidates) as Hle.
  destruct Hres as [[Hno ->] | (j & d & -> & He & Hlt & Hmin & Hfirst)].
  - assert (Hnone : ∀ j d', ¬ elig candidates j d').
    { intros j d' He. pose proof (Hno j d' He). destruct He as (_ & _ & ?). lra. }
    destruct (candidates !! stop_index lab rank_index candidates) as [d|] eqn:Hstop.
    + exists (stop_index lab rank_index candidates), d. simpl.
      apply lookup_lt_Some in Hstop as Hlt.
      split; [done|]. split; [done|]. split; [lia|]. split.
      * intros (j & d' & He). by apply Hnone in He.
      * intros _. split; intros; lia.
    + apply lookup_ge_None in Hstop.
      unfold last_elem. rewrite last_lookup.
      destruct (candidates !! pred (length candidates)) as [d|] eqn:Hlast.
      2:{ apply lookup_ge_None in Hlast. destruct candidates; simpl in *; [done | lia]. }
      exists (length candidates - 1), d. cbn [mbind result_bind].
      replace (length candidates - 1) with (pred (length candidates)) by lia.
      split; [done|]. split; [done|]. split; [lia|]. split.
      * intros (j & d' & He). by apply Hnone in He.
      * intros _. split; intros; lia.
  - exists j, d. simpl. pose proof He as (Hj & Hjs & Hd).
    split; [done|]. split; [done|]. split; [lia|]. split.
    + intros _. done.
    + intros Hnone. by destruct (Hnone j d).
Qed.
End ScanFacts.

(** ** The traversal order and the hierarchy of the labels *)

Lemma path_lt_irrefl (p : path) : ¬ path_lt p p.
Proof. induction p as [|i p IH]; inversion 1; subst; [lia | by apply IH]. Qed.

Lemma path_lt_trans (p q r : path) : path_lt p q → path_lt q r → path_lt p r.
Proof.
  intros Hpq. revert r. induction Hpq as [i q | i j p q Hij | i p q Hpq IH]; intros r Hqr.
  - inversion Hqr; subst; constructor.
  - inversion Hqr; subst; constructor; lia.
  - inversion Hqr; subst; [by constructor | apply path_lt_tail; by apply IH].
Qed.

Lemma path_lt_app (r p q : path) : path_lt p q → path_lt (r ++ p) (r ++ q).
Proof. intros H. induction r as [|i r IH]; simpl; [done | by constructor]. Qed.

Lemma strict_descendant_lt (below above : path) :
  strict_descendant below above → path_lt above below.
Proof.
  intros [[k ->] Hne]. destruct k as [|i k]; [by rewrite app_nil_r in Hne|].
  rewrite <- (app_nil_r above) at 1. apply path_lt_app. constructor.
Qed.

Lemma preorder_forest_heads (i : nat) (cs : list tree) (p : path) :
  p ∈ preorder_forest i cs → ∃ k q, p = k :: q ∧ i ≤ k.
Proof.
  revert i. induction cs as [|c cs IH]; intros i; simpl; [by intros ?%elem_of_nil|].
  intros [(q & -> & _)%list_elem_of_fmap | Hin]%elem_of_app.
  - by exists i, q.
  - destruct (IH _ Hin) as (k & q & -> & Hk). exists k, q. split; [done | lia].
Qed.

Lemma preorder_forest_sorted (i : nat) (cs : list tree) :
  Forall (λ c, StronglySorted path_lt (preorder_iter c)) cs →
  StronglySorted path_lt (preorder_forest i cs).
Proof.
  revert i. induction cs as [|c cs IH]; intros i Hcs; simpl; [constructor|].
  apply Forall_cons in Hcs as [Hc Hcs]. apply StronglySorted_app_2.
  - intros p q (p' & -> & _)%list_elem_of_fmap Hq.
    destruct (preorder_forest_heads _ _ _ Hq) as (k & q' & -> & Hk).
    apply path_lt_head. lia.
  - apply (StronglySorted_fmap _ path_lt path_lt); [|done].
    intros p q Hpq. by constructor.
  - by apply IH.
Qed.

Lemma preorder_iter_sorted (t : tree) : StronglySorted path_lt (preorder_iter t).
Proof.
  induction t as [l cs IH] using tree_ind_forall.
  rewrite preorder_iter_unfold. apply StronglySorted_cons. split.
  - apply Forall_forall. intros p Hp.
    destruct (preorder_forest_heads _ _ _ Hp) as (k & q & -> & _). constructor.
  - by apply preorder_forest_sorted.
Qed.

Lemma preorder_from_sorted (t : tree) (root : path) :
  StronglySorted path_lt (preorder_from t root).
Proof.
  unfold preorder_from. destruct (subtree t root) as [c|]; [|constructor].
  apply (StronglySorted_fmap _ path_lt path_lt); [|apply preorder_iter_sorted].
  intros p q Hpq. by apply path_lt_app.
Qed.

Lemma sublist_StronglySorted {A : Type} (R : relation A) (l1 l2 : list A) :
  l1 `sublist_of` l2 → StronglySorted R l2 → StronglySorted R l1.
Proof.
  induction 1 as [|x l1 l2 Hsub IH|x l1 l2 Hsub IH]; intros Hs; [done|..].
  - apply StronglySorted_cons in Hs as [Hx Hs]. apply StronglySorted_cons. split; [|by apply IH].
    apply Forall_forall. intros y Hy. rewrite Forall_forall in Hx. apply Hx.
    by eapply sublist_subseteq.
  - apply StronglySorted_cons in Hs as [_ Hs]. by apply IH.
Qed.

Lemma StronglySorted_lookup_lt {A : Type} (R : relation A) (l : list A) (i j : nat) (x y : A) :
  StronglySorted R l → l !! i = Some x → l !! j = Some y → i < j → R x y.
Proof.
  intros Hs. revert i j. induction Hs as [|z l Hs IH Hz]; intros i j Hi Hj Hij; [done|].
  destruct j as [|j]; [lia|]. destruct i as [|i]; simpl in *.
  - injection Hi as ->. rewrite Forall_forall in Hz. apply Hz.
    by eapply list_elem_of_lookup_2.
  - apply (IH i j); [done..|lia].
Qed.

Section ResolverSelection.
Variable median_rank_rd : gmap nat Q.
Variable rel_dist : path → Q.
Variable max_rd_diff : Q.

Local Abbreviation elig := (eligible rel_dist max_rd_diff).
Local Abbreviation diff := (rd_diff rel_dist).

Lemma resolve_taxon_selected (m : fmeasure_map) (lab : labels) (taxon : string)
      (candidates : list cand) (rank_index : nat) (rd : Q) (i : nat) (d : cand) :
  m !! taxon = Some candidates →
  length candidates ≠ 1 →
  index_of (PyStr.slice_to 3 taxon) Taxonomy.rank_prefixes = Ok rank_index →
  median_rank_rd !! rank_index = Some rd →
  select rel_dist max_rd_diff lab rank_index rd candidates = Ok (i, cand_node d) →
  candidates !! i = Some d →
  resolve_taxon median_rank_rd rel_dist max_rd_diff (m, lab) taxon
  = Ok (<[taxon := [d]]> m,
        <[cand_node d := commit_label (node_label lab (cand_node d)) taxon]> lab).
Proof.
  intros Hm Hlen Hrank Hrd Hsel Hi. unfold resolve_taxon.
  rewrite Hm. apply Nat.eqb_neq in Hlen. rewrite Hlen, Hrank. cbn [mbind result_bind].
  rewrite Hrd. cbn [from_option mbind result_bind]. rewrite Hsel.
  cbn [mbind result_bind].
  by rewrite Hi.
Qed.

(** C3: for an ambiguous taxon the resolver scans the candidates in the
    order of the list (the traversal order) up to the first candidate
    whose label ends in a taxon of a strictly more specific rank; among
    the candidates scanned before it and within [max_rd_diff] of the
    expected divergence, the difference being computed in floats, it
    selects the first one at the smallest difference; when there is none
    it selects the candidate at which the scan stopped, and the last
    candidate of the list when the scan did not stop (the labels of the
    candidates that the scan reads can be read, and the tolerance is below
    the initial [1e9]). *)
Theorem resolver_selection (m : fmeasure_map) (lab : labels) (taxon : string)
        (candidates : list cand) (rank_index : nat) (rd : Q) :
  m !! taxon = Some candidates →
  1 < length candidates →
  rank_of_taxon taxon = Some rank_index →
  median_rank_rd !! rank_index = Some rd →
  labels_readable lab (scanned lab rank_index candidates) →
  (max_rd_diff < initial_closest_dist)%Q →
  let stop := stop_index lab rank_index candidates in
  ∃ i d,
    candidates !! i = Some d
    ∧ select rel_dist max_rd_diff lab rank_index rd candidates = Ok (i, cand_node d)
    ∧ resolve_taxon median_rank_rd rel_dist max_rd_diff (m, lab) taxon
      = Ok (<[taxon := [d]]> m,
            <[cand_node d := commit_label (node_label lab (cand_node d)) taxon]> lab)
    ∧ (∀ j d', candidates !! j = Some d' → j < stop →
               more_specific lab rank_index d' = false)
    ∧ (∀ d', candidates !! stop = Some d' → more_specific lab rank_index d' = true)
    ∧ i ≤ stop
    ∧ ((∃ j d', elig lab rank_index rd candidates j d') →
       elig lab rank_index rd candidates i d
       ∧ (∀ j d', elig lab rank_index rd candidates j d' → (diff rd d <= diff rd d')%Q)
       ∧ (∀ j d', j < i → elig lab rank_index rd candidates j d' →
                  (diff rd d < diff rd d')%Q))
    ∧ ((∀ j d', ¬ elig lab rank_index rd candidates j d') →
       (stop < length candidates → i = stop)
       ∧ (stop = length candidates → i = length candidates - 1)).
Proof.
  intros Hm Hlen Hrank Hrd Hread Hmax stop.
  assert (Hrank' : index_of (PyStr.slice_to 3 taxon) Taxonomy.rank_prefixes
                   = Ok rank_index).
  { by rewrite rank_of_taxon_index_of, Hrank. }
  destruct (select_spec rel_dist max_rd_diff lab rank_index rd candidates Hread Hmax)
    as (i & d & Hsel & Hi & Hle & Helig & Hnone).
  { intros ->. simpl in Hlen. lia. }
  exists i, d. split; [done|]. split; [done|]. split.
  { eapply resolve_taxon_selected; try done. lia. }
  split; [apply stop_index_before|]. split; [apply stop_index_at|]. done.
Qed.

(** C6, amended: among the tied candidates of an ambiguous taxon, listed
    in traversal order, the node that the resolver selects is never a
    strict descendant of a candidate whose label ends in a taxon of a
    strictly more specific rank. *)
Theorem resolver_keeps_above_more_specific_candidates
        (t : tree) (region : path) (m : fmeasure_map) (lab : labels) (taxon : string)
        (candidates : list cand) (rank_index : nat) (rd : Q) :
  m !! taxon = Some candidates →
  1 < length candidates →
  map cand_node candidates `sublist_of` preorder_from t region →
  index_of (PyStr.slice_to 3 taxon) Taxonomy.rank_prefixes = Ok rank_index →
  median_rank_rd !! rank_index = Some rd →
  labels_readable lab candidates →
  (max_rd_diff < initial_closest_dist)%Q →
  ∃ d, d ∈ candidates
    ∧ resolve_taxon median_rank_rd rel_dist max_rd_diff (m, lab) taxon
      = Ok (<[taxon := [d]]> m,
            <[cand_node d := commit_label (node_label lab (cand_node d)) taxon]> lab)
    ∧ ∀ d', d' ∈ candidates → more_specific lab rank_index d' = true →
            ¬ strict_descendant (cand_node d) (cand_node d').
Proof.
  intros Hm Hlen Hsub Hrank Hrd Hread Hmax.
  destruct (select_spec rel_dist max_rd_diff lab rank_index rd candidates
              (labels_readable_take lab candidates _ Hread) Hmax)
    as (i & d & Hsel & Hi & Hle & _).
  { intros ->. simpl in Hlen. lia. }
  exists d. split; [by eapply list_elem_of_lookup_2|]. split.
  { eapply resolve_taxon_selected; try done. lia. }
  intros d' [j Hj]%list_elem_of_lookup_1 Hspec Hdesc.
  assert (Hij : i ≤ j).
  { destruct (decide (j < stop_index lab rank_index candidates)) as [Hlt|]; [|lia].
    by rewrite (stop_index_before lab rank_index candidates j d' Hj Hlt) in Hspec. }
  apply strict_descendant_lt in Hdesc as Hlt.
  destruct (decide (i = j)) as [->|Hne].
  - rewrite Hi in Hj. injection Hj as ->. by apply path_lt_irrefl in Hlt.
  - assert (Hsorted : StronglySorted path_lt (map cand_node candidates)).
    { eapply sublist_StronglySorted; [done | apply preorder_from_sorted]. }
    assert (Hlt' : path_lt (cand_node d) (cand_node d')).
    { eapply (StronglySorted_lookup_lt _ _ i j); [done| | |lia].
      - by rewrite list_lookup_fmap, Hi.
      - by rewrite list_lookup_fmap, Hj. }
    apply (path_lt_irrefl (cand_node d)). by eapply path_lt_trans.
Qed.
End ResolverSelection.

Lemma resolver_selection_witness :
  let candidates := [Cand [] 1 1 1; Cand [0] 1 1 1; Cand [0; 0] 1 1 1] in
  Examples.fmeasure_chain !! "d__X"%string = Some candidates
  ∧ more_specific Examples.labels_chain 0 (Cand [0; 0] 1 1 1) = true
  ∧ stop_index Examples.labels_chain 0 candidates = 2
  ∧ (default_max_rd_diff < rd_diff Examples.rel_dist_tied (fl (3 # 10)) (Cand [] 1 1 1))%Q
  ∧ eligible Examples.rel_dist_tied default_max_rd_diff Examples.labels_chain 0
             (fl (3 # 10)) candidates 1 (Cand [0] 1 1 1)
  ∧ select Examples.rel_dist_tied default_max_rd_diff Examples.labels_chain 0
           (fl (3 # 10)) candidates = Ok (1, [0])
  ∧ resolve_taxon Examples.median_rank_rd_tied Examples.rel_dist_tied
                  default_max_rd_diff (Examples.fmeasure_chain, Examples.labels_chain)
                  "d__X"
    = Ok (<["d__X"%string := [Cand [0] 1 1 1]]> Examples.fmeasure_chain,
          <[ [0] := Label None (Some "d__X"%string) None ]> Examples.labels_chain).
Proof.
  intros candidates.
  assert (Hm : Examples.fmeasure_chain !! "d__X"%string = Some candidates)
    by (vm_compute; reflexivity).
  assert (Hstop : stop_index Examples.labels_chain 0 candidates = 2)
    by (vm_compute; reflexivity).
  assert (Es : select Examples.rel_dist_tied default_max_rd_diff Examples.labels_chain 0
                      (fl (3 # 10)) candidates = Ok (1, [0]))
    by (vm_compute; reflexivity).
  destruct (resolver_selection Examples.median_rank_rd_tied Examples.rel_dist_tied
              default_max_rd_diff Examples.fmeasure_chain Examples.labels_chain "d__X"
              candidates 0 (fl (3 # 10)))
    as (i & d & Hi & Hsel & Hres & _ & Hat & _ & Helig & _).
  - exact Hm.
  - simpl. lia.
  - reflexivity.
  - vm_compute. reflexivity.
  - unfold scanned. rewrite Hstop. intros d Hd taxon Ht.
    cbn [take candidates] in Hd.
    apply elem_of_cons in Hd as [-> | Hd]; [vm_compute in Ht; discriminate Ht|].
    apply elem_of_cons in Hd as [-> | Hd]; [vm_compute in Ht; discriminate Ht|].
    apply list_elem_of_singleton in Hd as ->.
    vm_compute in Ht. injection Ht as <-. reflexivity.
  - reflexivity.
  - rewrite Es in Hsel. injection Hsel as <- Hnode.
    assert (Hd : d = Cand [0] 1 1 1) by (cbn in Hi; congruence).
    rewrite Hd in Hres, Helig.
    assert (He : eligible Examples.rel_dist_tied default_max_rd_diff Examples.labels_chain
                          0 (fl (3 # 10)) candidates 1 (Cand [0] 1 1 1)).
    { split; [reflexivity|]. split; [rewrite Hstop; lia|]. vm_compute. discriminate. }
    split; [exact Hm|]. split.
    { apply Hat. rewrite Hstop. reflexivity. }
    split; [exact Hstop|]. split; [vm_compute; reflexivity|].
    split; [apply Helig; exists 1, (Cand [0] 1 1 1); exact He|].
    split; [exact Es|]. exact Hres.
Defined.

Lemma resolver_keeps_above_more_specific_candidates_witness :
  ∃ d, d ∈ Examples.candidates_tied
    ∧ resolve_taxon Examples.median_rank_rd_tied Examples.rel_dist_tied
                    default_max_rd_diff (Examples.fmeasure_tied, Examples.labels_tied) "d__X"
      = Ok (<["d__X"%string := [d]]> Examples.fmeasure_tied,
            <[cand_node d :=
                commit_label (node_label Examples.labels_tied (cand_node d)) "d__X"]>
              Examples.labels_tied)
    ∧ ∀ d', d' ∈ Examples.candidates_tied →
            more_specific Examples.labels_tied 0 d' = true →
            ¬ strict_descendant (cand_node d) (cand_node d').
Proof.
  apply (resolver_keeps_above_more_specific_candidates
           Examples.median_rank_rd_tied Examples.rel_dist_tied default_max_rd_diff
           Examples.tree_tied [] Examples.fmeasure_tied Examples.labels_tied "d__X"
           Examples.candidates_tied 0 (fl (3 # 10))).
  - vm_compute. reflexivity.
  - vm_compute. lia.
  - vm_compute. do 2 apply sublist_skip. apply sublist_nil_l.
  - reflexivity.
  - vm_compute. reflexivity.
  - intros d _ taxon Ht. unfold Examples.labels_tied, node_label in Ht.
    destruct (decide (cand_node d = [0])) as [E|Hne].
    + rewrite E in Ht. vm_compute in Ht. injection Ht as <-. reflexivity.
    + rewrite lookup_singleton_ne in Ht by done. discriminate Ht.
  - reflexivity.
Defined.

(** C6, as stated, fails: on the tree ((a,b),(c,c2,y1,...,y5)) the domain X
    is placed on the node (a,b), which holds half of its leaves, while the
    phylum P of X, with two of its three leaves outside that node, is
    searched from the seed node and placed there, above the domain. *)
Lemma hierarchy_not_preserved :
  run Examples.tree9 ∅ Examples.taxonomy9 Examples.estimator_tied false
  = Ok Examples.run9
  ∧ label_taxon (node_label (out_labels Examples.run9) []) = Some "p__P"%string
  ∧ label_taxon (node_label (out_labels Examples.run9) [0]) = Some "d__X"%string
  ∧ ¬ hierarchy_consistent (trim_taxonomy Examples.tree9 Examples.taxonomy9)
                           (out_labels Examples.run9).
Proof.
  split; [vm_compute; reflexivity|]. split; [vm_compute; reflexivity|].
  split; [vm_compute; reflexivity|].
  intros H. apply (H [0] [] "d__X"%string "p__P"%string).
  - split; [apply prefix_nil | done].
  - by_compute.
  - by_compute.
  - by_compute.
Qed.

(** ** Running again on a labelled tree *)

(** C8: the labels of a second run on the output of a first run differ
    from those of the first run: [_strip_taxon_labels] leaves the label of
    a node without support value in place, and the assignment appends the
    same taxon again. *)
Theorem rerun_duplicates_labels :
  run Examples.tree4 ∅ Examples.taxonomy4 Examples.estimator_tied false
  = Ok Examples.first_run4
  ∧ _strip_taxon_labels Examples.tree4 (out_labels Examples.first_run4)
    = out_labels Examples.first_run4
  ∧ run Examples.tree4 (out_labels Examples.first_run4) Examples.taxonomy4
        Examples.estimator_tied false
    = Ok Examples.second_run4
  ∧ label_taxon (node_label (out_labels Examples.first_run4) [0]) = Some "d__D1"%string
  ∧ label_taxon (node_label (out_labels Examples.second_run4) [0])
    = Some "d__D1; d__D1"%string.
Proof. repeat split; vm_compute; reflexivity. Qed.

(** * Further properties of the code *)

(** ** The trimmed taxonomy *)

Lemma dict_get_dict_set {V : Type} (k k' : string) (v : V) (d : list (string * V)) :
  dict_get k' (dict_set k v d) = if String.eqb k' k then Some v else dict_get k' d.
Proof.
  induction d as [|[k0 v0] d IH]; simpl.
  - by destruct (String.eqb k' k).
  - destruct (String.eqb_spec k k0) as [->|Hne]; simpl.
    + by destruct (String.eqb k' k0).
    + rewrite IH. destruct (String.eqb_spec k' k0) as [->|]; [|done].
      destruct (String.eqb_spec k0 k) as [->|]; done.
Qed.

Lemma trim_taxonomy_get (t : tree) (full_taxonomy : gmap string (list string))
      (leaf : string) :
  dict_get leaf (trim_taxonomy t full_taxonomy)
  = if decide (leaf ∈ leaf_iter t)
    then Some (default Taxonomy.rank_prefixes (full_taxonomy !! leaf))
    else None.
Proof.
  unfold trim_taxonomy.
  induction (leaf_iter t) as [|x leaves IH] using rev_ind.
  - simpl. destruct (decide (leaf ∈ [])) as [Hin|]; [by apply elem_of_nil in Hin | done].
  - rewrite foldl_app. simpl. rewrite dict_get_dict_set, IH.
    destruct (String.eqb_spec leaf x) as [->|Hne].
    + rewrite decide_True; [done|]. apply elem_of_app. right. by left.
    + destruct (decide (leaf ∈ leaves)) as [Hin|Hnin].
      * rewrite decide_True; [done|]. apply elem_of_app. by left.
      * rewrite decide_False; [done|].
        intros [? | ?%list_elem_of_singleton]%elem_of_app; done.
Qed.

Lemma trim_taxonomy_keys_all (t : tree) (full_taxonomy : gmap string (list string))
      (leaf : string) :
  leaf ∈ (trim_taxonomy t full_taxonomy).*1 ↔ leaf ∈ leaf_iter t.
Proof.
  split; [apply trim_taxonomy_keys|]. intros Hin.
  pose proof (trim_taxonomy_get t full_taxonomy leaf) as Hget.
  rewrite decide_True in Hget by done.
  apply dict_get_elem in Hget. apply list_elem_of_fmap. by eexists (_, _).
Qed.

(** X1: the taxonomy trimmed to the tree (lines 473-475) has exactly one entry
    per distinct leaf label of the tree: the record of the leaf in the full
    taxonomy, or the list of the bare rank prefixes when the full taxonomy
    does not know the leaf; a label that is not a leaf of the tree has no
    entry. *)
Theorem trimmed_taxonomy_lookup (t : tree) (full_taxonomy : gmap string (list string)) :
  (∀ leaf, leaf ∈ leaf_iter t →
           dict_get leaf (trim_taxonomy t full_taxonomy)
           = Some (default Taxonomy.rank_prefixes (full_taxonomy !! leaf)))
  ∧ (∀ leaf, leaf ∉ leaf_iter t → dict_get leaf (trim_taxonomy t full_taxonomy) = None)
  ∧ NoDup (trim_taxonomy t full_taxonomy).*1
  ∧ (∀ leaf taxa, (leaf, taxa) ∈ trim_taxonomy t full_taxonomy
                  ↔ leaf ∈ leaf_iter t
                    ∧ taxa = default Taxonomy.rank_prefixes (full_taxonomy !! leaf)).
Proof.
  split; [|split; [|split]].
  - intros leaf Hin. by rewrite trim_taxonomy_get, decide_True.
  - intros leaf Hin. by rewrite trim_taxonomy_get, decide_False.
  - apply trim_taxonomy_keys.
  - intros leaf taxa. split.
    + intros Hin.
      assert (Hleaf : leaf ∈ leaf_iter t).
      { apply (proj1 (trim_taxonomy_keys_all t full_taxonomy leaf)).
        apply list_elem_of_fmap. by exists (leaf, taxa). }
      split; [done|].
      apply dict_get_NoDup in Hin; [|apply trim_taxonomy_keys].
      rewrite trim_taxonomy_get, decide_True in Hin by done. by injection Hin.
    + intros [Hin ->]. apply dict_get_elem. by rewrite trim_taxonomy_get, decide_True.
Qed.

(** ** The profile of a node and of its children *)
Lemma length_filter_flat_map {A B : Type} (P : B → Prop) `{∀ x, Decision (P x)}
      (f : A → list B) (l : list A) :
  length (filter P (flat_map f l)) = sum_list (map (λ x, length (filter P (f x))) l).
Proof.
  induction l as [|x l IH]; simpl; [done|].
  by rewrite filter_app, length_app, IH.
Qed.

(** X2: the counts that lines 74-84 recompute for every node from its leaves
    add up over the children of an internal node: the number of leaves, the
    number of leaves with a named taxon at a rank and the number of leaves of
    a taxon are the sums of those of the children; a leaf counts for one
    leaf, and for one leaf of a taxon exactly when its record names the taxon
    at the rank. *)
Theorem profile_sums_over_children (taxonomy : taxonomy_dict) (l : string)
        (c : tree) (cs : list tree) (rank_index : nat) (taxon : string) :
  taxa_count taxonomy (Node l (c :: cs)) rank_index taxon
  = sum_list (map (λ child, taxa_count taxonomy child rank_index taxon) (c :: cs))
  ∧ num_leaves_with_taxa taxonomy (Node l (c :: cs)) rank_index
    = sum_list (map (λ child, num_leaves_with_taxa taxonomy child rank_index) (c :: cs))
  ∧ num_leaves (Node l (c :: cs)) = sum_list (map num_leaves (c :: cs))
  ∧ taxa_count taxonomy (Node l []) rank_index taxon
    = (if decide (record_of taxonomy l !! rank_index = Some taxon
                  ∧ Taxonomy.named rank_index taxon = true) then 1 else 0)
  ∧ num_leaves (Node l []) = 1.
Proof.
  unfold taxa_count, num_leaves_with_taxa, num_leaves.
  rewrite leaf_iter_node by done.
  split; [apply length_filter_flat_map|]. split; [apply length_filter_flat_map|].
  split.
  - generalize (c :: cs). intros l0. induction l0 as [|x l0 IH]; simpl; [done|].
    by rewrite length_app, IH.
  - split; [|done]. simpl. rewrite filter_cons, filter_nil. by destruct (decide _).
Qed.

Lemma seed_count_is_total (t : tree) (full_taxonomy : gmap string (list string))
      (rank_index : nat) (taxon : string) :
  NoDup (leaf_iter t) →
  taxa_count (trim_taxonomy t full_taxonomy) t rank_index taxon
  = total_taxa (trim_taxonomy t full_taxonomy) rank_index taxon.
Proof.
  intros Hnd. unfold taxa_count, total_taxa, Taxonomy.extant_taxa_for_rank.
  apply Permutation_length, NoDup_Permutation;
    [by apply NoDup_filter | apply NoDup_remove_dups |].
  intros leaf. rewrite list_elem_of_filter, elem_of_remove_dups, list_elem_of_fmap.
  split.
  - intros [[Hr Hn] Hin]. exists (leaf, record_of (trim_taxonomy t full_taxonomy) leaf).
    split; [done|]. apply list_elem_of_filter. split; [by split|].
    apply dict_get_elem. unfold record_of.
    by rewrite trim_taxonomy_get, decide_True.
  - intros ([leaf' taxa] & -> & [[Hr Hn] Hin]%list_elem_of_filter). simpl in *.
    assert (Hleaf : leaf' ∈ leaf_iter t).
    { apply (proj1 (trim_taxonomy_keys_all t full_taxonomy leaf')).
      apply list_elem_of_fmap. by exists (leaf', taxa). }
    split; [|done]. split; [|done].
    apply dict_get_NoDup in Hin; [|apply trim_taxonomy_keys].
    unfold record_of. by rewrite Hin.
Qed.

(** X3: when the leaf labels of the tree are distinct, the seed node holds
    every leaf of a taxon: its count is [total_taxa], no node has a larger
    count, and the recall of the seed node, where it is scored, is 1. *)
Theorem seed_node_holds_every_leaf_of_a_taxon (t : tree)
        (full_taxonomy : gmap string (list string)) (rank_index : nat) (taxon : string) :
  NoDup (leaf_iter t) →
  let taxonomy := trim_taxonomy t full_taxonomy in
  taxa_count_at taxonomy t seed_node rank_index taxon = total_taxa taxonomy rank_index taxon
  ∧ (∀ node, taxa_count_at taxonomy t node rank_index taxon
             ≤ taxa_count_at taxonomy t seed_node rank_index taxon)
  ∧ (∀ fmeasure precision recall,
       node_score t taxonomy rank_index taxon (total_taxa taxonomy rank_index taxon) seed_node
       = Some (fmeasure, precision, recall) →
       (recall == 1)%Q).
Proof.
  intros Hnd taxonomy.
  assert (Hseed : taxa_count_at taxonomy t seed_node rank_index taxon
                  = total_taxa taxonomy rank_index taxon).
  { unfold taxa_count_at. simpl. by apply seed_count_is_total. }
  split; [done|]. split.
  - intros node. rewrite Hseed. by apply taxa_count_at_le_total.
  - intros f p r. unfold node_score, score. rewrite Hseed.
    destruct (_ && _) eqn:Hb; [|done]. intros [= _ _ <-].
    apply andb_true_iff in Hb as [Ha%negb_true_iff%Nat.eqb_neq _].
    apply Qnat_pos in Ha.
    rewrite (fl_proper _ 1); [reflexivity|]. field. lra.
Qed.

Lemma seed_node_holds_every_leaf_of_a_taxon_witness :
  let taxonomy := trim_taxonomy Examples.tree4 Examples.taxonomy4 in
  taxa_count_at taxonomy Examples.tree4 seed_node 0 "d__D1"
  = total_taxa taxonomy 0 "d__D1"
  ∧ (∀ node, taxa_count_at taxonomy Examples.tree4 node 0 "d__D1"
             ≤ taxa_count_at taxonomy Examples.tree4 seed_node 0 "d__D1")
  ∧ (∀ fmeasure precision recall,
       node_score Examples.tree4 taxonomy 0 "d__D1" (total_taxa taxonomy 0 "d__D1") seed_node
       = Some (fmeasure, precision, recall) →
       (recall == 1)%Q).
Proof.
  apply (seed_node_holds_every_leaf_of_a_taxon Examples.tree4 Examples.taxonomy4 0 "d__D1").
  apply (bool_decide_unpack _). vm_compute. exact I.
Defined.

(** ** Candidates are scored nodes of the search region *)
Lemma maxima_tied (cs : list cand) (c c' : cand) :
  c ∈ maxima cs → c' ∈ maxima cs → (cand_fmeasure c == cand_fmeasure c')%Q.
Proof.
  unfold maxima. rewrite !list_elem_of_filter, !achieves_maximum_spec.
  intros [Hc Hin] [Hc' Hin']. apply Qle_antisym; auto.
Qed.

Lemma process_taxon_spec (t : tree) (taxonomy : taxonomy_dict) (rank_index : nat)
      (m : fmeasure_map) (taxon : string) :
  process_taxon t taxonomy rank_index m taxon
  = match search_root t taxonomy m rank_index taxon with
    | Some root =>
        match scored_candidates t taxonomy rank_index taxon (preorder_from t root) with
        | [] => m
        | cs => <[taxon := maxima cs]> m
        end
    | None => m
    end.
Proof.
  unfold process_taxon. destruct (search_root _ _ _ _ _); [apply search_from_spec | done].
Qed.

(** X4: for a taxon without an earlier entry, every candidate recorded by the
    search is a node of the tree at or below the search root, holds at least
    one leaf of the taxon and carries the score of its node. *)
Theorem candidates_lie_below_the_search_root (t : tree) (taxonomy : taxonomy_dict)
        (m : fmeasure_map) (rank_index : nat) (taxon : string) (root : path)
        (l : list cand) :
  m !! taxon = None →
  search_root t taxonomy m rank_index taxon = Some root →
  process_taxon t taxonomy rank_index m taxon !! taxon = Some l →
  Forall (λ c, root `prefix_of` cand_node c
               ∧ is_Some (subtree t (cand_node c))
               ∧ 1 ≤ taxa_count_at taxonomy t (cand_node c) rank_index taxon
               ∧ candidate_of t taxonomy rank_index taxon (cand_node c) = Some c) l.
Proof.
  intros Hm Hroot. rewrite process_taxon_spec, Hroot.
  destruct (scored_candidates _ _ _ _ _) as [|c0 cs] eqn:Hs; [by rewrite Hm|].
  rewrite lookup_insert_eq. intros [= <-]. apply Forall_forall.
  intros c [_ Hc]%list_elem_of_filter.
  rewrite <- Hs in Hc. apply scored_candidates_elem in Hc as [Hin Hc].
  apply preorder_from_elem in Hin as [Hpre Hsub].
  destruct (candidate_of_count _ _ _ _ _ _ Hc) as [Hcount _]. done.
Qed.

Lemma candidates_lie_below_the_search_root_witness :
  Forall (λ c, [] `prefix_of` cand_node c
               ∧ is_Some (subtree Examples.tree4 (cand_node c))
               ∧ 1 ≤ taxa_count_at (trim_taxonomy Examples.tree4 Examples.taxonomy4)
                                    Examples.tree4 (cand_node c) 0 "d__D1"
               ∧ candidate_of Examples.tree4
                              (trim_taxonomy Examples.tree4 Examples.taxonomy4)
                              0 "d__D1" (cand_node c) = Some c)
         [Cand [0] 1 1 1].
Proof.
  apply (candidates_lie_below_the_search_root Examples.tree4
           (trim_taxonomy Examples.tree4 Examples.taxonomy4) ∅ 0 "d__D1" []).
  - reflexivity.
  - reflexivity.
  - vm_compute. reflexivity.
Defined.


Lemma process_taxon_entries (t : tree) (taxonomy : taxonomy_dict) (rank_index : nat)
      (m : fmeasure_map) (taxon : string) :
  rank_index < length Taxonomy.rank_labels →
  taxon ∈ Taxonomy.named_lineages_at_rank taxonomy rank_index →
  entries_are_scores t taxonomy m →
  entries_are_scores t taxonomy (process_taxon t taxonomy rank_index m taxon).
Proof.
  intros Hr Hnamed Hm. rewrite process_taxon_spec.
  destruct (search_root _ _ _ _ _) as [root|]; [|done].
  destruct (scored_candidates _ _ _ _ _) as [|c0 cs] eqn:Hs; [done|].
  intros taxon' l. destruct (decide (taxon' = taxon)) as [->|Hne].
  - rewrite lookup_insert_eq. intros [= <-]. exists rank_index.
    split; [done|]. split; [done|]. split.
    + intros c [_ Hc]%list_elem_of_filter. rewrite <- Hs in Hc.
      by apply scored_candidates_elem in Hc as [_ Hc].
    + intros c c'. apply maxima_tied.
  - rewrite lookup_insert_ne by done. apply Hm.
Qed.

Lemma fmeasure_entries (t : tree) (taxonomy : taxonomy_dict) :
  entries_are_scores t taxonomy (_fmeasure t taxonomy).
Proof.
  unfold _fmeasure.
  assert (H : ∀ ranks m,
             (∀ r, r ∈ ranks → r < length Taxonomy.rank_labels) →
             entries_are_scores t taxonomy m →
             entries_are_scores t taxonomy (foldl (process_rank t taxonomy) m ranks)).
  { induction ranks as [|r ranks IH]; intros m Hranks Hm; [done|]. simpl.
    apply IH; [intros r' Hr'; apply Hranks; by right|].
    assert (Hr : r < length Taxonomy.rank_labels) by (apply Hranks; by left).
    unfold process_rank.
    assert (Hl : ∀ x, x ∈ Taxonomy.named_lineages_at_rank taxonomy r →
                      x ∈ Taxonomy.named_lineages_at_rank taxonomy r) by done.
    revert m Hm Hl.
    generalize (Taxonomy.named_lineages_at_rank taxonomy r) at 1 3.
    induction l as [|x l IHl]; intros m Hm Hl; [done|]. simpl.
    apply IHl; [|intros y Hy; apply Hl; by right].
    apply process_taxon_entries; [done| |done]. apply Hl. by left. }
  apply H.
  - intros r Hr%elem_of_seq. lia.
  - by intros taxon l ?%lookup_empty_Some.
Qed.

(** X5: every key of the result of [_fmeasure] is a named taxon of one of the
    seven ranks; each candidate of its list is a node of the tree that holds
    a leaf of the taxon and carries the score of that node, and the
    candidates of the list share one F-measure. *)
Theorem fmeasure_entries_are_scores_of_named_taxa (t : tree) (taxonomy : taxonomy_dict)
        (taxon : string) (l : list cand) :
  _fmeasure t taxonomy !! taxon = Some l →
  ∃ rank_index,
    rank_index < length Taxonomy.rank_labels
    ∧ taxon ∈ Taxonomy.named_lineages_at_rank taxonomy rank_index
    ∧ Forall (λ c, candidate_of t taxonomy rank_index taxon (cand_node c) = Some c
                   ∧ is_Some (subtree t (cand_node c))
                   ∧ 1 ≤ taxa_count_at taxonomy t (cand_node c) rank_index taxon
                   ∧ ∀ c', c' ∈ l → (cand_fmeasure c == cand_fmeasure c')%Q) l.
Proof.
  intros Hl. destruct (fmeasure_entries t taxonomy taxon l Hl)
    as (rank_index & Hr & Hnamed & Hscore & Htied).
  exists rank_index. split; [done|]. split; [done|].
  apply Forall_forall. intros c Hc. split; [by apply Hscore|].
  destruct (candidate_of_count _ _ _ _ _ _ (Hscore c Hc)) as [Hcount Hsub].
  split; [done|]. split; [done|]. intros c' Hc'. by apply Htied.
Qed.

Lemma fmeasure_entries_are_scores_of_named_taxa_witness :
  ∃ rank_index,
    rank_index < length Taxonomy.rank_labels
    ∧ "d__X"%string ∈ Taxonomy.named_lineages_at_rank
                        (trim_taxonomy Examples.tree_tied Examples.taxonomy_tied) rank_index
    ∧ Forall (λ c, candidate_of Examples.tree_tied
                     (trim_taxonomy Examples.tree_tied Examples.taxonomy_tied)
                     rank_index "d__X" (cand_node c) = Some c
                   ∧ is_Some (subtree Examples.tree_tied (cand_node c))
                   ∧ 1 ≤ taxa_count_at
                          (trim_taxonomy Examples.tree_tied Examples.taxonomy_tied)
                          Examples.tree_tied (cand_node c) rank_index "d__X"
                   ∧ ∀ c', c' ∈ Examples.candidates_tied →
                           (cand_fmeasure c == cand_fmeasure c')%Q)
             Examples.candidates_tied.
Proof.
  apply (fmeasure_entries_are_scores_of_named_taxa Examples.tree_tied
           (trim_taxonomy Examples.tree_tied Examples.taxonomy_tied) "d__X"
           Examples.candidates_tied).
  vm_compute. reflexivity.
Defined.

(** ** Clades that match a taxon exactly *)
Lemma candidate_of_bounds (t : tree) (taxonomy : taxonomy_dict) (rank_index : nat)
      (taxon : string) (node : path) (c : cand) :
  NoDup (leaf_iter t) →
  candidate_of t taxonomy rank_index taxon node = Some c →
  (0 < cand_precision c ∧ cand_precision c <= 1)%Q
  ∧ (0 < cand_recall c ∧ cand_recall c <= 1)%Q
  ∧ (0 < cand_fmeasure c ∧ cand_fmeasure c <= 1)%Q
  ∧ ((1 <= cand_fmeasure c)%Q → (cand_precision c == 1 ∧ cand_recall c == 1)%Q).
Proof.
  intros Hnd. unfold candidate_of, node_score, score.
  pose proof (taxa_count_at_le_named taxonomy t node rank_index taxon) as Hab.
  pose proof (taxa_count_at_le_total taxonomy t node rank_index taxon Hnd) as Hac.
  destruct (_ && _) eqn:Hb; [|done]. intros [= <-]. simpl.
  apply andb_true_iff in Hb as [Ha%negb_true_iff%Nat.eqb_neq _].
  destruct (ratio_bounds _ _ Ha Hab) as [Hp0 Hp1].
  destruct (ratio_bounds _ _ Ha Hac) as [Hr0 Hr1].
  destruct (harmonic_bounds _ _ Hp0 Hp1 Hr0 Hr1) as [Hf0 Hf1].
  split; [done|]. split; [done|]. split; [done|].
  apply harmonic_one.
  - apply exact_ratio_bounds; [done | lia].
  - apply exact_ratio_bounds; [done | lia].
Qed.

(** X6: with distinct leaf labels, a node of the search region whose leaves
    with a named taxon at the rank are exactly the leaves of the taxon is
    recorded among the candidates of the taxon, and every candidate of the
    taxon then has F-measure, precision and recall 1. *)
Theorem exact_clade_is_placed_with_fmeasure_one (t : tree) (taxonomy : taxonomy_dict)
        (m : fmeasure_map) (rank_index : nat) (taxon : string) (root node : path) :
  NoDup (leaf_iter t) →
  node ∈ preorder_from t root →
  taxa_count_at taxonomy t node rank_index taxon ≠ 0 →
  taxa_count_at taxonomy t node rank_index taxon
  = num_leaves_with_taxa_at taxonomy t node rank_index →
  taxa_count_at taxonomy t node rank_index taxon = total_taxa taxonomy rank_index taxon →
  ∃ l, search_from t taxonomy m rank_index taxon root !! taxon = Some l
       ∧ Exists (λ c, cand_node c = node) l
       ∧ Forall (λ c, (cand_fmeasure c == 1 ∧ cand_precision c == 1
                       ∧ cand_recall c == 1)%Q) l.
Proof.
  intros Hnd Hin Ha Hnamed Htotal.
  assert (Hc0 : ∃ c0, candidate_of t taxonomy rank_index taxon node = Some c0
                      ∧ cand_node c0 = node ∧ (cand_fmeasure c0 == 1)%Q).
  { unfold candidate_of, node_score, score. rewrite <- Hnamed, <- Htotal.
    apply Nat.eqb_neq in Ha as Ha'. rewrite Ha'. simpl.
    eexists. split; [done|]. split; [done|]. simpl.
    apply Qnat_pos in Ha.
    assert (E : (Qnat (taxa_count_at taxonomy t node rank_index taxon)
                 / Qnat (taxa_count_at taxonomy t node rank_index taxon) == 1)%Q)
      by (field; lra).
    rewrite (fl_proper _ 1 E). reflexivity. }
  destruct Hc0 as (c0 & Hc0 & Hnode & Hf0).
  assert (Hs0 : c0 ∈ scored_candidates t taxonomy rank_index taxon (preorder_from t root)).
  { apply scored_candidates_elem. by rewrite Hnode. }
  assert (Hle : ∀ c, c ∈ scored_candidates t taxonomy rank_index taxon (preorder_from t root) →
                     (cand_fmeasure c <= 1)%Q).
  { intros c [_ Hc]%scored_candidates_elem.
    by destruct (candidate_of_bounds _ _ _ _ _ _ Hnd Hc) as (_ & _ & [_ ?] & _). }
  rewrite search_from_spec.
  destruct (scored_candidates _ _ _ _ _) as [|c1 cs] eqn:Hs; [by apply elem_of_nil in Hs0|].
  exists (maxima (c1 :: cs)). rewrite lookup_insert_eq. split; [done|]. split.
  - apply Exists_exists. exists c0. split; [|done].
    apply list_elem_of_filter. split; [|done]. apply achieves_maximum_spec.
    intros c' Hc'. rewrite Hf0. by apply Hle.
  - apply Forall_forall. intros c [Hmax Hc]%list_elem_of_filter.
    rewrite achieves_maximum_spec in Hmax. specialize (Hmax c0 Hs0).
    rewrite <- Hs in Hc. apply scored_candidates_elem in Hc as [_ Hc].
    destruct (candidate_of_bounds _ _ _ _ _ _ Hnd Hc)
      as ([Hp0 Hp1] & [Hr0 Hr1] & [_ Hf1] & Hone).
    assert (H1 : (1 <= cand_fmeasure c)%Q) by (by rewrite <- Hf0).
    split; [by apply Qle_antisym|]. by apply Hone.
Qed.

Lemma exact_clade_is_placed_with_fmeasure_one_witness :
  ∃ l, search_from Examples.tree4 (trim_taxonomy Examples.tree4 Examples.taxonomy4)
                   ∅ 1 "p__P1" [0] !! "p__P1"%string = Some l
       ∧ Exists (λ c, cand_node c = [0; 0]) l
       ∧ Forall (λ c, (cand_fmeasure c == 1 ∧ cand_precision c == 1
                       ∧ cand_recall c == 1)%Q) l.
Proof.
  apply (exact_clade_is_placed_with_fmeasure_one Examples.tree4
           (trim_taxonomy Examples.tree4 Examples.taxonomy4) ∅ 1 "p__P1" [0] [0; 0]).
  - by_compute.
  - by_compute.
  - vm_compute. lia.
  - vm_compute. reflexivity.
  - vm_compute. reflexivity.
Defined.

(** ** The order of the taxa of a rank *)
Lemma search_root_ext (t : tree) (taxonomy : taxonomy_dict) (m1 m2 : fmeasure_map)
      (rank_index : nat) (taxon : string) :
  (∀ parent_taxon, last (Taxonomy.parents taxonomy !!! taxon) = Some parent_taxon →
                   m1 !! parent_taxon = m2 !! parent_taxon) →
  search_root t taxonomy m1 rank_index taxon = search_root t taxonomy m2 rank_index taxon.
Proof.
  intros H. unfold search_root. destruct (rank_index =? 0); [done|].
  destruct (last _) as [parent_taxon|]; [|done]. by rewrite (H parent_taxon).
Qed.

Lemma process_taxon_other (t : tree) (taxonomy : taxonomy_dict) (rank_index : nat)
      (m : fmeasure_map) (taxon other : string) :
  other ≠ taxon → process_taxon t taxonomy rank_index m taxon !! other = m !! other.
Proof.
  intros Hne. rewrite process_taxon_spec.
  destruct (search_root _ _ _ _ _); [|done].
  destruct (scored_candidates _ _ _ _ _); [done|]. by rewrite lookup_insert_ne.
Qed.

Lemma process_taxon_comm (t : tree) (taxonomy : taxonomy_dict) (rank_index : nat)
      (m : fmeasure_map) (x y : string) :
  last (Taxonomy.parents taxonomy !!! x) ≠ Some y →
  last (Taxonomy.parents taxonomy !!! y) ≠ Some x →
  process_taxon t taxonomy rank_index (process_taxon t taxonomy rank_index m x) y
  = process_taxon t taxonomy rank_index (process_taxon t taxonomy rank_index m y) x.
Proof.
  intros Hxy Hyx. destruct (decide (x = y)) as [->|Hne]; [done|].
  rewrite (process_taxon_spec _ _ _ (process_taxon _ _ _ m x) y).
  rewrite (process_taxon_spec _ _ _ (process_taxon _ _ _ m y) x).
  rewrite (search_root_ext t taxonomy (process_taxon t taxonomy rank_index m x) m _ y).
  2:{ intros p Hp. apply process_taxon_other. intros ->. by rewrite Hp in Hyx. }
  rewrite (search_root_ext t taxonomy (process_taxon t taxonomy rank_index m y) m _ x).
  2:{ intros p Hp. apply process_taxon_other. intros ->. by rewrite Hp in Hxy. }
  rewrite !process_taxon_spec.
  destruct (search_root t taxonomy m rank_index x) as [rx|],
           (search_root t taxonomy m rank_index y) as [ry|]; try done.
  destruct (scored_candidates t taxonomy rank_index x _) as [|cx csx],
           (scored_candidates t taxonomy rank_index y _) as [|cy csy]; try done.
  by apply insert_insert_ne.
Qed.

(** X7: the taxa of one rank can be processed in any order: when no taxon of
    the list is the parent taxon of another, two orderings of the list give
    the same candidate map. *)
Theorem taxa_of_a_rank_are_processed_in_any_order (t : tree) (taxonomy : taxonomy_dict)
        (rank_index : nat) (m : fmeasure_map) (taxa1 taxa2 : list string) :
  taxa1 ≡ₚ taxa2 →
  (∀ x y, x ∈ taxa1 → y ∈ taxa1 → last (Taxonomy.parents taxonomy !!! x) ≠ Some y) →
  foldl (process_taxon t taxonomy rank_index) m taxa1
  = foldl (process_taxon t taxonomy rank_index) m taxa2.
Proof.
  intros Hperm. revert m.
  induction Hperm as [|x l1 l2 Hperm IH|x y l|l1 l2 l3 H12 IH12 H23 IH23];
    intros m Hpar; simpl.
  - done.
  - apply IH. intros a b Ha Hb. apply Hpar; by right.
  - f_equal. apply process_taxon_comm; apply Hpar; (by left) || (right; by left).
  - rewrite IH12 by done. apply IH23.
    intros a b Ha Hb. apply Hpar; by rewrite H12.
Qed.

Lemma taxa_of_a_rank_are_processed_in_any_order_witness :
  foldl (process_taxon Examples.tree4 (trim_taxonomy Examples.tree4 Examples.taxonomy4) 1)
        (process_rank Examples.tree4 (trim_taxonomy Examples.tree4 Examples.taxonomy4) ∅ 0)
        ["p__P1"; "p__P2"]%string
  = foldl (process_taxon Examples.tree4 (trim_taxonomy Examples.tree4 Examples.taxonomy4) 1)
          (process_rank Examples.tree4 (trim_taxonomy Examples.tree4 Examples.taxonomy4) ∅ 0)
          ["p__P2"; "p__P1"]%string.
Proof.
  apply taxa_of_a_rank_are_processed_in_any_order.
  - apply perm_swap.
  - intros x y Hx Hy.
    assert (Hpar : last (Taxonomy.parents
                           (trim_taxonomy Examples.tree4 Examples.taxonomy4) !!! x)
                   = Some "d__D1"%string).
    { apply elem_of_cons in Hx as [-> | Hx]; [vm_compute; reflexivity|].
      apply list_elem_of_singleton in Hx as ->. vm_compute. reflexivity. }
    rewrite Hpar. intros [= <-].
    apply elem_of_cons in Hy as [Hy | Hy]; [done|].
    by apply list_elem_of_singleton in Hy.
Defined.

(** ** What [_strip_taxon_labels] resets *)

Lemma stripped_idemp (l : label) : stripped (stripped l) = stripped l.
Proof. unfold stripped. destruct (truthy_float (label_support l)) eqn:H; simpl; by rewrite H. Qed.

Lemma strip_node_label (st : labels) (x n : path) :
  node_label (strip_node st x) n
  = if decide (x = n) then stripped (node_label st n) else node_label st n.
Proof.
  unfold strip_node, stripped. simpl.
  destruct (decide (x = n)) as [->|Hne].
  - destruct (truthy_float _); [|done]. by rewrite node_label_insert, decide_True.
  - destruct (truthy_float _); [|done]. by rewrite node_label_insert, decide_False.
Qed.

Lemma strip_fold_label (st : labels) (nodes : list path) (n : path) :
  node_label (foldl strip_node st nodes) n
  = if decide (n ∈ nodes) then stripped (node_label st n) else node_label st n.
Proof.
  revert st. induction nodes as [|x nodes IH]; intros st; simpl.
  - destruct (decide (n ∈ [])) as [Hin|]; [by apply elem_of_nil in Hin | done].
  - rewrite IH, strip_node_label.
    destruct (decide (x = n)) as [->|Hne].
    + rewrite (decide_True (P := n ∈ n :: nodes)) by by left.
      destruct (decide (n ∈ nodes)); [apply stripped_idemp | done].
    + destruct (decide (n ∈ nodes)) as [Hin|Hnin].
      * rewrite decide_True; [done | by right].
      * rewrite decide_False; [done|]. by intros [?|?]%elem_of_cons.
Qed.

Lemma internal_nodes_elem (t : tree) (n : path) :
  n ∈ internal_nodes t ↔ is_internal_at t n = true.
Proof.
  unfold internal_nodes. rewrite list_elem_of_filter, preorder_iter_elem.
  split; [by intros [? _]|]. intros H. split; [done|].
  unfold is_internal_at in H. destruct (subtree t n); [by eexists | done].
Qed.

Lemma strip_node_fixed (st : labels) (x : path) :
  stripped (node_label st x) = node_label st x → strip_node st x = st.
Proof.
  unfold strip_node, stripped, node_label. simpl.
  destruct (st !! x) as [l|] eqn:Hx; simpl; [|done].
  destruct (truthy_float (label_support l)); [|done].
  intros Hl. rewrite Hl. by apply insert_id.
Qed.

Lemma strip_fold_fixed (st : labels) (nodes : list path) :
  (∀ x, x ∈ nodes → stripped (node_label st x) = node_label st x) →
  foldl strip_node st nodes = st.
Proof.
  induction nodes as [|x nodes IH]; intros H; simpl; [done|].
  rewrite strip_node_fixed by (apply H; by left).
  apply IH. intros y Hy. apply H. by right.
Qed.

(** X8: [_strip_taxon_labels] resets the label of exactly the internal nodes
    whose support value is set (neither None nor 0) to the support value
    alone, and leaves every other label as it is; it never changes a support
    value, applying it twice is the same as applying it once, and on a tree
    without support values it changes nothing. *)
Theorem strip_removes_taxon_and_auxiliary_text_where_support_is_set
        (t : tree) (lab : labels) :
  (∀ n, node_label (_strip_taxon_labels t lab) n
        = if is_internal_at t n && truthy_float (label_support (node_label lab n))
          then Label (label_support (node_label lab n)) None None
          else node_label lab n)
  ∧ (∀ n, label_support (node_label (_strip_taxon_labels t lab) n)
          = label_support (node_label lab n))
  ∧ _strip_taxon_labels t (_strip_taxon_labels t lab) = _strip_taxon_labels t lab
  ∧ ((∀ n, truthy_float (label_support (node_label lab n)) = false) →
     _strip_taxon_labels t lab = lab).
Proof.
  assert (Hlabel : ∀ st n, node_label (_strip_taxon_labels t st) n
            = if is_internal_at t n && truthy_float (label_support (node_label st n))
              then Label (label_support (node_label st n)) None None
              else node_label st n).
  { intros st n. unfold _strip_taxon_labels. rewrite strip_fold_label.
    destruct (decide (n ∈ internal_nodes t)) as [Hin|Hnin].
    - apply internal_nodes_elem in Hin. rewrite Hin. done.
    - destruct (is_internal_at t n) eqn:Hi; [|done].
      by apply internal_nodes_elem in Hi. }
  split; [apply Hlabel|]. split; [|split].
  - intros n. rewrite Hlabel. by destruct (_ && _).
  - unfold _strip_taxon_labels at 1. apply strip_fold_fixed.
    intros x Hx%internal_nodes_elem. rewrite Hlabel, Hx. simpl. unfold stripped.
    destruct (truthy_float (label_support (node_label lab x))) eqn:Hs; simpl;
      by rewrite Hs.
  - intros Hno. unfold _strip_taxon_labels. apply strip_fold_fixed.
    intros x _. unfold stripped. by rewrite Hno.
Qed.

(** ** What the assignment leaves alone *)
Lemma assign_fold_untouched (m : fmeasure_map) (taxa : list string)
      (placed : gset string) (lab : labels) (node : path) :
  (∀ taxon, taxon ∈ taxa → placed_on m node taxon = false) →
  (foldl (assign_taxon m) (placed, lab) taxa).2 !! node = lab !! node.
Proof.
  revert placed lab. induction taxa as [|x taxa IH]; intros placed lab H; cbn [foldl].
  - done.
  - assert (Hx : placed_on m node x = false) by (apply H; by left).
    assert (Hrest : ∀ taxon, taxon ∈ taxa → placed_on m node taxon = false).
    { intros taxon Hin. apply H. by right. }
    destruct (m !! x) as [[|c [|c' l]]|] eqn:Hm.
    2:{ rewrite (assign_taxon_single m placed lab x c Hm), IH by done.
        rewrite (placed_on_single _ _ _ _ Hm) in Hx.
        apply bool_decide_eq_false in Hx. by rewrite lookup_insert_ne. }
    all: rewrite assign_taxon_other by (intros c0; rewrite Hm; congruence).
    all: by apply IH.
Qed.

(** X9: [_assign_taxon_labels] leaves the label of a node untouched unless
    some taxon with a rank prefix has the node as its only candidate. *)
Theorem assignment_changes_only_the_nodes_of_single_candidates
        (m : fmeasure_map) (lab : labels) (node : path) :
  (∀ taxon c, m !! taxon = Some [c] → has_rank_prefix taxon = true → cand_node c ≠ node) →
  (_assign_taxon_labels m lab).2 !! node = lab !! node.
Proof.
  intros H. unfold _assign_taxon_labels. apply assign_fold_untouched.
  intros taxon [_ Hp]%sort_taxa_elem. unfold placed_on.
  destruct (m !! taxon) as [[|c [|c' l]]|] eqn:Hm; try done.
  apply bool_decide_eq_false. by apply (H taxon).
Qed.

Lemma assignment_changes_only_the_nodes_of_single_candidates_witness :
  Examples.fmeasure_foo_single !! "Foo"%string = Some [Cand [0] 1 1 1]
  ∧ Examples.fmeasure_foo_single !! "d__D"%string = Some [Cand [] 1 1 1]
  ∧ (_assign_taxon_labels Examples.fmeasure_foo_single Examples.labels_tied).2 !! [0]
    = Examples.labels_tied !! [0]
  ∧ (_assign_taxon_labels Examples.fmeasure_foo_single Examples.labels_tied).2 !! []
    ≠ Examples.labels_tied !! [].
Proof.
  assert (Heq : Examples.fmeasure_foo_single
                = {[ "Foo"%string := [Cand [0] 1 1 1];
                     "d__D"%string := [Cand [] 1 1 1];
                     "p__Q"%string := [Cand [1] 1 1 1; Cand [1; 0] 1 1 1] ]})
    by (vm_compute; reflexivity).
  split; [vm_compute; reflexivity|]. split; [vm_compute; reflexivity|]. split.
  - apply assignment_changes_only_the_nodes_of_single_candidates.
    intros taxon c Hm Hp. rewrite Heq in Hm.
    destruct (decide (taxon = "Foo"%string)) as [->|Hfoo]; [discriminate Hp|].
    rewrite lookup_insert_ne in Hm by done.
    destruct (decide (taxon = "d__D"%string)) as [->|Hd].
    + rewrite lookup_insert_eq in Hm. injection Hm as <-. discriminate.
    + rewrite lookup_insert_ne in Hm by done.
      apply lookup_singleton_Some in Hm as [_ Hm]. discriminate Hm.
  - vm_compute. discriminate.
Defined.

(** ** The resolver commits one of the candidates *)
Section ResolveFrame.
Variable median_rank_rd : gmap nat Q.
Variable rel_dist : path → Q.
Variable max_rd_diff : Q.

Lemma scan_result (lab : labels) (rank_index : nat) (rd : Q) (candidates : list cand)
      (i : nat) (closest : option (nat * path)) (closest_dist : Q)
      (j : nat) (node : path) :
  scan rel_dist max_rd_diff lab rank_index rd i candidates closest closest_dist
  = Ok (Some (j, node)) →
  closest = Some (j, node)
  ∨ ∃ d, candidates !! (j - i) = Some d ∧ i ≤ j ∧ node = cand_node d.
Proof.
  revert i closest closest_dist.
  induction candidates as [|d0 rest IH]; intros i closest closest_dist; cbn [scan].
  - intros [= ->]. by left.
  - intros (r & _ & H)%bind_Ok.
    assert (Hshift : ∀ d, rest !! (j - S i) = Some d → S i ≤ j →
                          (d0 :: rest) !! (j - i) = Some d).
    { intros d Hd Hle. replace (j - i) with (S (j - S i)) by lia. done. }
    destruct (Z.of_nat rank_index <? r)%Z.
    + destruct closest as [c|]; [left; congruence|].
      injection H as <- <-. right. exists d0. by rewrite Nat.sub_diag.
    + destruct (Qlt_le_dec _ _).
      * apply IH in H as [-> | (d & Hd & Hle & ->)]; [by left|].
        right. exists d. split; [by apply Hshift|]. split; [lia | done].
      * destruct (Qlt_le_dec _ _).
        -- apply IH in H as [[= <- <-] | (d & Hd & Hle & ->)].
           ++ right. exists d0. by rewrite Nat.sub_diag.
           ++ right. exists d. split; [by apply Hshift|]. split; [lia | done].
        -- apply IH in H as [-> | (d & Hd & Hle & ->)]; [by left|].
           right. exists d. split; [by apply Hshift|]. split; [lia | done].
Qed.

Lemma select_result (lab : labels) (rank_index : nat) (rd : Q) (candidates : list cand)
      (j : nat) (node : path) :
  select rel_dist max_rd_diff lab rank_index rd candidates = Ok (j, node) →
  ∃ d, candidates !! j = Some d ∧ node = cand_node d.
Proof.
  unfold select. intros ([[j' node']|] & Hscan & H)%bind_Ok.
  - injection H as -> ->. apply scan_result in Hscan as [? | (d & Hd & _ & ->)]; [done|].
    exists d. by rewrite Nat.sub_0_r in Hd.
  - apply bind_Ok in H as (d & Hlast & [= <- <-]). exists d. split; [|done].
    unfold last_elem in Hlast. rewrite last_lookup in Hlast.
    replace (length candidates - 1) with (pred (length candidates)) by lia.
    by destruct (candidates !! pred (length candidates)); [injection Hlast as ->|].
Qed.

Lemma resolve_taxon_step (m m' : fmeasure_map) (lab lab' : labels) (taxon : string) :
  resolve_taxon median_rank_rd rel_dist max_rd_diff (m, lab) taxon = Ok (m', lab') →
  ∃ l, m !! taxon = Some l
       ∧ ((length l = 1 ∧ m' = m ∧ lab' = lab)
          ∨ (length l ≠ 1
             ∧ ∃ d, d ∈ l ∧ m' = <[taxon := [d]]> m
                    ∧ lab' = <[cand_node d :=
                                 commit_label (node_label lab (cand_node d)) taxon]> lab)).
Proof.
  unfold resolve_taxon.
  destruct (m !! taxon) as [l|] eqn:Hm; [|done]. intros H. exists l. split; [done|].
  destruct (Nat.eqb_spec (length l) 1) as [Hlen|Hlen].
  - injection H as <- <-. by left.
  - right. split; [done|].
    apply bind_Ok in H as (rank_index & _ & H).
    apply bind_Ok in H as (rd & _ & H).
    apply bind_Ok in H as ([j node] & Hsel & H).
    apply bind_Ok in H as (d & Hd & [= <- <-]).
    apply select_result in Hsel as (d' & Hd' & ->).
    destruct (l !! j) as [d''|] eqn:Hj; [|done].
    injection Hd' as ->. simpl in Hd. injection Hd as ->.
    exists d. split; [by eapply list_elem_of_lookup_2 | done].
Qed.

Lemma commit_label_frame (l : label) (taxon : string) :
  label_support (commit_label l taxon) = label_support l
  ∧ label_aux_info (commit_label l taxon) = label_aux_info l.
Proof. done. Qed.

Lemma resolve_fold_frame (taxa : list string) (m m' : fmeasure_map) (lab lab' : labels) :
  foldM (resolve_taxon median_rank_rd rel_dist max_rd_diff) (m, lab) taxa = Ok (m', lab') →
  (∀ taxon l', m' !! taxon = Some l' →
               ∃ l, m !! taxon = Some l
                    ∧ (l' = l ∨ (length l ≠ 1 ∧ ∃ d, l' = [d] ∧ d ∈ l)))
  ∧ (∀ n, label_support (node_label lab' n) = label_support (node_label lab n)
          ∧ label_aux_info (node_label lab' n) = label_aux_info (node_label lab n))
  ∧ (∀ n, (∀ taxon l, taxon ∈ taxa → m !! taxon = Some l → length l ≠ 1 →
                      n ∉ map cand_node l) →
          lab' !! n = lab !! n).
Proof.
  revert m lab. induction taxa as [|x taxa IH]; intros m lab; simpl.
  - intros [= <- <-]. split; [|done]. intros taxon l' Hl'. exists l'. auto.
  - intros ([m1 lab1] & Hstep & Hrest)%bind_Ok.
    apply resolve_taxon_step in Hstep as (lx & Hx & Hcase).
    destruct (IH _ _ Hrest) as (IH1 & IH2 & IH3).
    destruct Hcase as [(Hlen & -> & ->) | (Hlen & d & Hd & -> & ->)].
    { split; [done|]. split; [done|]. intros n Hn. apply IH3.
      intros taxon l Hin. by apply Hn, list_elem_of_further. }
    split; [|split].
    + intros taxon l' Hl'. destruct (IH1 taxon l' Hl') as (l1 & Hl1 & Hrel).
      destruct (decide (taxon = x)) as [->|Hne].
      * rewrite lookup_insert_eq in Hl1. injection Hl1 as <-.
        exists lx. split; [done|]. right. split; [done|].
        destruct Hrel as [-> | (Hlen1 & _)]; [by exists d | done].
      * rewrite lookup_insert_ne in Hl1 by done. by exists l1.
    + intros n. destruct (IH2 n) as [-> ->]. rewrite node_label_insert.
      destruct (decide (cand_node d = n)) as [<-|]; [apply commit_label_frame | done].
    + intros n Hn. rewrite IH3.
      * apply lookup_insert_ne. intros <-. apply (Hn x lx (list_elem_of_here _ _) Hx Hlen).
        apply list_elem_of_fmap. by exists d.
      * intros taxon l Hin Hl Hlen'. destruct (decide (taxon = x)) as [->|Hne].
        -- rewrite lookup_insert_eq in Hl. by injection Hl as <-.
        -- rewrite lookup_insert_ne in Hl by done.
           by apply (Hn taxon l (list_elem_of_further _ _ _ Hin)).
Qed.

Lemma resolve_fold_single (taxa : list string) (m : fmeasure_map) (lab : labels) :
  (∀ taxon, taxon ∈ taxa → ∃ l, m !! taxon = Some l ∧ length l = 1) →
  foldM (resolve_taxon median_rank_rd rel_dist max_rd_diff) (m, lab) taxa = Ok (m, lab).
Proof.
  induction taxa as [|x taxa IH]; intros H; simpl; [done|].
  destruct (H x) as (l & Hl & Hlen); [by left|].
  unfold resolve_taxon at 1. rewrite Hl, Hlen. simpl.
  apply IH. intros taxon Hin. apply H. by right.
Qed.
End ResolveFrame.


(** X10: when [_resolve_ambiguous_placements] returns, every taxon with a rank
    prefix and a candidate list of another length than one keeps exactly one
    of its candidates; the entries with one candidate and those of taxa
    without rank prefix are unchanged, and no key is added. *)
Theorem resolver_commits_one_of_the_candidates
        (median_rank_rd : gmap nat Q) (rel_dist : path → Q) (max_rd_diff : Q)
        (m m' : fmeasure_map) (lab lab' : labels) :
  _resolve_ambiguous_placements median_rank_rd rel_dist max_rd_diff m lab = Ok (m', lab') →
  (∀ taxon, m !! taxon = None → m' !! taxon = None)
  ∧ (∀ taxon l, m !! taxon = Some l →
       (length l = 1 ∨ has_rank_prefix taxon = false → m' !! taxon = Some l)
       ∧ (length l ≠ 1 → has_rank_prefix taxon = true →
          ∃ d, d ∈ l ∧ m' !! taxon = Some [d])).
Proof.
  unfold _resolve_ambiguous_placements. intros H.
  destruct (resolve_fold_frame _ _ _ _ _ _ _ _ H) as (Hsub & _ & _).
  destruct (resolve_fold_ok _ _ _ _ _ _ H) as (Hone & Hout & Hdom). cbn [fst snd] in *.
  split.
  - intros taxon Hnone. destruct (m' !! taxon) as [l'|] eqn:Hl'; [|done].
    assert (is_Some (m !! taxon)) as [l Hl] by (apply Hdom; eauto). congruence.
  - intros taxon l Hl.
    assert (is_Some (m' !! taxon)) as [l' Hl'] by (apply Hdom; eauto).
    destruct (Hsub taxon l' Hl') as (l0 & Hl0 & Hrel).
    assert (l0 = l) as -> by congruence.
    split.
    + intros [Hlen | Hrank].
      * destruct Hrel as [-> | (Hne & _)]; [done | lia].
      * rewrite Hout; [done|]. intros [_ Hp]%sort_taxa_elem. congruence.
    + intros Hlen Hrank.
      destruct (Hone taxon) as [d0 Hd0].
      { apply sort_taxa_elem. split; [|done]. apply keys_elem. eauto. }
      destruct Hrel as [-> | (_ & d & -> & Hd)].
      * rewrite Hl' in Hd0. injection Hd0 as ->. done.
      * by exists d.
Qed.

Lemma resolver_commits_one_of_the_candidates_witness :
  let m := Examples.fmeasure_tied in
  let m' := ExamplesResolve.resolved_tied.1 in
  (∀ taxon, m !! taxon = None → m' !! taxon = None)
  ∧ (∀ taxon l, m !! taxon = Some l →
       (length l = 1 ∨ has_rank_prefix taxon = false → m' !! taxon = Some l)
       ∧ (length l ≠ 1 → has_rank_prefix taxon = true →
          ∃ d, d ∈ l ∧ m' !! taxon = Some [d])).
Proof.
  apply (resolver_commits_one_of_the_candidates
           Examples.median_rank_rd_tied Examples.rel_dist_tied default_max_rd_diff
           Examples.fmeasure_tied ExamplesResolve.resolved_tied.1
           Examples.labels_tied ExamplesResolve.resolved_tied.2).
  vm_compute. reflexivity.
Defined.

(** X11: when every taxon with a rank prefix has one candidate,
    [_resolve_ambiguous_placements] returns the candidate map and the labels
    unchanged, whatever the medians and the relative divergences are. *)
Theorem resolver_needs_no_estimate_without_ambiguity
        (median_rank_rd : gmap nat Q) (rel_dist : path → Q) (max_rd_diff : Q)
        (m : fmeasure_map) (lab : labels) :
  map_Forall (λ taxon l, has_rank_prefix taxon = true → length l = 1) m →
  _resolve_ambiguous_placements median_rank_rd rel_dist max_rd_diff m lab = Ok (m, lab).
Proof.
  intros Hall. apply resolve_fold_single.
  intros taxon [Hkey Hrank]%sort_taxa_elem.
  apply keys_elem in Hkey as [l Hl]. exists l. split; [done|].
  by apply (Hall taxon l).
Qed.

Lemma resolver_needs_no_estimate_without_ambiguity_witness :
  _resolve_ambiguous_placements ∅ (λ _, 0%Q) default_max_rd_diff
    ExamplesResolve.fmeasure4 ∅ = Ok (ExamplesResolve.fmeasure4, ∅).
Proof.
  apply (resolver_needs_no_estimate_without_ambiguity ∅ (λ _, 0%Q) default_max_rd_diff
           ExamplesResolve.fmeasure4 ∅).
  apply (bool_decide_unpack _). vm_compute. exact I.
Defined.

(** X12: [_resolve_ambiguous_placements] never changes the support value or
    the auxiliary text of a node, and it leaves the label of a node untouched
    unless the node is a candidate of a taxon with a rank prefix and a
    candidate list of another length than one. *)
Theorem resolver_relabels_only_candidates_of_ambiguous_taxa
        (median_rank_rd : gmap nat Q) (rel_dist : path → Q) (max_rd_diff : Q)
        (m m' : fmeasure_map) (lab lab' : labels) :
  _resolve_ambiguous_placements median_rank_rd rel_dist max_rd_diff m lab = Ok (m', lab') →
  (∀ node, label_support (node_label lab' node) = label_support (node_label lab node)
           ∧ label_aux_info (node_label lab' node) = label_aux_info (node_label lab node))
  ∧ (∀ node,
       (∀ taxon l, m !! taxon = Some l → has_rank_prefix taxon = true → length l ≠ 1 →
                   node ∉ map cand_node l) →
       lab' !! node = lab !! node).
Proof.
  unfold _resolve_ambiguous_placements. intros H.
  destruct (resolve_fold_frame _ _ _ _ _ _ _ _ H) as (_ & Hframe & Hsame).
  split; [done|]. intros node Hnode. apply Hsame.
  intros taxon l [_ Hrank]%sort_taxa_elem Hl Hlen. by apply (Hnode taxon l).
Qed.

Lemma resolver_relabels_only_candidates_of_ambiguous_taxa_witness :
  let lab := Examples.labels_tied in
  let lab' := ExamplesResolve.resolved_tied.2 in
  (∀ node, label_support (node_label lab' node) = label_support (node_label lab node)
           ∧ label_aux_info (node_label lab' node) = label_aux_info (node_label lab node))
  ∧ (∀ node,
       (∀ taxon l, Examples.fmeasure_tied !! taxon = Some l → has_rank_prefix taxon = true →
                   length l ≠ 1 → node ∉ map cand_node l) →
       lab' !! node = lab !! node).
Proof.
  apply (resolver_relabels_only_candidates_of_ambiguous_taxa
           Examples.median_rank_rd_tied Examples.rel_dist_tied default_max_rd_diff
           Examples.fmeasure_tied ExamplesResolve.resolved_tied.1
           Examples.labels_tied ExamplesResolve.resolved_tied.2).
  vm_compute. reflexivity.
Defined.

(** ** Rank prefixes and their positions *)

Lemma index_of_Ok (x : string) (l : list string) (i : nat) :
  index_of x l = Ok i → l !! i = Some x ∧ i < length l.
Proof.
  revert i. induction l as [|y l IH]; intros i; simpl; [done|].
  destruct (String.eqb_spec x y) as [->|Hne].
  - intros [= <-]. split; [done | simpl; lia].
  - intros (j & Hj & [= <-])%bind_Ok. destruct (IH j Hj). split; [done | simpl; lia].
Qed.

Lemma index_of_Raise (x : string) (l : list string) (e : error) :
  index_of x l = Raise e → e = ValueError ∧ x ∉ l.
Proof.
  induction l as [|y l IH]; simpl.
  - intros [= <-]. split; [done | apply not_elem_of_nil].
  - destruct (String.eqb_spec x y) as [->|Hne]; [done|].
    destruct (index_of x l) as [i|e'] eqn:Hi; [done|].
    simpl. intros [= <-]. destruct IH as [-> Hx]; [done|].
    split; [done|]. by intros [?|?]%elem_of_cons.
Qed.

Lemma index_of_elem (x : string) (l : list string) :
  x ∈ l → ∃ i, index_of x l = Ok i.
Proof.
  intros Hin. destruct (index_of x l) as [i|e] eqn:Hi; [by exists i|].
  by apply index_of_Raise in Hi as [_ ?].
Qed.

Lemma has_rank_prefix_slice (taxon : string) :
  has_rank_prefix taxon = true ↔ PyStr.slice_to 3 taxon ∈ Taxonomy.rank_prefixes.
Proof.
  unfold has_rank_prefix. rewrite existsb_exists. split.
  - intros (p & Hp%list_elem_of_In & Hpre).
    unfold PyStr.startswith in Hpre. apply String.prefix_correct in Hpre.
    assert (String.length p = 3) as Hlen.
    { unfold Taxonomy.rank_prefixes in Hp.
      repeat (apply elem_of_cons in Hp as [->|Hp]; [done|]). by apply elem_of_nil in Hp. }
    rewrite Hlen in Hpre. unfold PyStr.slice_to. by rewrite Hpre.
  - intros Hin. exists (PyStr.slice_to 3 taxon). split; [by apply list_elem_of_In|].
    unfold PyStr.startswith. apply String.prefix_correct.
    assert (String.length (PyStr.slice_to 3 taxon) = 3) as ->.
    { revert Hin. generalize (PyStr.slice_to 3 taxon). intros p Hp.
      unfold Taxonomy.rank_prefixes in Hp.
      repeat (apply elem_of_cons in Hp as [->|Hp]; [done|]). by apply elem_of_nil in Hp. }
    done.
Qed.

Lemma has_rank_prefix_index (taxon : string) :
  has_rank_prefix taxon = true →
  ∃ i, index_of (PyStr.slice_to 3 taxon) Taxonomy.rank_prefixes = Ok i.
Proof. intros H%has_rank_prefix_slice. by apply index_of_elem. Qed.

(** ** The taxa of a leaf *)
Lemma removelast_take {A : Type} (l : list A) :
  removelast l = take (length l - 1) l.
Proof.
  induction l as [|x [|y l] IH]; [done..|].
  change (removelast (x :: y :: l)) with (x :: removelast (y :: l)).
  rewrite IH. simpl. by rewrite Nat.sub_0_r.
Qed.

Lemma parent_chain_prefixes (n : nat) (node : path) :
  length node = n →
  parent_chain n node = map (λ k, take k node) (rev (seq 0 (S n))).
Proof.
  revert node. induction n as [|n IH]; intros node Hlen.
  - destruct node; [done | simpl in Hlen; lia].
  - destruct node as [|x node]; [simpl in Hlen; lia|].
    cbn [parent_chain]. rewrite (seq_S (S n)), rev_app_distr.
    change (rev [0 + S n]) with [S n]. cbn [app map].
    rewrite <- Hlen at 1. rewrite firstn_all. f_equal.
    rewrite IH.
    2:{ rewrite removelast_take, length_take. lia. }
    apply map_ext_in. intros k Hk%in_rev%in_seq.
    rewrite removelast_take, take_take. f_equal. lia.
Qed.

Lemma node_taxa_reversed_rev (lab : labels) (node : path) :
  node_taxa_reversed lab node = rev (label_tokens (node_label lab node)).
Proof.
  unfold node_taxa_reversed, label_tokens, parse_label, tokens_of.
  destruct (PyStr.truthy _); [|done]. by rewrite map_rev.
Qed.

Lemma rev_flat_map {A B : Type} (f : A → list B) (l : list A) :
  rev (flat_map f l) = flat_map (λ x, rev (f x)) (rev l).
Proof.
  induction l as [|x l IH]; [done|].
  simpl. rewrite rev_app_distr, IH, flat_map_app. simpl. by rewrite app_nil_r.
Qed.

Lemma leaf_taxa_tokens (lab : labels) (leaf : path) :
  rev (flat_map (node_taxa_reversed lab) (ancestors_or_self leaf)) = path_tokens lab leaf.
Proof.
  unfold ancestors_or_self, path_tokens.
  rewrite parent_chain_prefixes by done.
  rewrite rev_flat_map, <- map_rev, rev_involutive, flat_map_concat_map, map_map,
    <- flat_map_concat_map.
  apply flat_map_ext. intros k. by rewrite node_taxa_reversed_rev, rev_involutive.
Qed.

Lemma leaf_taxa_unfold (lab : labels) (leaf : path) :
  _leaf_taxa lab leaf
  = (last_taxon ← last_elem (path_tokens lab leaf);
     i ← index_of (PyStr.slice_to 3 last_taxon) Taxonomy.rank_prefixes;
     Ok (path_tokens lab leaf ++ drop (i + 1) Taxonomy.rank_prefixes)).
Proof. unfold _leaf_taxa. by rewrite leaf_taxa_tokens. Qed.

(** X13: when [_leaf_taxa] returns, its result is the list of the taxa written
    on the nodes from the seed node down to the leaf, in this order and in
    the order of each label, followed by the bare prefixes of the ranks below
    the rank of the last taxon found; nothing is inserted between the taxa
    found, and the last entry has the species prefix. *)
Theorem leaf_taxa_reads_the_labels_from_seed_to_leaf
        (lab : labels) (leaf : path) (taxa : list string) :
  _leaf_taxa lab leaf = Ok taxa →
  ∃ last_taxon i,
    last (path_tokens lab leaf) = Some last_taxon
    ∧ Taxonomy.rank_prefixes !! i = Some (PyStr.slice_to 3 last_taxon)
    ∧ taxa = path_tokens lab leaf ++ drop (S i) Taxonomy.rank_prefixes
    ∧ length taxa = length (path_tokens lab leaf) + (6 - i)
    ∧ ∃ species, last taxa = Some species ∧ PyStr.slice_to 3 species = "s__"%string.
Proof.
  rewrite leaf_taxa_unfold. intros (x & Hlast & H)%bind_Ok.
  apply bind_Ok in H as (i & Hi & [= <-]).
  unfold last_elem in Hlast. destruct (last (path_tokens lab leaf)) as [x'|] eqn:Hx; [|done].
  injection Hlast as ->. apply index_of_Ok in Hi as [Hi Hlt].
  exists x, i. split; [done|]. split; [done|].
  rewrite Nat.add_1_r. split; [done|]. split.
  { rewrite length_app, length_drop. simpl. lia. }
  simpl in Hlt.
  destruct (decide (i = 6)) as [->|Hne].
  - exists x. split; [by rewrite app_nil_r|]. by injection Hi as <-.
  - exists "s__"%string. split; [|done].
    do 6 (destruct i as [|i]; [by rewrite last_app|]). lia.
Qed.

Lemma leaf_taxa_reads_the_labels_from_seed_to_leaf_witness :
  ∃ last_taxon i,
    last (path_tokens ExamplesRun.labels_spaced [0; 1]) = Some last_taxon
    ∧ Taxonomy.rank_prefixes !! i = Some (PyStr.slice_to 3 last_taxon)
    ∧ ["d__X"; "p__P"; "c__C"; "o__"; "f__"; "g__"; "s__"]%string
      = path_tokens ExamplesRun.labels_spaced [0; 1] ++ drop (S i) Taxonomy.rank_prefixes
    ∧ length ["d__X"; "p__P"; "c__C"; "o__"; "f__"; "g__"; "s__"]%string
      = length (path_tokens ExamplesRun.labels_spaced [0; 1]) + (6 - i)
    ∧ ∃ species, last ["d__X"; "p__P"; "c__C"; "o__"; "f__"; "g__"; "s__"]%string
                 = Some species
                 ∧ PyStr.slice_to 3 species = "s__"%string.
Proof.
  apply (leaf_taxa_reads_the_labels_from_seed_to_leaf ExamplesRun.labels_spaced [0; 1]).
  vm_compute. reflexivity.
Defined.

(** X14: [_leaf_taxa] raises in exactly two cases: IndexError when no node
    from the leaf up to the seed node carries a taxon, ValueError when the
    last taxon found does not start with a rank prefix. *)
Theorem leaf_taxa_fails_without_tokens_or_rank (lab : labels) (leaf : path) (e : error) :
  _leaf_taxa lab leaf = Raise e
  ↔ (path_tokens lab leaf = [] ∧ e = IndexError)
    ∨ (∃ last_taxon, last (path_tokens lab leaf) = Some last_taxon
                     ∧ has_rank_prefix last_taxon = false ∧ e = ValueError).
Proof.
  rewrite leaf_taxa_unfold. unfold last_elem.
  destruct (last (path_tokens lab leaf)) as [x|] eqn:Hx; cbn [mbind result_bind].
  - destruct (index_of (PyStr.slice_to 3 x) Taxonomy.rank_prefixes) as [i|e'] eqn:Hi;
      cbn [mbind result_bind].
    + split; [done|]. intros [[Hnil _] | (x' & [= <-] & Hrank & _)].
      * by rewrite Hnil in Hx.
      * apply index_of_Ok in Hi as [Hi%list_elem_of_lookup_2 _].
        apply has_rank_prefix_slice in Hi. congruence.
    + apply index_of_Raise in Hi as [-> Hnin]. split.
      * intros [= <-]. right. exists x. split; [done|]. split; [|done].
        destruct (has_rank_prefix x) eqn:Hr; [|done].
        by apply has_rank_prefix_slice in Hr.
      * intros [[Hnil _] | (_ & _ & _ & ->)]; [by rewrite Hnil in Hx | done].
  - apply last_None in Hx. split.
    + intros [= <-]. by left.
    + by intros [[_ ->] | (x' & Hx' & _)].
Qed.

Lemma leaf_taxa_fails_without_tokens_or_rank_witness :
  path_tokens ExamplesRun.labels_spaced [0; 1] = ["d__X"; "p__P"; "c__C"]%string
  ∧ (∀ e, _leaf_taxa ExamplesRun.labels_spaced [0; 1] ≠ Raise e)
  ∧ _leaf_taxa (<[ [1] := Label None (Some "Foo"%string) None ]> ExamplesRun.labels_spaced)
               [1] = Raise ValueError.
Proof.
  assert (Ht : path_tokens ExamplesRun.labels_spaced [0; 1]
               = ["d__X"; "p__P"; "c__C"]%string) by (vm_compute; reflexivity).
  split; [exact Ht|]. split.
  - intros e He.
    apply leaf_taxa_fails_without_tokens_or_rank in He
      as [[Hnil _] | (x & Hx & Hr & _)].
    + rewrite Ht in Hnil. discriminate Hnil.
    + rewrite Ht in Hx. injection Hx as <-. discriminate Hr.
  - apply leaf_taxa_fails_without_tokens_or_rank. right.
    exists "Foo"%string. split; [vm_compute; reflexivity|]. split; reflexivity.
Defined.

(** ** The lines of the taxonomy file *)
Lemma filter_map_comm {A B : Type} (f : A → B) (P : B → bool) (l : list A) :
  filter (λ y, P y = true) (map f l) = map f (filter (λ x, P (f x) = true) l).
Proof.
  induction l as [|x l IH]; [done|].
  simpl. rewrite !filter_cons. destruct (decide (P (f x) = true)); simpl; by rewrite IH.
Qed.

Lemma leaf_labels_forest (l : string) (cs cs' : list tree) (i : nat) :
  Forall (λ c, map (λ p, from_option taxon_label EmptyString (subtree c p)) (leaf_paths c)
               = leaf_iter c) cs' →
  drop i cs = cs' →
  map (λ p, from_option taxon_label EmptyString (subtree (Node l cs) p))
      (filter (λ p, is_leaf_at (Node l cs) p = true) (preorder_forest i cs'))
  = flat_map leaf_iter cs'.
Proof.
  revert i. induction cs' as [|c rest IH]; intros i Hall Hdrop; [done|].
  apply Forall_cons in Hall as [Hc Hrest].
  assert (cs !! i = Some c) as Hi.
  { rewrite <- (Nat.add_0_r i), <- lookup_drop, Hdrop. done. }
  assert (drop (S i) cs = rest) as Hdrop'.
  { rewrite (drop_S _ _ _ Hi) in Hdrop. by injection Hdrop. }
  cbn [preorder_forest flat_map]. rewrite filter_app, map_app, (IH (S i) Hrest Hdrop').
  f_equal. rewrite <- Hc. unfold leaf_paths.
  rewrite (filter_map_comm (cons i) (is_leaf_at (Node l cs))), map_map.
  erewrite filter_ext_in.
  - apply map_ext. intros p. simpl. by rewrite Hi.
  - intros p _. unfold is_leaf_at. simpl. by rewrite Hi.
Qed.

Lemma leaf_paths_labels (t : tree) :
  map (λ p, from_option taxon_label EmptyString (subtree t p)) (leaf_paths t) = leaf_iter t.
Proof.
  induction t as [l cs IH] using tree_ind_forall.
  unfold leaf_paths. rewrite preorder_iter_unfold, filter_cons.
  destruct cs as [|c cs]; [done|].
  rewrite decide_False by done.
  by rewrite (leaf_labels_forest l (c :: cs) (c :: cs) 0 IH).
Qed.

Lemma mapM_Ok_inv {A B : Type} (f : A → result B) (l : list A) (ys : list B) :
  mapM f l = Ok ys → Forall2 (λ x y, f x = Ok y) l ys.
Proof.
  revert ys. induction l as [|x l IH]; intros ys; simpl.
  - intros [= <-]. constructor.
  - intros (y & Hy & H)%bind_Ok. apply bind_Ok in H as (ys' & Hys & [= <-]).
    constructor; [done | by apply IH].
Qed.

Lemma taxonomy_lines_labels (t : tree) (lab : labels) (leaves : list path)
      (lines : list (string * string)) :
  Forall2 (λ leaf line, taxonomy_line t lab leaf = Ok line) leaves lines →
  lines.*1 = map (λ p, from_option taxon_label EmptyString (subtree t p)) leaves.
Proof.
  induction 1 as [|leaf line leaves lines Hline _ IH]; [done|].
  cbn [fmap list_fmap map]. rewrite IH. f_equal.
  unfold taxonomy_line in Hline. by apply bind_Ok in Hline as (taxa & _ & [= <-]).
Qed.

(** X15: when [_write_taxonomy] completes it has written one line per leaf,
    in the order of the leaves of the tree, made of the label of the leaf and
    of the taxa of [_leaf_taxa] joined by '; '. *)
Theorem taxonomy_file_has_one_line_per_leaf (t : tree) (lab : labels)
        (lines : list (string * string)) :
  _write_taxonomy t lab = Ok lines →
  lines.*1 = leaf_iter t
  ∧ Forall2 (λ leaf line, ∃ taxa, _leaf_taxa lab leaf = Ok taxa
                                  ∧ line.2 = PyStr.join "; " taxa)
            (leaf_node_iter t) lines.
Proof.
  unfold _write_taxonomy. intros H%mapM_Ok_inv.
  split.
  - rewrite <- leaf_paths_labels. by apply (taxonomy_lines_labels t lab).
  - eapply Forall2_impl; [exact H|]. intros leaf line Hline.
    unfold taxonomy_line in Hline. apply bind_Ok in Hline as (taxa & Htaxa & [= <-]).
    by exists taxa.
Qed.

Lemma taxonomy_file_has_one_line_per_leaf_witness :
  (out_taxonomy Examples.first_run4).*1 = leaf_iter Examples.tree4
  ∧ Forall2 (λ leaf line, ∃ taxa, _leaf_taxa (out_labels Examples.first_run4) leaf = Ok taxa
                                  ∧ line.2 = PyStr.join "; " taxa)
            (leaf_node_iter Examples.tree4) (out_taxonomy Examples.first_run4).
Proof.
  apply (taxonomy_file_has_one_line_per_leaf
           Examples.tree4 (out_labels Examples.first_run4)
           (out_taxonomy Examples.first_run4)).
  vm_compute. reflexivity.
Defined.

(** ** A run without refinement *)

Lemma assign_labels_spec (m : fmeasure_map) (lab : labels) (node : path) :
  let lab' := (_assign_taxon_labels m lab).2 in
  label_support (node_label lab' node) = label_support (node_label lab node)
  ∧ label_aux_info (node_label lab' node) = label_aux_info (node_label lab node)
  ∧ label_tokens (node_label lab' node)
    = label_tokens (node_label lab node) ++ placed_tokens m node.
Proof.
  assert (Hne : Forall (λ taxon, taxon ≠ EmptyString)
                       (Taxonomy.sort_taxa (keys m) false)).
  { apply Forall_forall. intros taxon [_ Hp]%sort_taxa_elem.
    by apply has_rank_prefix_nonempty. }
  destruct (assign_fold_spec m _ ∅ lab Hne) as [_ Hlab]. apply Hlab.
Qed.

Lemma strip_labels_spec (t : tree) (lab : labels) (node : path) :
  node_label (_strip_taxon_labels t lab) node
  = if is_stripped t lab node
    then Label (label_support (node_label lab node)) None None
    else node_label lab node.
Proof.
  unfold _strip_taxon_labels, is_stripped. rewrite strip_fold_label.
  destruct (decide (node ∈ internal_nodes t)) as [Hin|Hnin].
  - apply internal_nodes_elem in Hin. rewrite Hin. done.
  - destruct (is_internal_at t node) eqn:Hi; [|done].
    by apply internal_nodes_elem in Hi.
Qed.

Lemma strip_labels_support (t : tree) (lab : labels) (node : path) :
  label_support (node_label (_strip_taxon_labels t lab) node)
  = label_support (node_label lab node).
Proof. rewrite strip_labels_spec. by destruct (is_stripped t lab node). Qed.

Lemma keep_last_step (m m' : fmeasure_map) (taxon : string) :
  keep_last m taxon = Ok m' →
  ∃ l d, m !! taxon = Some l ∧ last l = Some d ∧ m' = <[taxon := [d]]> m.
Proof.
  unfold keep_last. destruct (m !! taxon) as [l|] eqn:Hl; [|done].
  destruct (Nat.eqb_spec (length l) 1) as [Hlen|Hlen].
  - intros [= <-]. destruct l as [|d [|d' l]]; try done.
    exists [d], d. split; [done|]. split; [done|]. by rewrite insert_id.
  - intros (d & Hd & [= <-])%bind_Ok. exists l, d. split; [done|]. split; [|done].
    unfold last_elem in Hd. by destruct (last l); [injection Hd as ->|].
Qed.

Lemma keep_last_fold_spec (taxa : list string) (m m' : fmeasure_map) :
  foldM keep_last m taxa = Ok m' →
  ∀ taxon, m' !! taxon
           = if decide (taxon ∈ taxa) then l ← m !! taxon; d ← last l; Some [d]
             else m !! taxon.
Proof.
  revert m. induction taxa as [|x taxa IH]; intros m; simpl.
  - intros [= <-] taxon. done.
  - intros (m1 & Hstep & Hrest)%bind_Ok taxon.
    apply keep_last_step in Hstep as (l & d & Hl & Hd & ->).
    rewrite (IH _ Hrest taxon).
    destruct (decide (taxon = x)) as [->|Hne].
    + rewrite lookup_insert_eq, Hl. simpl. rewrite Hd. simpl.
      rewrite (decide_True (P := x ∈ x :: taxa)) by by left.
      by destruct (decide (x ∈ taxa)).
    + rewrite lookup_insert_ne by done.
      destruct (decide (taxon ∈ taxa)) as [Hin|Hnin].
      * rewrite decide_True; [done | by right].
      * rewrite decide_False; [done|]. by intros [?|?]%elem_of_cons.
Qed.

Lemma keep_last_all (m m' : fmeasure_map) :
  foldM keep_last m (keys m) = Ok m' → m' = last_candidates m.
Proof.
  intros H. apply map_eq. intros taxon.
  rewrite (keep_last_fold_spec _ _ _ H taxon). unfold last_candidates.
  rewrite lookup_omap.
  destruct (decide (taxon ∈ keys m)) as [Hin|Hnin]; [done|].
  destruct (m !! taxon) eqn:Hm; [|done].
  destruct Hnin. apply keys_elem. by rewrite Hm.
Qed.

Lemma keep_last_total (taxa : list string) (m : fmeasure_map) :
  nonempty_lists m → (∀ taxon, taxon ∈ taxa → is_Some (m !! taxon)) →
  ∃ m', foldM keep_last m taxa = Ok m'.
Proof.
  revert m. induction taxa as [|x taxa IH]; intros m Hne Hin; simpl; [by eexists|].
  destruct (Hin x) as [l Hl]; [by left|].
  assert (∃ d, last l = Some d) as [d Hd].
  { destruct (last l) eqn:Hlast; [by eexists|]. apply last_None in Hlast.
    by destruct (Hne x l Hl). }
  assert (keep_last m x = Ok (<[x := [d]]> m)) as ->.
  { unfold keep_last. rewrite Hl. destruct (Nat.eqb_spec (length l) 1) as [Hlen|Hlen].
    - destruct l as [|d0 [|? ?]]; try done. injection Hd as ->. by rewrite insert_id.
    - unfold last_elem. by rewrite Hd. }
  cbn [mbind result_bind]. apply IH.
  - intros taxon l'. destruct (decide (taxon = x)) as [->|Hn].
    + rewrite lookup_insert_eq. by intros [= <-].
    + rewrite lookup_insert_ne by done. apply Hne.
  - intros taxon Ht. destruct (decide (taxon = x)) as [->|Hn].
    + rewrite lookup_insert_eq. eauto.
    + rewrite lookup_insert_ne by done. apply Hin. by right.
Qed.

(** X16: when the refinement is skipped, a run that completes keeps for every
    taxon the last candidate of its list, and it assigns labels twice: a node
    that [_strip_taxon_labels] does not reset (a leaf, or a node without
    support value) keeps its input taxa and the taxa of the first assignment
    and gets the taxa of the second assignment appended, while a node that is
    reset holds the taxa of the second assignment only. *)
Theorem without_refinement_the_last_candidate_is_kept_and_labels_pile_up
        (t : tree) (input_labels : labels) (full_taxonomy : gmap string (list string))
        (est : estimator) (o : output) :
  run t input_labels full_taxonomy est true = Ok o →
  let m := _fmeasure t (trim_taxonomy t full_taxonomy) in
  out_fmeasure_for_taxa o = last_candidates m
  ∧ ∀ node,
      label_tokens (node_label (out_labels o) node)
      = if is_stripped t input_labels node
        then placed_tokens (last_candidates m) node
        else label_tokens (node_label input_labels node)
             ++ placed_tokens m node ++ placed_tokens (last_candidates m) node.
Proof.
  unfold run.
  destruct (_assign_taxon_labels _ _) as [placed lab1] eqn:Hassign1.
  intros ([m2 lab2] & Hres & H)%bind_Ok.
  apply bind_Ok in H as (table & _ & H).
  apply bind_Ok in H as (lines & _ & [= <-]). cbn [out_fmeasure_for_taxa out_labels].
  cbn [negb] in Hres.
  apply bind_Ok in Hres as (m3 & Hfold & Hres).
  destruct (_assign_taxon_labels m3 _) as [placed' lab3] eqn:Hassign2.
  injection Hres as <- <-.
  apply keep_last_all in Hfold as ->. split; [done|].
  intros node.
  pose proof (assign_labels_spec (last_candidates (_fmeasure t (trim_taxonomy t full_taxonomy)))
                (_strip_taxon_labels t lab1) node) as (_ & _ & Htok2).
  rewrite Hassign2 in Htok2. cbn [snd] in Htok2. rewrite Htok2.
  pose proof (assign_labels_spec (_fmeasure t (trim_taxonomy t full_taxonomy))
                (_strip_taxon_labels t input_labels) node) as (Hsup1 & _ & Htok1).
  rewrite Hassign1 in Hsup1, Htok1. cbn [snd] in Hsup1, Htok1.
  rewrite strip_labels_support in Hsup1.
  rewrite (strip_labels_spec t lab1).
  assert (is_stripped t lab1 node = is_stripped t input_labels node) as ->.
  { unfold is_stripped. by rewrite Hsup1. }
  destruct (is_stripped t input_labels node) eqn:Hs; [done|].
  rewrite Htok1, strip_labels_spec, Hs. by rewrite <- app_assoc.
Qed.

Lemma without_refinement_the_last_candidate_is_kept_and_labels_pile_up_witness :
  let m := _fmeasure Examples.tree4 (trim_taxonomy Examples.tree4 Examples.taxonomy4) in
  out_fmeasure_for_taxa ExamplesRun.run4_skip = last_candidates m
  ∧ ∀ node,
      label_tokens (node_label (out_labels ExamplesRun.run4_skip) node)
      = if is_stripped Examples.tree4 ∅ node
        then placed_tokens (last_candidates m) node
        else label_tokens (node_label ∅ node)
             ++ placed_tokens m node ++ placed_tokens (last_candidates m) node.
Proof.
  apply (without_refinement_the_last_candidate_is_kept_and_labels_pile_up
           Examples.tree4 ∅ Examples.taxonomy4 Examples.estimator_tied
           ExamplesRun.run4_skip).
  vm_compute. reflexivity.
Defined.

(** ** Support values and auxiliary texts through a run *)
Lemma resolve_labels_frame (median_rank_rd : gmap nat Q) (rel_dist : path → Q)
      (max_rd_diff : Q) (m m' : fmeasure_map) (lab lab' : labels) (node : path) :
  _resolve_ambiguous_placements median_rank_rd rel_dist max_rd_diff m lab = Ok (m', lab') →
  label_support (node_label lab' node) = label_support (node_label lab node)
  ∧ label_aux_info (node_label lab' node) = label_aux_info (node_label lab node).
Proof.
  unfold _resolve_ambiguous_placements. intros H.
  destruct (resolve_fold_frame _ _ _ _ _ _ _ _ H) as (_ & Hframe & _). apply Hframe.
Qed.

Lemma strip_labels_aux (t : tree) (lab : labels) (node : path) :
  label_aux_info (node_label (_strip_taxon_labels t lab) node)
  = if is_stripped t lab node then None else label_aux_info (node_label lab node).
Proof. rewrite strip_labels_spec. by destruct (is_stripped t lab node). Qed.

(** X17: a run that completes keeps the support value of every node; it keeps
    the auxiliary text of a node as well, except on the internal nodes whose
    support value is set, where the text is dropped. *)
Theorem run_keeps_support_and_drops_auxiliary_text_of_stripped_nodes
        (t : tree) (input_labels : labels) (full_taxonomy : gmap string (list string))
        (est : estimator) (skip_rd_refine : bool) (o : output) :
  run t input_labels full_taxonomy est skip_rd_refine = Ok o →
  ∀ node,
    label_support (node_label (out_labels o) node)
    = label_support (node_label input_labels node)
    ∧ label_aux_info (node_label (out_labels o) node)
      = if is_stripped t input_labels node then None
        else label_aux_info (node_label input_labels node).
Proof.
  unfold run.
  destruct (_assign_taxon_labels _ _) as [placed lab1] eqn:Hassign1.
  intros ([m2 lab2] & Hres & H)%bind_Ok.
  apply bind_Ok in H as (table & _ & H).
  apply bind_Ok in H as (lines & _ & [= <-]). cbn [out_labels].
  intros node.
  pose proof (assign_labels_spec (_fmeasure t (trim_taxonomy t full_taxonomy))
                (_strip_taxon_labels t input_labels) node) as (Hsup1 & Haux1 & _).
  rewrite Hassign1 in Hsup1, Haux1. cbn [snd] in Hsup1, Haux1.
  rewrite strip_labels_support in Hsup1. rewrite strip_labels_aux in Haux1.
  destruct skip_rd_refine; cbn [negb] in Hres.
  - apply bind_Ok in Hres as (m3 & Hfold & Hres).
    destruct (_assign_taxon_labels m3 _) as [placed' lab3] eqn:Hassign2.
    injection Hres as <- <-.
    pose proof (assign_labels_spec m3 (_strip_taxon_labels t lab1) node)
      as (Hsup2 & Haux2 & _).
    rewrite Hassign2 in Hsup2, Haux2. cbn [snd] in Hsup2, Haux2.
    rewrite strip_labels_support in Hsup2. rewrite strip_labels_aux in Haux2.
    rewrite Hsup2, Haux2, Hsup1, Haux1. split; [done|].
    assert (is_stripped t lab1 node = is_stripped t input_labels node) as ->.
    { unfold is_stripped. by rewrite Hsup1. }
    by destruct (is_stripped t input_labels node).
  - apply (resolve_labels_frame _ _ _ _ _ _ _ node) in Hres as [-> ->]. done.
Qed.

Lemma run_keeps_support_and_drops_auxiliary_text_of_stripped_nodes_witness :
  label_support (node_label (out_labels ExamplesRun.run4_supported) [0])
  = label_support (node_label ExamplesRun.labels_supported [0])
  ∧ label_aux_info (node_label (out_labels ExamplesRun.run4_supported) [0])
    = if is_stripped Examples.tree4 ExamplesRun.labels_supported [0] then None
      else label_aux_info (node_label ExamplesRun.labels_supported [0]).
Proof.
  apply (run_keeps_support_and_drops_auxiliary_text_of_stripped_nodes
           Examples.tree4 ExamplesRun.labels_supported Examples.taxonomy4
           Examples.estimator_tied false ExamplesRun.run4_supported).
  vm_compute. reflexivity.
Defined.

(** ** Filling the missing ranks: [_resolve_missing_taxa] *)

Lemma py_index_nat {A : Type} (l : list A) (r : nat) :
  py_index l (Z.of_nat r) = from_option Ok (Raise IndexError) (l !! r).
Proof.
  unfold py_index.
  destruct (Z.ltb_spec (Z.of_nat r) 0) as [?|_]; [lia|].
  destruct (Z.ltb_spec (Z.of_nat r) 0) as [?|_]; [lia|].
  by rewrite Nat2Z.id.
Qed.

Lemma py_index_pred {A : Type} (l : list A) (n : nat) :
  0 < length l →
  py_index l (Z.of_nat n - 1)
  = from_option Ok (Raise IndexError) (l !! parent_index n (length l)).
Proof.
  intros Hlen. unfold py_index, parent_index. destruct n as [|n].
  - cbn [Nat.eqb]. destruct (Z.ltb_spec (Z.of_nat 0 - 1) 0) as [_|?]; [|lia].
    destruct (Z.ltb_spec (Z.of_nat (length l) + (Z.of_nat 0 - 1)) 0) as [?|_]; [lia|].
    do 2 f_equal. lia.
  - cbn [Nat.eqb]. destruct (Z.ltb_spec (Z.of_nat (S n) - 1) 0) as [?|_]; [lia|].
    destruct (Z.ltb_spec (Z.of_nat (S n) - 1) 0) as [?|_]; [lia|].
    do 2 f_equal. lia.
Qed.

Lemma rank_prefix_lookup (k : nat) :
  k < 7 → ∃ rank_prefix, Taxonomy.rank_prefixes !! k = Some rank_prefix.
Proof. intros Hk. apply lookup_lt_is_Some. simpl. lia. Qed.

Lemma missing_rank_eqb (l : list string) (k : nat) (x p : string) :
  l !! k = Some x → Taxonomy.rank_prefixes !! k = Some p →
  missing_rank l k = String.eqb x p.
Proof. unfold missing_rank. by intros -> ->. Qed.

Lemma missing_rank_ext (l l' : list string) (k : nat) :
  l !! k = l' !! k → missing_rank l k = missing_rank l' k.
Proof. unfold missing_rank. by intros ->. Qed.

Lemma gap_true (l : list string) (k : nat) :
  gap l k = true
  ↔ missing_rank l k = true ∧ ∃ j, k < j ≤ 6 ∧ missing_rank l j = false.
Proof.
  unfold gap, range. rewrite andb_true_iff, existsb_exists. split.
  - intros [Hm (j & Hj%in_seq & Hn%negb_true_iff)]. split; [done|].
    exists j. split; [lia | done].
  - intros [Hm (j & Hj & Hn)]. split; [done|]. exists j. split.
    + apply in_seq. lia.
    + by apply negb_true_iff.
Qed.

Lemma gap_lt (l : list string) (k : nat) : gap l k = true → k < 6.
Proof. intros (_ & j & Hj & _)%gap_true. lia. Qed.

Lemma first_specified_cons (cur : list string) (r : nat) (rs : list nat) :
  r < 7 → r < length cur →
  first_specified cur (r :: rs)
  = if negb (missing_rank cur r) then Ok (Some r) else first_specified cur rs.
Proof.
  intros [p Hp]%rank_prefix_lookup [x Hx]%lookup_lt_is_Some.
  cbn [first_specified]. rewrite !py_index_nat, Hx, Hp. cbn [from_option mbind result_bind].
  by rewrite (missing_rank_eqb cur r x p).
Qed.

Lemma first_specified_cases (cur : list string) (len a : nat) :
  a + len ≤ 7 → 7 ≤ length cur →
  (∃ r, first_specified cur (seq a len) = Ok (Some r)
        ∧ a ≤ r < a + len ∧ missing_rank cur r = false
        ∧ ∀ k, a ≤ k < r → missing_rank cur k = true)
  ∨ (first_specified cur (seq a len) = Ok None
     ∧ ∀ k, a ≤ k < a + len → missing_rank cur k = true).
Proof.
  revert a. induction len as [|len IH]; intros a Ha Hlen.
  - right. split; [done|]. intros k Hk. lia.
  - cbn [seq]. rewrite first_specified_cons by lia.
    destruct (missing_rank cur a) eqn:Hm; cbn [negb].
    + destruct (IH (S a)) as [(r & Hr & Hrange & Hnamed & Hbefore) | [Hnone Hall]];
        [lia | done | |].
      * left. exists r. split; [done|]. split; [lia|]. split; [done|].
        intros k Hk. destruct (decide (k = a)) as [->|]; [done|]. apply Hbefore. lia.
      * right. split; [done|]. intros k Hk.
        destruct (decide (k = a)) as [->|]; [done|]. apply Hall. lia.
    + left. exists a. split; [done|]. split; [lia|]. split; [done|]. intros k Hk. lia.
Qed.

Lemma fill_rank_step (n : nat) (parent p : string) (a : nat) (cur : list string)
      (pr : list (list string)) :
  a < length cur → Taxonomy.rank_prefixes !! a = Some p →
  cur !! parent_index n (length cur) = Some parent →
  fill_rank n (cur, pr) a
  = Ok (<[a := unclassified_label p (slice_from 3 parent)]> cur,
        pr ++ [<[a := unclassified_label p (slice_from 3 parent)]> cur]).
Proof.
  intros Ha Hp Hparent. unfold fill_rank.
  rewrite py_index_nat, Hp, py_index_pred, Hparent by lia.
  cbn [from_option mbind result_bind].
  by destruct (Nat.ltb_spec a (length cur)) as [_|?]; [|lia].
Qed.

Lemma fill_fold (n : nat) (parent : string) (len a : nat) (cur : list string)
      (pr : list (list string)) :
  a + len ≤ 6 → 7 ≤ length cur → n ≤ a →
  cur !! parent_index n (length cur) = Some parent →
  ∃ cur' pr',
    foldM (fill_rank n) (cur, pr) (seq a len) = Ok (cur', pr')
    ∧ length cur' = length cur
    ∧ ∀ k, cur' !! k
           = if bool_decide (a ≤ k < a + len)
             then rank_prefix ← Taxonomy.rank_prefixes !! k;
                  Some (unclassified_label rank_prefix (slice_from 3 parent))
             else cur !! k.
Proof.
  revert a cur pr. induction len as [|len IH]; intros a cur pr Ha Hlen Hn Hparent.
  - exists cur, pr. split; [done|]. split; [done|]. intros k.
    rewrite bool_decide_eq_false_2; [done | lia].
  - cbn [seq foldM].
    destruct (rank_prefix_lookup a) as [p Hp]; [lia|].
    rewrite (fill_rank_step n parent p a cur pr) by (done || lia).
    cbn [mbind result_bind].
    set (cur1 := <[a := unclassified_label p (slice_from 3 parent)]> cur).
    assert (length cur1 = length cur) as Hlen1 by apply length_insert.
    destruct (IH (S a) cur1 (pr ++ [cur1])) as (cur' & pr' & Hfold & Hlen' & Hspec).
    + lia.
    + lia.
    + lia.
    + rewrite Hlen1. unfold cur1. rewrite list_lookup_insert_ne; [done|].
      unfold parent_index. destruct n; simpl; lia.
    + exists cur', pr'. split; [done|]. split; [lia|]. intros k. rewrite Hspec.
      destruct (decide (k = a)) as [->|Hne].
      * rewrite bool_decide_eq_false_2 by lia. rewrite bool_decide_eq_true_2 by lia.
        unfold cur1. rewrite list_lookup_insert_eq by lia. by rewrite Hp.
      * unfold cur1. rewrite list_lookup_insert_ne by done.
        destruct (decide (S a ≤ k < S a + len)).
        -- rewrite !bool_decide_eq_true_2 by lia. done.
        -- rewrite !bool_decide_eq_false_2 by lia. done.
Qed.

Section ResolveMissing.
Variable orig : list string.
Hypothesis Hlen : 7 ≤ length orig.

Lemma missing_inv_skip (n : nat) (cur : list string) (pr : list (list string)) :
  gap orig n = false → missing_inv orig n cur pr → missing_inv orig (S n) cur pr.
Proof.
  intros Hgap (Hl & Hsame & Hfilled & Hpr). split; [done|]. split; [done|]. split.
  - intros k Hk Hg. destruct (decide (k = n)) as [->|]; [congruence|].
    apply Hfilled; [lia | done].
  - intros Hno. apply Hpr. intros k Hk. apply Hno. lia.
Qed.

Lemma named_after (cur : list string) (r : nat) :
  (∀ k, gap orig k = false → cur !! k = orig !! k) →
  missing_rank cur r = false → r ≤ 6 →
  ∃ j, r ≤ j ≤ 6 ∧ missing_rank orig j = false.
Proof.
  intros Hsame Hnamed Hr. destruct (gap orig r) eqn:Hg.
  - apply gap_true in Hg as (_ & j & Hj & Hn). exists j. split; [lia | done].
  - exists r. split; [lia|]. by rewrite <- (missing_rank_ext cur orig r (Hsame r Hg)).
Qed.

Lemma resolve_rank_step (n : nat) (x : string) (cur : list string)
      (pr : list (list string)) :
  n < 6 → orig !! n = Some x → missing_inv orig n cur pr →
  ∃ cur' pr', resolve_rank (cur, pr) (n, x) = Ok (cur', pr')
              ∧ missing_inv orig (S n) cur' pr'.
Proof.
  intros Hn Hx Hinv. pose proof Hinv as (Hl & Hsame & Hfilled & Hpr).
  destruct (rank_prefix_lookup n) as [p Hp]; [lia|].
  unfold resolve_rank. rewrite py_index_nat, Hp. cbn [from_option mbind result_bind].
  pose proof (missing_rank_eqb orig n x p Hx Hp) as Hmiss.
  destruct (String.eqb x p) eqn:Heq.
  2:{ exists cur, pr. split; [done|]. apply missing_inv_skip; [|done].
      destruct (gap orig n) eqn:Hg; [|done].
      apply gap_true in Hg as [? _]. congruence. }
  change (index_of "species" Taxonomy.rank_labels) with (@Ok nat 6).
  cbn [mbind result_bind fst]. unfold range.
  replace (6 + 1 - (n + 1)) with (6 - n) by lia.
  destruct (first_specified_cases cur (6 - n) (n + 1))
    as [(r & -> & Hr & Hnamed & Hbefore) | [-> Hall]]; [lia | lia | |].
  - cbn [mbind result_bind].
    destruct (named_after cur r Hsame Hnamed) as (j & Hj & Hjn); [lia|].
    assert (Hgaps : ∀ k, n ≤ k < r → gap orig k = true).
    { intros k Hk. apply gap_true. split.
      - destruct (decide (k = n)) as [->|Hne]; [done|].
        destruct (gap orig k) eqn:Hg; [by apply gap_true in Hg as [? _]|].
        rewrite <- (missing_rank_ext cur orig k (Hsame k Hg)). apply Hbefore. lia.
      - exists j. split; [lia | done]. }
    assert (is_Some (cur !! parent_index n (length cur))) as [parent Hparent].
    { apply lookup_lt_is_Some. unfold parent_index. destruct n; simpl; lia. }
    destruct (fill_fold n parent (r - n) n cur pr) as (cur' & pr' & -> & Hl' & Hspec);
      [lia | lia | lia | done |].
    exists cur', pr'. split; [done|].
    assert (Hout : ∀ k, ¬ (n ≤ k < r) → cur' !! k = cur !! k).
    { intros k Hk. rewrite Hspec. rewrite bool_decide_eq_false_2; [done | lia]. }
    assert (Hpar : ∀ k, k ≤ n → py_index cur' (Z.of_nat k - 1) = py_index cur (Z.of_nat k - 1)).
    { intros k Hk. rewrite !py_index_pred, Hl' by lia. rewrite Hout; [done|].
      unfold parent_index. destruct k; simpl; lia. }
    split; [lia|]. split; [|split].
    + intros k Hg. rewrite Hout; [by apply Hsame|].
      intros Hk. rewrite Hgaps in Hg; [done | lia].
    + intros k Hk Hg. destruct (decide (k = n)) as [->|Hne].
      * exists p, parent. split; [done|]. split.
        -- rewrite Hpar, py_index_pred, Hparent by lia. done.
        -- rewrite Hspec, bool_decide_eq_true_2 by lia. by rewrite Hp.
      * destruct (Hfilled k) as (p' & parent' & Hp' & Hparent' & Hk'); [lia | done |].
        exists p', parent'. split; [done|]. split.
        -- rewrite Hpar by lia. done.
        -- rewrite Hout by lia. done.
    + intros Hno. assert (gap orig n = true) as Hg by (apply Hgaps; lia).
      rewrite Hno in Hg by lia. done.
  - cbn [mbind result_bind]. exists cur, pr. split; [done|].
    apply missing_inv_skip; [|done].
    destruct (gap orig n) eqn:Hg; [|done].
    apply gap_true in Hg as (_ & j & Hj & Hjn).
    assert (gap orig j = false) as Hgj.
    { destruct (gap orig j) eqn:Hg; [|done]. apply gap_true in Hg as [? _]. congruence. }
    rewrite <- (missing_rank_ext cur orig j (Hsame j Hgj)) in Hjn.
    rewrite Hall in Hjn; [done | lia].
Qed.

Lemma resolve_rank_fold (m n : nat) (cur : list string) (pr : list (list string)) :
  n + m = 6 → missing_inv orig n cur pr →
  ∃ cur' pr',
    foldM resolve_rank (cur, pr) (omap (λ k, pair k <$> orig !! k) (seq n m))
    = Ok (cur', pr')
    ∧ missing_inv orig 6 cur' pr'.
Proof.
  revert n cur pr. induction m as [|m IH]; intros n cur pr Hn Hinv.
  - exists cur, pr. split; [done|]. by replace 6 with n by lia.
  - assert (is_Some (orig !! n)) as [x Hx] by (apply lookup_lt_is_Some; lia).
    cbn [seq omap list_omap]. rewrite Hx. cbn [fmap option_fmap option_map foldM].
    destruct (resolve_rank_step n x cur pr) as (cur1 & pr1 & -> & Hinv1);
      [lia | done | done |].
    cbn [mbind result_bind]. apply IH; [lia | done].
Qed.

Lemma enumerate_take :
  enumerate (take 6 orig) = omap (λ k, pair k <$> orig !! k) (seq 0 6).
Proof.
  destruct orig as [|x0 [|x1 [|x2 [|x3 [|x4 [|x5 [|x6 rest]]]]]]];
    simpl in Hlen; try lia. reflexivity.
Qed.

Lemma resolve_missing_spec :
  ∃ out printed, _resolve_missing_taxa orig = Ok (out, printed)
                 ∧ missing_inv orig 6 out printed.
Proof.
  unfold _resolve_missing_taxa.
  change (index_of "species" Taxonomy.rank_labels) with (@Ok nat 6).
  cbn [mbind result_bind]. rewrite enumerate_take.
  apply resolve_rank_fold; [done|].
  split; [done|]. split; [done|]. split; [|done]. intros k Hk. lia.
Qed.
End ResolveMissing.

(** X18: on a list of at least seven entries [_resolve_missing_taxa] returns a
    list of the same length in which exactly the gaps (a bare rank prefix
    above a rank that is specified) are rewritten: a gap becomes the prefix
    followed by '{unclassified name}', where name is the returned entry just
    before it without its first three characters (so a run of gaps nests the
    braces) and, for the domain, the last entry of the list; a list without
    gap is returned unchanged and nothing is printed. *)
Theorem missing_ranks_are_filled_from_the_entry_before (taxa_list : list string) :
  7 ≤ length taxa_list →
  ∃ out printed,
    _resolve_missing_taxa taxa_list = Ok (out, printed)
    ∧ length out = length taxa_list
    ∧ (∀ k, if gap taxa_list k then filled_from_parent out k
            else out !! k = taxa_list !! k)
    ∧ ((∀ k, gap taxa_list k = false) → out = taxa_list ∧ printed = []).
Proof.
  intros Hlen.
  destruct (resolve_missing_spec taxa_list Hlen)
    as (out & printed & Hres & Hl & Hsame & Hfilled & Hpr).
  exists out, printed. split; [done|]. split; [done|]. split.
  - intros k. destruct (gap taxa_list k) eqn:Hg.
    + apply Hfilled; [by apply gap_lt in Hg | done].
    + by apply Hsame.
  - intros Hno. split.
    + apply list_eq. intros k. by apply Hsame.
    + apply Hpr. intros k _. apply Hno.
Qed.

Lemma missing_ranks_are_filled_from_the_entry_before_witness :
  ∃ out printed,
    _resolve_missing_taxa ExamplesRun.record_with_gaps = Ok (out, printed)
    ∧ length out = length ExamplesRun.record_with_gaps
    ∧ (∀ k, if gap ExamplesRun.record_with_gaps k then filled_from_parent out k
            else out !! k = ExamplesRun.record_with_gaps !! k)
    ∧ ((∀ k, gap ExamplesRun.record_with_gaps k = false) →
       out = ExamplesRun.record_with_gaps ∧ printed = []).
Proof.
  apply (missing_ranks_are_filled_from_the_entry_before ExamplesRun.record_with_gaps).
  simpl. lia.
Defined.

(** ** The errors of [_resolve_missing_taxa] *)
Lemma py_index_raise {A : Type} (l : list A) (k : Z) (e : error) :
  py_index l k = Raise e → e = IndexError.
Proof.
  unfold py_index. destruct (_ <? 0)%Z; [by intros [= <-]|].
  destruct (l !! _); [done | by intros [= <-]].
Qed.

Lemma bind_Raise {A B : Type} (r : result A) (k : A → result B) (e : error) :
  (r ≫= k) = Raise e → r = Raise e ∨ ∃ a, r = Ok a ∧ k a = Raise e.
Proof. destruct r as [a|e']; simpl; [right; by exists a | intros [= <-]; by left]. Qed.

Lemma foldM_raise {A B : Type} (f : A → B → result A) (E : error) :
  (∀ a b e, f a b = Raise e → e = E) →
  ∀ l a e, foldM f a l = Raise e → e = E.
Proof.
  intros Hf l. induction l as [|b l IH]; intros a e; simpl; [done|].
  intros [H | (a' & _ & H)]%bind_Raise; [by eapply Hf | by eapply IH].
Qed.

Lemma foldM_snoc {A B : Type} (f : A → B → result A) (a : A) (l : list B) (b : B) :
  foldM f a (l ++ [b]) = (a' ← foldM f a l; f a' b).
Proof.
  revert a. induction l as [|x l IH]; intros a; simpl.
  - by destruct (f a b).
  - destruct (f a x) as [a'|e]; simpl; [apply IH | done].
Qed.

Lemma first_specified_raise (cur : list string) (rs : list nat) (e : error) :
  first_specified cur rs = Raise e → e = IndexError.
Proof.
  induction rs as [|r rs IH]; simpl; [done|].
  intros [H | (x & _ & H)]%bind_Raise; [by eapply py_index_raise|].
  apply bind_Raise in H as [H | (p & _ & H)]; [by eapply py_index_raise|].
  destruct (negb _); [done | by apply IH].
Qed.

Lemma fill_rank_raise (n : nat) (st : list string * list (list string)) (i : nat)
      (e : error) :
  fill_rank n st i = Raise e → e = IndexError.
Proof.
  destruct st as [cur pr]. unfold fill_rank.
  intros [H | (p & _ & H)]%bind_Raise; [by eapply py_index_raise|].
  apply bind_Raise in H as [H | (parent & _ & H)]; [by eapply py_index_raise|].
  destruct (_ <? _); [done | by injection H].
Qed.

Lemma resolve_rank_raise (st : list string * list (list string)) (entry : nat * string)
      (e : error) :
  resolve_rank st entry = Raise e → e = IndexError.
Proof.
  destruct entry as [n x]. unfold resolve_rank.
  intros [H | (p & _ & H)]%bind_Raise; [by eapply py_index_raise|].
  destruct (String.eqb x p); [|done].
  change (index_of "species" Taxonomy.rank_labels) with (@Ok nat 6) in H.
  cbn [mbind result_bind] in H.
  apply bind_Raise in H as [H | ([r|] & _ & H)]; [by eapply first_specified_raise| |done].
  eapply foldM_raise; [|exact H]. apply fill_rank_raise.
Qed.

Lemma fill_rank_length (n : nat) (cur cur' : list string) (pr pr' : list (list string))
      (i : nat) :
  fill_rank n (cur, pr) i = Ok (cur', pr') → length cur' = length cur.
Proof.
  unfold fill_rank. intros (p & _ & H)%bind_Ok. apply bind_Ok in H as (parent & _ & H).
  destruct (_ <? _); [|done]. injection H as <- _. apply length_insert.
Qed.

Lemma fill_fold_length (n : nat) (l : list nat) (cur cur' : list string)
      (pr pr' : list (list string)) :
  foldM (fill_rank n) (cur, pr) l = Ok (cur', pr') → length cur' = length cur.
Proof.
  revert cur pr. induction l as [|i l IH]; intros cur pr; simpl.
  - by intros [= <- _].
  - intros ([cur1 pr1] & Hstep & H)%bind_Ok.
    rewrite (IH _ _ H). by eapply fill_rank_length.
Qed.

Lemma resolve_rank_length (cur cur' : list string) (pr pr' : list (list string))
      (entry : nat * string) :
  resolve_rank (cur, pr) entry = Ok (cur', pr') → length cur' = length cur.
Proof.
  destruct entry as [n x]. unfold resolve_rank. intros (p & _ & H)%bind_Ok.
  destruct (String.eqb x p); [|by injection H as <- _].
  apply bind_Ok in H as (species & _ & H). apply bind_Ok in H as ([r|] & _ & H).
  - by eapply fill_fold_length.
  - by injection H as <- _.
Qed.

Lemma resolve_rank_fold_length (l : list (nat * string)) (cur cur' : list string)
      (pr pr' : list (list string)) :
  foldM resolve_rank (cur, pr) l = Ok (cur', pr') → length cur' = length cur.
Proof.
  revert cur pr. induction l as [|entry l IH]; intros cur pr; simpl.
  - by intros [= <- _].
  - intros ([cur1 pr1] & Hstep & H)%bind_Ok.
    rewrite (IH _ _ H). by eapply resolve_rank_length.
Qed.

(** X19: [_resolve_missing_taxa] raises nothing but IndexError, and only on
    lists of fewer than seven entries; a list of fewer than seven entries
    whose last entry is the bare prefix of its rank raises IndexError. *)
Theorem short_records_raise_IndexError (taxa_list : list string) :
  (∀ e, _resolve_missing_taxa taxa_list = Raise e →
        e = IndexError ∧ length taxa_list < 7)
  ∧ (length taxa_list < 7 →
     missing_rank taxa_list (length taxa_list - 1) = true →
     _resolve_missing_taxa taxa_list = Raise IndexError).
Proof.
  split.
  - intros e He. split.
    + unfold _resolve_missing_taxa in He.
      change (index_of "species" Taxonomy.rank_labels) with (@Ok nat 6) in He.
      cbn [mbind result_bind] in He.
      eapply foldM_raise; [|exact He]. apply resolve_rank_raise.
    + destruct (decide (length taxa_list < 7)) as [|Hge]; [done|].
      destruct (resolve_missing_spec taxa_list) as (out & printed & Hres & _); [lia|].
      congruence.
  - intros Hlen Hmiss. unfold _resolve_missing_taxa.
    change (index_of "species" Taxonomy.rank_labels) with (@Ok nat 6).
    cbn [mbind result_bind]. rewrite take_ge by lia.
    destruct taxa_list as [|x0 l0] using rev_ind; [done|]. clear IHl0.
    rewrite length_app in Hlen, Hmiss. simpl in Hlen, Hmiss.
    replace (length l0 + 1 - 1) with (length l0) in Hmiss by lia.
    unfold enumerate. rewrite imap_app. cbn [imap]. rewrite Nat.add_0_r, foldM_snoc.
    destruct (foldM resolve_rank (l0 ++ [x0], []) (imap pair l0)) as [[cur pr]|e] eqn:Hfold.
    + cbn [mbind result_bind].
      apply resolve_rank_fold_length in Hfold. rewrite length_app in Hfold.
      simpl in Hfold.
      destruct (rank_prefix_lookup (length l0)) as [p Hp]; [lia|].
      unfold missing_rank in Hmiss. rewrite Hp, lookup_app_r, Nat.sub_diag in Hmiss by lia.
      simpl in Hmiss.
      unfold resolve_rank. rewrite py_index_nat, Hp. cbn [from_option mbind result_bind].
      rewrite Hmiss.
      change (index_of "species" Taxonomy.rank_labels) with (@Ok nat 6).
      cbn [mbind result_bind fst]. unfold range.
      replace (6 + 1 - (length l0 + 1)) with (S (5 - length l0)) by lia.
      cbn [seq first_specified]. rewrite (py_index_nat cur).
      rewrite (lookup_ge_None_2 cur) by lia. done.
    + cbn [mbind result_bind]. f_equal.
      eapply foldM_raise; [|exact Hfold]. apply resolve_rank_raise.
Qed.


(** ** The resolver without an estimate *)
Section ResolveKeyError.
Variable median_rank_rd : gmap nat Q.
Variable rel_dist : path → Q.
Variable max_rd_diff : Q.

Lemma resolve_taxon_one (m : fmeasure_map) (lab : labels) (taxon : string)
      (l : list cand) :
  m !! taxon = Some l → length l = 1 →
  resolve_taxon median_rank_rd rel_dist max_rd_diff (m, lab) taxon = Ok (m, lab).
Proof. intros Hl Hlen. unfold resolve_taxon. by rewrite Hl, Hlen. Qed.

Lemma resolve_taxon_no_estimate (m : fmeasure_map) (lab : labels) (taxon : string)
      (l : list cand) (rank_index : nat) :
  m !! taxon = Some l → length l ≠ 1 →
  index_of (PyStr.slice_to 3 taxon) Taxonomy.rank_prefixes = Ok rank_index →
  median_rank_rd !! rank_index = None →
  resolve_taxon median_rank_rd rel_dist max_rd_diff (m, lab) taxon = Raise KeyError.
Proof.
  intros Hl Hlen Hi Hnone. unfold resolve_taxon. rewrite Hl.
  destruct (Nat.eqb_spec (length l) 1) as [?|_]; [done|].
  rewrite Hi. cbn [mbind result_bind]. by rewrite Hnone.
Qed.

Lemma resolve_fold_KeyError (taxa : list string) (m : fmeasure_map) (lab : labels) :
  (∀ taxon, taxon ∈ taxa → has_rank_prefix taxon = true ∧ is_Some (m !! taxon)) →
  (∃ taxon l, taxon ∈ taxa ∧ m !! taxon = Some l ∧ length l ≠ 1) →
  (∀ taxon l rank_index,
     m !! taxon = Some l → length l ≠ 1 →
     index_of (PyStr.slice_to 3 taxon) Taxonomy.rank_prefixes = Ok rank_index →
     median_rank_rd !! rank_index = None) →
  foldM (resolve_taxon median_rank_rd rel_dist max_rd_diff) (m, lab) taxa = Raise KeyError.
Proof.
  intros Hall Hamb Hnone. induction taxa as [|x taxa IH].
  { destruct Hamb as (taxon & l & Hin & _). by apply elem_of_nil in Hin. }
  destruct (Hall x) as [Hrank [lx Hx]]; [by left|].
  cbn [foldM].
  destruct (decide (length lx = 1)) as [Hlen|Hlen].
  - rewrite (resolve_taxon_one m lab x lx Hx Hlen).
    cbn [mbind result_bind]. apply IH.
    + intros taxon Hin. apply Hall. by right.
    + destruct Hamb as (taxon & l & Hin & Hl & Hne). exists taxon, l.
      split; [|done]. apply elem_of_cons in Hin as [->|Hin]; [|done]. congruence.
  - destruct (has_rank_prefix_index x Hrank) as [i Hi].
    by rewrite (resolve_taxon_no_estimate m lab x lx i Hx Hlen Hi (Hnone x lx i Hx Hlen Hi)).
Qed.
End ResolveKeyError.

(** X20: [_resolve_ambiguous_placements] raises KeyError when some taxon with
    a rank prefix has a candidate list of another length than one and the
    medians hold no value for the rank of any such taxon. *)
Theorem resolver_raises_KeyError_without_an_estimate_for_the_rank
        (median_rank_rd : gmap nat Q) (rel_dist : path → Q) (max_rd_diff : Q)
        (m : fmeasure_map) (lab : labels) (taxon : string) (l : list cand) :
  m !! taxon = Some l → has_rank_prefix taxon = true → length l ≠ 1 →
  map_Forall (λ taxon' l',
                length l' ≠ 1 →
                ∀ rank_index,
                  index_of (PyStr.slice_to 3 taxon') Taxonomy.rank_prefixes = Ok rank_index →
                  median_rank_rd !! rank_index = None) m →
  _resolve_ambiguous_placements median_rank_rd rel_dist max_rd_diff m lab = Raise KeyError.
Proof.
  intros Hl Hrank Hlen Hnone. apply resolve_fold_KeyError.
  - intros taxon' [Hk Hr]%sort_taxa_elem. split; [done|]. by apply keys_elem.
  - exists taxon, l. split; [|done]. apply sort_taxa_elem. split; [|done].
    apply keys_elem. eauto.
  - intros taxon' l' i Hl' Hlen' Hi. by apply (Hnone taxon' l' Hl' Hlen' i).
Qed.

Lemma resolver_raises_KeyError_without_an_estimate_for_the_rank_witness :
  _resolve_ambiguous_placements (delete 0 Examples.median_rank_rd_tied)
    Examples.rel_dist_tied default_max_rd_diff Examples.fmeasure_tied Examples.labels_tied
  = Raise KeyError.
Proof.
  apply (resolver_raises_KeyError_without_an_estimate_for_the_rank
           (delete 0 Examples.median_rank_rd_tied) Examples.rel_dist_tied
           default_max_rd_diff Examples.fmeasure_tied Examples.labels_tied
           "d__X" Examples.candidates_tied).
  - vm_compute. reflexivity.
  - vm_compute. reflexivity.
  - simpl. lia.
  - intros taxon' l' Hl' Hlen' i Hi.
    assert (Examples.fmeasure_tied = {[ "d__X"%string := Examples.candidates_tied ]}) as Hm
      by (vm_compute; reflexivity).
    rewrite Hm in Hl'. apply lookup_singleton_Some in Hl' as [<- <-].
    vm_compute in Hi. injection Hi as <-. vm_compute. reflexivity.
Defined.

(** ** The rows of the statistics table *)

(** X21: when [_write_statistics_table] completes, its rows are those of the
    keys with a rank prefix, in rank-then-name order, each with the
    F-measure, precision and recall of the single candidate of its taxon. *)
Theorem statistics_table_lists_the_single_candidates (m : fmeasure_map)
        (rows : list (string * Q * Q * Q)) :
  _write_statistics_table m = Ok rows →
  map (λ row, row.1.1.1) rows = Taxonomy.sort_taxa (keys m) false
  ∧ Forall (λ row, ∃ node, m !! row.1.1.1
                           = Some [Cand node row.1.1.2 row.1.2 row.2]) rows.
Proof.
  unfold _write_statistics_table. intros H%mapM_Ok_inv.
  induction H as [|taxon row taxa rows Hrow _ [IH1 IH2]]; [done|].
  unfold statistics_row in Hrow.
  destruct (m !! taxon) as [[|[node f p r] [|? ?]]|] eqn:Hm; try done.
  injection Hrow as <-. split.
  - simpl. by rewrite IH1.
  - constructor; [|done]. simpl. by exists node.
Qed.

Lemma statistics_table_lists_the_single_candidates_witness :
  map (λ row, row.1.1.1) (out_table Examples.first_run4)
  = Taxonomy.sort_taxa (keys (out_fmeasure_for_taxa Examples.first_run4)) false
  ∧ Forall (λ row, ∃ node, out_fmeasure_for_taxa Examples.first_run4 !! row.1.1.1
                           = Some [Cand node row.1.1.2 row.1.2 row.2])
           (out_table Examples.first_run4).
Proof.
  apply (statistics_table_lists_the_single_candidates
           (out_fmeasure_for_taxa Examples.first_run4) (out_table Examples.first_run4)).
  vm_compute. reflexivity.
Defined.

(** ** Every named taxon is placed *)
Lemma process_taxon_keeps (t : tree) (taxonomy : taxonomy_dict) (rank_index : nat)
      (m : fmeasure_map) (taxon x : string) :
  is_Some (m !! x) → is_Some (process_taxon t taxonomy rank_index m taxon !! x).
Proof.
  intros Hx. unfold process_taxon. destruct (search_root _ _ _ _ _) as [root|]; [|done].
  rewrite search_from_spec. destruct (scored_candidates _ _ _ _ _); [done|].
  destruct (decide (x = taxon)) as [->|Hne].
  - rewrite lookup_insert_eq. eauto.
  - by rewrite lookup_insert_ne.
Qed.

Lemma process_taxa_keep (t : tree) (taxonomy : taxonomy_dict) (rank_index : nat)
      (taxa : list string) (m : fmeasure_map) (x : string) :
  is_Some (m !! x) →
  is_Some (foldl (process_taxon t taxonomy rank_index) m taxa !! x).
Proof.
  revert m. induction taxa as [|y taxa IH]; intros m Hx; [done|].
  simpl. by apply IH, process_taxon_keeps.
Qed.

Lemma process_ranks_keep (t : tree) (taxonomy : taxonomy_dict) (ranks : list nat)
      (m : fmeasure_map) (x : string) :
  is_Some (m !! x) → is_Some (foldl (process_rank t taxonomy) m ranks !! x).
Proof.
  revert m. induction ranks as [|r ranks IH]; intros m Hx; [done|].
  simpl. by apply IH, process_taxa_keep.
Qed.

Lemma process_taxon_inserts (t : tree) (full_taxonomy : gmap string (list string))
      (m : fmeasure_map) (rank_index : nat) (taxon : string) :
  let taxonomy := trim_taxonomy t full_taxonomy in
  taxon ∈ Taxonomy.named_lineages_at_rank taxonomy rank_index →
  rank_index = 0
  ∨ (∃ parent_taxon, last (Taxonomy.parents taxonomy !!! taxon) = Some parent_taxon
                     ∧ is_Some (m !! parent_taxon)) →
  is_Some (process_taxon t taxonomy rank_index m taxon !! taxon).
Proof.
  intros taxonomy Hnamed Hproc.
  destruct (search_root_is_Some t taxonomy m rank_index taxon Hproc) as [root Hroot].
  assert (Hc : 1 ≤ taxa_count_at taxonomy t root rank_index taxon).
  { eapply search_root_has_taxon; [|done]. by apply named_lineage_in_tree. }
  unfold process_taxon. rewrite Hroot, search_from_spec.
  destruct (search_root_scored t taxonomy rank_index taxon root Hc) as (c & cs & ->).
  rewrite lookup_insert_eq. eauto.
Qed.

Section Placement.
Variable t : tree.
Variable full_taxonomy : gmap string (list string).
Local Abbreviation taxonomy := (trim_taxonomy t full_taxonomy).
Hypothesis parents_named :
  ∀ rank_index taxon,
    S rank_index < length Taxonomy.rank_labels →
    taxon ∈ Taxonomy.named_lineages_at_rank taxonomy (S rank_index) →
    ∃ parent_taxon, last (Taxonomy.parents taxonomy !!! taxon) = Some parent_taxon
                    ∧ parent_taxon ∈ Taxonomy.named_lineages_at_rank taxonomy rank_index.

Lemma process_rank_places (n : nat) (m : fmeasure_map) :
  n < length Taxonomy.rank_labels →
  placed_below taxonomy n m → placed_below taxonomy (S n) (process_rank t taxonomy m n).
Proof.
  intros Hn Hinv. unfold process_rank.
  assert (Hfold : ∀ taxa m0,
             (∀ x, x ∈ taxa → x ∈ Taxonomy.named_lineages_at_rank taxonomy n) →
             placed_below taxonomy n m0 →
             placed_below taxonomy n (foldl (process_taxon t taxonomy n) m0 taxa)
             ∧ ∀ x, x ∈ taxa →
                    is_Some (foldl (process_taxon t taxonomy n) m0 taxa !! x)).
  { induction taxa as [|y taxa IH]; intros m0 Hsub Hm0.
    - split; [done|]. intros x Hx. by apply elem_of_nil in Hx.
    - cbn [foldl].
      assert (Hy : is_Some (process_taxon t taxonomy n m0 y !! y)).
      { apply process_taxon_inserts; [apply Hsub; by left|].
        destruct n as [|n']; [by left|]. right.
        destruct (parents_named n' y Hn) as (parent & Hlast & Hparent);
          [apply Hsub; by left|].
        exists parent. split; [done|]. apply (Hm0 n' parent); [lia | done]. }
      destruct (IH (process_taxon t taxonomy n m0 y)) as [IH1 IH2].
      + intros x Hx. apply Hsub. by right.
      + intros k x Hk Hx. apply process_taxon_keeps. by apply (Hm0 k).
      + split; [done|]. intros x [->|Hx]%elem_of_cons; [|by apply IH2].
        by apply process_taxa_keep. }
  destruct (Hfold (Taxonomy.named_lineages_at_rank taxonomy n) m) as [H1 H2];
    [done | done |].
  intros k taxon Hk Hin. destruct (decide (k = n)) as [->|Hne].
  - by apply H2.
  - apply (H1 k); [lia | done].
Qed.

Lemma process_ranks_place (k n : nat) (m : fmeasure_map) :
  n + k ≤ length Taxonomy.rank_labels →
  placed_below taxonomy n m →
  placed_below taxonomy (n + k) (foldl (process_rank t taxonomy) m (seq n k)).
Proof.
  revert n m. induction k as [|k IH]; intros n m Hn Hinv.
  - by rewrite Nat.add_0_r.
  - cbn [seq foldl]. replace (n + S k) with (S n + k) by lia.
    apply IH; [lia|]. apply process_rank_places; [lia | done].
Qed.

Lemma fmeasure_places_all :
  placed_below taxonomy (length Taxonomy.rank_labels) (_fmeasure t taxonomy).
Proof.
  unfold _fmeasure. apply (process_ranks_place (length Taxonomy.rank_labels) 0 ∅); [done|].
  intros k taxon Hk. lia.
Qed.
End Placement.

(** X22: when the parent taxon of every named taxon is a named taxon of the
    rank above, every named taxon of the seven ranks gets an entry with at
    least one candidate in the result of [_fmeasure]. *)
Theorem every_named_taxon_is_placed_when_its_parent_is_named
        (t : tree) (full_taxonomy : gmap string (list string))
        (rank_index : nat) (taxon : string) :
  let taxonomy := trim_taxonomy t full_taxonomy in
  (∀ r x, S r < length Taxonomy.rank_labels →
          x ∈ Taxonomy.named_lineages_at_rank taxonomy (S r) →
          ∃ parent_taxon, last (Taxonomy.parents taxonomy !!! x) = Some parent_taxon
                          ∧ parent_taxon ∈ Taxonomy.named_lineages_at_rank taxonomy r) →
  rank_index < length Taxonomy.rank_labels →
  taxon ∈ Taxonomy.named_lineages_at_rank taxonomy rank_index →
  ∃ c l, _fmeasure t taxonomy !! taxon = Some (c :: l).
Proof.
  intros taxonomy Hparents Hr Hnamed.
  destruct (fmeasure_places_all t full_taxonomy Hparents rank_index taxon Hr Hnamed)
    as [[|c l] Hl].
  - by destruct (fmeasure_nonempty t taxonomy taxon [] Hl).
  - by exists c, l.
Qed.

Lemma every_named_taxon_is_placed_when_its_parent_is_named_witness :
  ∃ c l, _fmeasure Examples.tree4 (trim_taxonomy Examples.tree4 Examples.taxonomy4)
         !! "p__P2"%string = Some (c :: l).
Proof.
  apply (every_named_taxon_is_placed_when_its_parent_is_named
           Examples.tree4 Examples.taxonomy4 1 "p__P2").
  - intros r x Hr Hx.
    destruct r as [|r].
    + vm_compute in Hx.
      apply elem_of_cons in Hx as [->|Hx]; [exists "d__D1"%string; split|].
      * vm_compute. reflexivity.
      * by_compute.
      * apply elem_of_cons in Hx as [->|Hx]; [exists "d__D1"%string; split|].
        -- vm_compute. reflexivity.
        -- by_compute.
        -- by apply elem_of_nil in Hx.
    + do 5 (destruct r as [|r]; [vm_compute in Hx; by apply elem_of_nil in Hx|]).
      simpl in Hr. lia.
  - simpl. lia.
  - by_compute.
Defined.
